(** * Resource scanning and archive packing (actor/v2action/resource.go)

  A shallow embedding of the resource-bundling code of the command-line
  client: the two scanners ([GatherArchiveResources],
  [GatherDirectoryResources]), the lookup [findInResources], the shared
  entry writer [addFileToZipFromFileSystem] and the two packers
  ([ZipArchiveResources], [ZipDirectoryResources]).

  Go values are modelled as follows: [string] for Go strings, [list byte]
  for byte content, [Z] for [os.FileMode] (a [uint32]) and for sizes
  ([int64]); a Go [(value, error)] result is a pair whose second component
  is [option error] ([None] is Go's [nil]).  What the operating system and
  the standard library do (file trees, archive listings, content streams,
  SHA-1) is data or a function of the model; the packages that are not part
  of this repository appear in modules named after them. *)

From Stdlib Require Import ZArith List Bool Lia.
From Stdlib Require Import Strings.String Strings.Ascii Strings.Byte.
Import ListNotations.

Local Open Scope Z_scope.

(** ** crypto/sha1 and the [%x] verb of fmt *)

Module sha1.

Definition w32 (x : Z) : Z := Z.land x 0xFFFFFFFF.

Definition rotl (n x : Z) : Z :=
  w32 (Z.lor (Z.shiftl x n) (Z.shiftr x (32 - n))).

Definition byteZ (b : byte) : Z := Z.of_N (Byte.to_N b).

Definition Zbyte (z : Z) : byte :=
  match Byte.of_N (Z.to_N (Z.land z 0xFF)) with
  | Some b => b
  | None => x00
  end.

(** Big-endian bytes of a [w]-byte quantity. *)
Fixpoint be_bytes (w : nat) (x : Z) : list byte :=
  match w with
  | O => []
  | S w' => Zbyte (Z.shiftr x (8 * Z.of_nat w')) :: be_bytes w' x
  end.

(** The message followed by 0x80, zeros up to 56 modulo 64, and the bit
    length on eight bytes. *)
Definition pad (msg : list byte) : list byte :=
  let len := Z.of_nat (List.length msg) in
  let zeros := Z.to_nat ((55 - len) mod 64) in
  msg ++ x80 :: repeat x00 zeros ++ be_bytes 8 (8 * len).

Fixpoint words (n : nat) (bs : list byte) : list Z :=
  match n, bs with
  | S n', b0 :: b1 :: b2 :: b3 :: rest =>
      (byteZ b0 * 16777216 + byteZ b1 * 65536 + byteZ b2 * 256 + byteZ b3)
      :: words n' rest
  | _, _ => []
  end.

Definition state : Type := Z * Z * Z * Z * Z.

Definition init : state :=
  (0x67452301, 0xEFCDAB89, 0x98BADCFE, 0x10325476, 0xC3D2E1F0).

Definition round (t : nat) (wt : Z) (s : state) : state :=
  let '(a, b, c, d, e) := s in
  let '(f, k) :=
    if (t <? 20)%nat then
      (Z.lor (Z.land b c) (Z.land (w32 (Z.lnot b)) d), 0x5A827999)
    else if (t <? 40)%nat then
      (Z.lxor (Z.lxor b c) d, 0x6ED9EBA1)
    else if (t <? 60)%nat then
      (Z.lor (Z.lor (Z.land b c) (Z.land b d)) (Z.land c d), 0x8F1BBCDC)
    else
      (Z.lxor (Z.lxor b c) d, 0xCA62C1D6) in
  (w32 (rotl 5 a + f + e + k + wt), a, rotl 30 b, c, d).

(** Eighty rounds over a sliding window of sixteen schedule words: the
    head is the word of round [t]. *)
Fixpoint rounds (n : nat) (t : nat) (win : list Z) (s : state) : state :=
  match n with
  | O => s
  | S n' =>
      let wt := nth 0 win 0 in
      let next :=
        rotl 1 (Z.lxor (Z.lxor (Z.lxor (nth 13 win 0) (nth 8 win 0))
                          (nth 2 win 0)) wt) in
      rounds n' (S t) (tl win ++ [next]) (round t wt s)
  end.

Definition block (s : state) (blk : list byte) : state :=
  let '(h0, h1, h2, h3, h4) := s in
  let '(a, b, c, d, e) := rounds 80 0 (words 16 blk) s in
  (w32 (h0 + a), w32 (h1 + b), w32 (h2 + c), w32 (h3 + d), w32 (h4 + e)).

Fixpoint blocks (n : nat) (s : state) (bs : list byte) : state :=
  match n with
  | O => s
  | S n' => blocks n' (block s (firstn 64 bs)) (skipn 64 bs)
  end.

(** The twenty bytes of the digest of [msg]. *)
Definition digest (msg : list byte) : list byte :=
  let p := pad msg in
  let '(h0, h1, h2, h3, h4) :=
    blocks (Nat.div (List.length p) 64) init p in
  be_bytes 4 h0 ++ be_bytes 4 h1 ++ be_bytes 4 h2 ++ be_bytes 4 h3
    ++ be_bytes 4 h4.

(** A running hash ([hash.Hash]): the bytes written so far. *)
Definition Hash : Type := list byte.
Definition New : Hash := [].
Definition Write (h : Hash) (p : list byte) : Hash := h ++ p.
Definition Sum (h : Hash) : list byte := digest h.

Arguments digest : simpl never.
Arguments Sum : simpl never.

End sha1.

Module fmt.

Definition hexdigit (n : Z) : ascii :=
  if n <? 10 then ascii_of_nat (Z.to_nat (48 + n))
  else ascii_of_nat (Z.to_nat (87 + n)).

(** [fmt.Sprintf("%x", bs)]: two lower-case hexadecimal digits a byte. *)
Fixpoint Sprintf_x (bs : list byte) : string :=
  match bs with
  | [] => EmptyString
  | b :: rest =>
      String (hexdigit (Z.shiftr (sha1.byteZ b) 4))
        (String (hexdigit (Z.land (sha1.byteZ b) 15)) (Sprintf_x rest))
  end.

End fmt.

(** ** Errors and results *)

(** An error of the operating system or of a library (an [*os.PathError],
    a read error, an unreadable archive): opaque to the code, which only
    hands it on. *)
Inductive syserror : Type :=
| Errno (what : string).

(** The errors the functions of this package return: [FileChangedError],
    the package's own error type, which no library can produce, or an
    error of the system handed on. *)
Inductive error : Type :=
| FileChangedError (Filename : string)
| SysError (err : syserror).

(** [func (e FileChangedError) Error() string] *)
Definition FileChangedError_Error (Filename : string) : string :=
  ("SHA1 mismatch for:" ++ Filename)%string.

(** The [(value, error)] answer of a system or library call. *)
Inductive result (A : Type) : Type :=
| Ok (a : A)
| Err (err : syserror).

Arguments Ok {A} a.
Arguments Err {A} err.

(** ** io: readers, writers, [Copy] and [MultiWriter] *)

Module io.

(** What successive [Read]s of a stream deliver: the chunks, then
    [io.EOF] ([failure = None]) or an error. *)
Record Reader : Type := {
  chunks : list (list byte);
  failure : option syserror
}.

Definition content (r : Reader) : list byte := List.concat (chunks r).

(** The [io.Writer] interface. *)
Class Writer (W : Type) : Type :=
  Write : W -> list byte -> W * option syserror.

Fixpoint copy_chunks {W : Type} `{Writer W} (dst : W) (cs : list (list byte))
  : W * option syserror :=
  match cs with
  | [] => (dst, None)
  | c :: rest =>
      match Write dst c with
      | (dst', Some ew) => (dst', Some ew)
      | (dst', None) => copy_chunks dst' rest
      end
  end.

(** [io.Copy(dst, src)]: every chunk read is written at once; a write
    error or a read error other than EOF ends the copy. *)
Definition Copy {W : Type} `{Writer W} (dst : W) (src : Reader)
  : W * option syserror :=
  match copy_chunks dst (chunks src) with
  | (dst', Some ew) => (dst', Some ew)
  | (dst', None) => (dst', failure src)
  end.

(** [io.MultiWriter(a, b)]: each [Write] goes to [a], then to [b]. *)
#[global] Instance MultiWriter {A B : Type} `{Writer A} `{Writer B}
  : Writer (A * B) :=
  fun ab p =>
    match Write (fst ab) p with
    | (a', Some e) => ((a', snd ab), Some e)
    | (a', None) =>
        match Write (snd ab) p with
        | (b', e) => ((a', b'), e)
        end
    end.

(** A [hash.Hash] never refuses a write. *)
#[global] Instance HashWriter : Writer sha1.Hash :=
  fun h p => (sha1.Write h p, None).

End io.

(** ** os: file information and opened files *)

Module os.

(** [os.FileInfo], by the methods the code calls. *)
Record FileInfo : Type := {
  Size : Z;
  Mode : Z
}.

(** A three-digit octal permission literal, as Go writes [0755]. *)
Definition octal (u g o : Z) : Z := u * 64 + g * 8 + o.

Definition ModeDir : Z := 2 ^ 31.
Definition ModePerm : Z := octal 7 7 7.

(** [FileInfo.IsDir()] is [Mode().IsDir()]: the [ModeDir] bit. *)
Definition IsDir (fi : FileInfo) : bool := Z.testbit (Mode fi) 31.

Arguments IsDir : simpl never.

(** An opened file: what [Stat] answers and what reading it delivers. *)
Record File : Type := {
  Stat : result FileInfo;
  Body : io.Reader
}.

End os.

(** ** strings *)

Module strings.

Fixpoint HasSuffix (s suffix : string) : bool :=
  if String.eqb s suffix then true
  else match s with
       | EmptyString => false
       | String _ rest => HasSuffix rest suffix
       end.

(** [strings.Replace(s, old, new, -1)] for one-character [old], [new]. *)
Fixpoint Replace (s : string) (old new : ascii) : string :=
  match s with
  | EmptyString => EmptyString
  | String c rest =>
      String (if Ascii.eqb c old then new else c) (Replace rest old new)
  end.

(** [strings.Join(elems, sep)] *)
Fixpoint Join (elems : list string) (sep : string) : string :=
  match elems with
  | [] => EmptyString
  | [e] => e
  | e :: rest => (e ++ sep ++ Join rest sep)%string
  end.

End strings.

(** ** path/filepath: file trees and [Walk] *)

Module filepath.

(** [filepath.ToSlash]: the host's separator replaced by a slash. *)
Definition ToSlash (Separator : ascii) (path : string) : string :=
  if Ascii.eqb Separator "/" then path
  else strings.Replace path Separator "/".

(** What the file system holds at a path: the answer of [Lstat], the
    answer of [os.Open] (read when the entry is not a directory), and the
    answer of reading the directory (read when it is one): the names in
    the lexical order [Walk] visits them, each with what it holds. *)
#[local] Unset Elimination Schemes.
Inductive node : Type :=
| Node (lstat : result os.FileInfo)
       (opened : result os.File)
       (readdir : result (list (string * node))).
#[local] Set Elimination Schemes.

Definition Lstat (n : node) : result os.FileInfo :=
  match n with Node l _ _ => l end.

Definition Open (n : node) : result os.File :=
  match n with Node _ o _ => o end.

Definition readDirNames (n : node) : result (list (string * node)) :=
  match n with Node _ _ d => d end.

(** A path that [Walk] hands to its callback is the root joined with the
    names on the way down; it is kept as that list of names.  On such a
    path [filepath.Rel(root, path)] cannot fail: it is ["."] for the root
    and the names joined by the separator below it. *)
Definition Rel (Separator : ascii) (path : list string)
  : string * option syserror :=
  match path with
  | [] => ("."%string, None)
  | _ => (strings.Join path (String Separator EmptyString), None)
  end.

(** The callback of [Walk], threading the state [S] it closes over: the
    path, the entry found there (for the callback's own [os.Open(path)]),
    its [FileInfo] and the error [Walk] met. *)
Definition WalkFunc (S : Type) : Type :=
  S -> list string -> node -> os.FileInfo -> option syserror
  -> S * option error.

(** The [info] of a callback invoked with an [Lstat] error is nil. *)
Definition nilInfo : os.FileInfo := {| os.Size := 0; os.Mode := 0 |}.

(** The loop of [filepath.walk] over the names of a directory: [Lstat]
    on each, the callback with the error when it fails, [walk] on the
    entry otherwise; the first error returned ends the loop. *)
Definition walkNames {S : Type}
  (walk : list string -> node -> os.FileInfo -> S -> S * option error)
  (walkFn : WalkFunc S) (path : list string)
  : list (string * node) -> S -> S * option error :=
  fix each (names : list (string * node)) (st : S) : S * option error :=
    match names with
    | [] => (st, None)
    | (name, child) :: rest =>
        let filename := (path ++ [name])%list in
        match Lstat child with
        | Err err =>
            match walkFn st filename child nilInfo (Some err) with
            | (st', Some err') => (st', Some err')
            | (st', None) => each rest st'
            end
        | Ok fileInfo =>
            match walk filename child fileInfo st with
            | (st', Some err') => (st', Some err')
            | (st', None) => each rest st'
            end
        end
    end.

(** [filepath.walk], as the library had it when this code was written:
    the callback on the entry, then, for a directory, its names read and
    walked in order (the callback once more, with the error, when they
    cannot be read); the first error returned ends the walk.  The
    sentinel [SkipDir] is not an error the system or this package's
    callback produces, and has no case here. *)
Fixpoint walk {S : Type} (walkFn : WalkFunc S) (path : list string)
  (n : node) (info : os.FileInfo) (st : S) {struct n} : S * option error :=
  match walkFn st path n info None with
  | (st1, Some err) => (st1, Some err)
  | (st1, None) =>
      if negb (os.IsDir info) then (st1, None)
      else
        match n with
        | Node _ _ (Err err) => walkFn st1 path n info (Some err)
        | Node _ _ (Ok names) =>
            walkNames (fun filename child => walk walkFn filename child)
              walkFn path names st1
        end
  end.

(** [filepath.Walk(root, walkFn)] *)
Definition Walk {S : Type} (root : node) (walkFn : WalkFunc S) (st : S)
  : S * option error :=
  match Lstat root with
  | Err err => walkFn st [] root nilInfo (Some err)
  | Ok info => walk walkFn [] root info st
  end.

End filepath.

(** ** archive/zip: headers, the writer and the entries of a reader *)

Module zip.

Definition Store : Z := 0.
Definition Deflate : Z := 8.

(** [zip.FileHeader], by the fields the code reaches.  [attrMode] stands
    for the [os.FileMode] that [CreatorVersion] and [ExternalAttrs]
    encode: [SetMode] stores it and [Mode] reads it back. *)
Record FileHeader : Type := {
  Name : string;
  Method : Z;
  UncompressedSize64 : Z;
  attrMode : Z
}.

Definition SetName (h : FileHeader) (name : string) : FileHeader :=
  {| Name := name; Method := Method h;
     UncompressedSize64 := UncompressedSize64 h; attrMode := attrMode h |}.

Definition SetMethod (h : FileHeader) (method : Z) : FileHeader :=
  {| Name := Name h; Method := method;
     UncompressedSize64 := UncompressedSize64 h; attrMode := attrMode h |}.

Definition SetMode (h : FileHeader) (mode : Z) : FileHeader :=
  {| Name := Name h; Method := Method h;
     UncompressedSize64 := UncompressedSize64 h; attrMode := mode |}.

(** [FileHeader.Mode()]: a name that ends in a slash is a directory
    whatever the attributes say. *)
Definition Mode (h : FileHeader) : Z :=
  if strings.HasSuffix (Name h) "/" then Z.lor (attrMode h) os.ModeDir
  else attrMode h.

(** [zip.FileInfoHeader]: size and mode of the entry; its name is set by
    the caller afterwards.  The library never answers with an error. *)
Definition FileInfoHeader (fi : os.FileInfo)
  : FileHeader * option syserror :=
  ({| Name := EmptyString; Method := Store;
      UncompressedSize64 := os.Size fi; attrMode := os.Mode fi |}, None).

(** An entry in the listing of an archive opened for reading
    ([zip.File]): its header and what [Open] answers. *)
Record File : Type := {
  Header : FileHeader;
  Open : result io.Reader
}.

(** [File.FileInfo()] *)
Definition FileInfo (f : File) : os.FileInfo :=
  {| os.Size := UncompressedSize64 (Header f); os.Mode := Mode (Header f) |}.

(** An entry as the writer has put it into the new archive. *)
Record Entry : Type := {
  hdr : FileHeader;
  body : list byte
}.

(** The file underneath a writer may refuse a header (given the entries
    already there) or a chunk of content (given the entry's header and
    the content so far). *)
Record Sink : Type := {
  refuseHeader : list Entry -> FileHeader -> option syserror;
  refuseWrite : FileHeader -> list byte -> list byte -> option syserror
}.

(** [zip.Writer]: the entries completed so far, oldest first. *)
Record Writer : Type := {
  sink : Sink;
  dir : list Entry
}.

Definition NewWriter (f : Sink) : Writer := {| sink := f; dir := [] |}.

(** The [io.Writer] that [CreateHeader] returns for one entry. *)
Record fileWriter : Type := {
  zipw : Writer;
  header : FileHeader;
  written : list byte
}.

(** [Writer.CreateHeader] *)
Definition CreateHeader (w : Writer) (fh : FileHeader) : result fileWriter :=
  match refuseHeader (sink w) (dir w) fh with
  | Some err => Err err
  | None => Ok {| zipw := w; header := fh; written := [] |}
  end.

#[global] Instance fileWriter_Writer : io.Writer fileWriter :=
  fun fw p =>
    match refuseWrite (sink (zipw fw)) (header fw) (written fw) p with
    | Some err => (fw, Some err)
    | None =>
        ({| zipw := zipw fw; header := header fw;
            written := (written fw ++ p)%list |}, None)
    end.

(** The writer once the entry of [fw] is complete: the next
    [CreateHeader], or [Close], ends it with what was written. *)
Definition finish (fw : fileWriter) : Writer :=
  {| sink := sink (zipw fw);
     dir := (dir (zipw fw)
             ++ [{| hdr := header fw; body := written fw |}])%list |}.

(** The entry a reader finds for an entry a writer has written: under
    its header, with the size the writer counted, its content readable
    in one piece. *)
Definition relist (e : Entry) : File :=
  {| Header :=
       {| Name := Name (hdr e); Method := Method (hdr e);
          UncompressedSize64 := Z.of_nat (List.length (body e));
          attrMode := attrMode (hdr e) |};
     Open := Ok {| io.chunks := [body e]; io.failure := None |} |}.

(** The listing a reader finds in an archive that a writer has written
    and closed. *)
Definition reopen (entries : list Entry) : list File := map relist entries.

End zip.

(** ** io/ioutil and code.cloudfoundry.org/ykk *)

Module ioutil.

(** What [ioutil.TempFile] creates: a name and the file behind it. *)
Record TempFile : Type := {
  Name : string;
  file : zip.Sink
}.

End ioutil.

Module ykk.

(** An archive file opened with [os.Open]: what [Stat] answers, and the
    listing [ykk.NewReader] finds for a given size, or its error when the
    central directory does not validate. *)
Record Archive : Type := {
  Stat : result os.FileInfo;
  NewReader : Z -> result (list zip.File)
}.

End ykk.

(** ** package v2action *)

Definition DefaultFolderPermissions : Z := os.octal 7 5 5.
Definition DefaultArchiveFilePermissions : Z := os.octal 7 4 4.

(** Modelled from the spec: the declaration of [ccv2.Resource], which
    [type Resource ccv2.Resource] copies, is not among the sources; the
    four fields are the descriptor of the data model (path, content hash,
    size, mode) under the names the code reads and writes. *)
Record Resource : Type := {
  Filename : string;
  Mode : Z;
  SHA1 : string;
  Size : Z
}.

(** [Resource{}] *)
Definition zeroResource : Resource :=
  {| Filename := EmptyString; Mode := 0; SHA1 := EmptyString; Size := 0 |}.

(** [findInResources] *)
Fixpoint findInResources (path : string) (filesToInclude : list Resource)
  : Resource :=
  match filesToInclude with
  | [] => zeroResource
  | resource :: rest =>
      if String.eqb (Filename resource) path then resource
      else findInResources path rest
  end.

(** [newArchiveReader] *)
Definition newArchiveReader (archive : ykk.Archive) : result (list zip.File) :=
  match ykk.Stat archive with
  | Err err => Err err
  | Ok info => ykk.NewReader archive (os.Size info)
  end.

(** [addFileToZipFromFileSystem]: the writer afterwards, and the error. *)
Definition addFileToZipFromFileSystem
  (srcPath : string) (srcFile : io.Reader) (fileInfo : os.FileInfo)
  (destPath : string) (sha1Sum : string) (mode : Z) (zipFile : zip.Writer)
  : zip.Writer * option error :=
  match zip.FileInfoHeader fileInfo with
  | (_, Some err) => (zipFile, Some (SysError err))
  | (header, None) =>
      (* An extra '/' indicates that this file is a directory *)
      let destPath :=
        if os.IsDir fileInfo && negb (strings.HasSuffix destPath "/")
        then (destPath ++ "/")%string else destPath in
      let header := zip.SetName header destPath in
      let header := zip.SetMethod header zip.Deflate in
      let header := zip.SetMode header mode in
      match zip.CreateHeader zipFile header with
      | Err err => (zipFile, Some (SysError err))
      | Ok destFileWriter =>
          if negb (os.IsDir fileInfo) then
            let sum := sha1.New in
            let multi := (sum, destFileWriter) in
            match io.Copy multi srcFile with
            | ((_, destFileWriter), Some err) =>
                (zip.finish destFileWriter, Some (SysError err))
            | ((sum, destFileWriter), None) =>
                let currentSum := fmt.Sprintf_x (sha1.Sum sum) in
                if negb (String.eqb sha1Sum currentSum) then
                  (zip.finish destFileWriter,
                   Some (FileChangedError srcPath))
                else (zip.finish destFileWriter, None)
            end
          else (zip.finish destFileWriter, None)
      end
  end.

(** The loop of [ZipArchiveResources] over [reader.File]. *)
Fixpoint zipArchiveFiles (files : list zip.File)
  (filesToInclude : list Resource) (writer : zip.Writer)
  : zip.Writer * option error :=
  match files with
  | [] => (writer, None)
  | archiveFile :: rest =>
      let name := zip.Name (zip.Header archiveFile) in
      let resource := findInResources name filesToInclude in
      match zip.Open archiveFile with
      | Err openErr => (writer, Some (SysError openErr))
      | Ok reader =>
          match addFileToZipFromFileSystem
                  name reader (zip.FileInfo archiveFile)
                  name (SHA1 resource) (Mode resource) writer with
          | (writer', Some err) => (writer', Some err)
          | (writer', None) => zipArchiveFiles rest filesToInclude writer'
          end
      end
  end.

(** What a packing call leaves behind: the archive as far as it was
    written (nothing when no temporary file could be made), and the
    location and error it returns. *)
Record Packed : Type := {
  archive : list zip.Entry;
  location : string;
  failed : option error
}.

(** [ZipArchiveResources]: [zipFile] is what [ioutil.TempFile] answers,
    [source] what [os.Open(sourceArchivePath)] answers. *)
Definition ZipArchiveResources (zipFile : result ioutil.TempFile)
  (source : result ykk.Archive) (filesToInclude : list Resource) : Packed :=
  match zipFile with
  | Err err =>
      {| archive := []; location := ""; failed := Some (SysError err) |}
  | Ok zipFile =>
      let writer := zip.NewWriter (ioutil.file zipFile) in
      match source with
      | Err err =>
          {| archive := []; location := "";
             failed := Some (SysError err) |}
      | Ok source =>
          match newArchiveReader source with
          | Err err =>
              {| archive := []; location := "";
                 failed := Some (SysError err) |}
          | Ok files =>
              match zipArchiveFiles files filesToInclude writer with
              | (writer', Some err) =>
                  {| archive := zip.dir writer'; location := "";
                     failed := Some err |}
              | (writer', None) =>
                  {| archive := zip.dir writer';
                     location := ioutil.Name zipFile; failed := None |}
              end
          end
      end
  end.

(** The loop of [GatherArchiveResources] over [reader.File]. *)
Fixpoint gatherArchiveFiles (Separator : ascii) (files : list zip.File)
  (resources : list Resource) : list Resource * option error :=
  match files with
  | [] => (resources, None)
  | archivedFile :: rest =>
      let filename :=
        filepath.ToSlash Separator (zip.Name (zip.Header archivedFile)) in
      if os.IsDir (zip.FileInfo archivedFile) then
        gatherArchiveFiles Separator rest
          (resources ++ [{| Filename := filename;
                            Mode := DefaultFolderPermissions;
                            SHA1 := ""; Size := 0 |}])%list
      else
        match zip.Open archivedFile with
        | Err err => ([], Some (SysError err))
        | Ok fileReader =>
            match io.Copy sha1.New fileReader with
            | (_, Some err) => ([], Some (SysError err))
            | (hash, None) =>
                gatherArchiveFiles Separator rest
                  (resources
                   ++ [{| Filename := filename;
                          Mode := DefaultArchiveFilePermissions;
                          SHA1 := fmt.Sprintf_x (sha1.Sum hash);
                          Size := os.Size (zip.FileInfo archivedFile) |}])%list
            end
        end
  end.

Section Host.

(** The host: its path separator ([os.PathSeparator]), the build's
    [fixMode] (declared per platform, outside these sources),
    [filepath.Join] on two elements, and [os.Open] on a full path. *)
Variable Separator : ascii.
Variable fixMode : Z -> Z.
Variable filepath_Join : string -> string -> string.
Variable os_Open : string -> result os.File.

(** [GatherArchiveResources]: [archive] is what [os.Open(archivePath)]
    answers. *)
Definition GatherArchiveResources (archive : result ykk.Archive)
  : list Resource * option error :=
  match archive with
  | Err err => ([], Some (SysError err))
  | Ok archive =>
      match newArchiveReader archive with
      | Err err => ([], Some (SysError err))
      | Ok files => gatherArchiveFiles Separator files []
      end
  end.

(** The callback of [GatherDirectoryResources], over the [resources] it
    appends to. *)
Definition gatherWalkFn : filepath.WalkFunc (list Resource) :=
  fun resources path entry info err =>
    match err with
    | Some err => (resources, Some (SysError err))
    | None =>
        match filepath.Rel Separator path with
        | (_, Some err) => (resources, Some (SysError err))
        | (relPath, None) =>
            if String.eqb relPath "." then (resources, None)
            else
              let filename := filepath.ToSlash Separator relPath in
              if os.IsDir info then
                ((resources ++ [{| Filename := filename;
                                   Mode := DefaultFolderPermissions;
                                   SHA1 := ""; Size := 0 |}])%list, None)
              else
                match filepath.Open entry with
                | Err err => (resources, Some (SysError err))
                | Ok file =>
                    match io.Copy sha1.New (os.Body file) with
                    | (_, Some err) => (resources, Some (SysError err))
                    | (sum, None) =>
                        ((resources
                          ++ [{| Filename := filename;
                                 Mode := fixMode (os.Mode info);
                                 SHA1 := fmt.Sprintf_x (sha1.Sum sum);
                                 Size := os.Size info |}])%list, None)
                    end
                end
        end
    end.

(** [GatherDirectoryResources]: [sourceDir] is the file tree found at
    that path. *)
Definition GatherDirectoryResources (sourceDir : filepath.node)
  : list Resource * option error :=
  filepath.Walk sourceDir gatherWalkFn [].

(** The loop of [ZipDirectoryResources] over [filesToInclude]. *)
Fixpoint zipDirectoryFiles (sourceDir : string)
  (filesToInclude : list Resource) (writer : zip.Writer)
  : zip.Writer * option error :=
  match filesToInclude with
  | [] => (writer, None)
  | resource :: rest =>
      let fullPath := filepath_Join sourceDir (Filename resource) in
      match os_Open fullPath with
      | Err err => (writer, Some (SysError err))
      | Ok srcFile =>
          match os.Stat srcFile with
          | Err err => (writer, Some (SysError err))
          | Ok fileInfo =>
              match addFileToZipFromFileSystem
                      fullPath (os.Body srcFile) fileInfo
                      (Filename resource) (SHA1 resource) (Mode resource)
                      writer with
              | (writer', Some err) => (writer', Some err)
              | (writer', None) => zipDirectoryFiles sourceDir rest writer'
              end
          end
      end
  end.

(** [ZipDirectoryResources]: [zipFile] is what [ioutil.TempFile]
    answers. *)
Definition ZipDirectoryResources (zipFile : result ioutil.TempFile)
  (sourceDir : string) (filesToInclude : list Resource) : Packed :=
  match zipFile with
  | Err err =>
      {| archive := []; location := ""; failed := Some (SysError err) |}
  | Ok zipFile =>
      let writer := zip.NewWriter (ioutil.file zipFile) in
      match zipDirectoryFiles sourceDir filesToInclude writer with
      | (writer', Some err) =>
          {| archive := zip.dir writer'; location := ""; failed := Some err |}
      | (writer', None) =>
          {| archive := zip.dir writer'; location := ioutil.Name zipFile;
             failed := None |}
      end
  end.

End Host.

(** ** Slices and [actorToCCResources] *)

(** A Go slice, as far as the code tells a nil slice from an empty one:
    [None] is the nil slice. *)
Definition slice (A : Type) : Type := option (list A).

(** The elements a [range] over the slice visits: none for nil. *)
Definition elements {A : Type} (s : slice A) : list A :=
  match s with
  | None => []
  | Some items => items
  end.

(** [make([]T, 0, n)]: empty, and not nil. *)
Definition make {A : Type} : slice A := Some [].

(** [append(s, x)] *)
Definition append {A : Type} (s : slice A) (x : A) : slice A :=
  Some (elements s ++ [x])%list.

Module ccv2.

(** Modelled from the spec: [ccv2.Resource] is declared outside these
    sources; [type Resource ccv2.Resource] gives it the fields of
    [Resource]. *)
Record Resource : Type := {
  Filename : string;
  Mode : Z;
  SHA1 : string;
  Size : Z
}.

End ccv2.

(** The conversion [ccv2.Resource(resource)]: field by field. *)
Definition toCCResource (resource : Resource) : ccv2.Resource :=
  {| ccv2.Filename := Filename resource; ccv2.Mode := Mode resource;
     ccv2.SHA1 := SHA1 resource; ccv2.Size := Size resource |}.

(** [actorToCCResources] *)
Definition actorToCCResources (resources : slice Resource)
  : slice ccv2.Resource :=
  fold_left
    (fun apiResources resource =>
       append apiResources (toCCResource resource))
    (elements resources)
    make. (* Explicitly done to prevent nils *)

(** ** The calls of [addFileToZipFromFileSystem] that the packers make *)

(** The arguments of one call. *)
Record call : Type := {
  srcPath : string;
  srcFile : io.Reader;
  fileInfo : os.FileInfo;
  destPath : string;
  sha1Sum : string;
  mode : Z
}.

Definition addCall (c : call) (zipFile : zip.Writer)
  : zip.Writer * option error :=
  addFileToZipFromFileSystem (srcPath c) (srcFile c) (fileInfo c)
    (destPath c) (sha1Sum c) (mode c) zipFile.

(** The call [ZipArchiveResources] makes for an entry of the source
    archive, or the error of opening the entry. *)
Definition archiveCall (filesToInclude : list Resource)
  (archiveFile : zip.File) : result call :=
  let name := zip.Name (zip.Header archiveFile) in
  match zip.Open archiveFile with
  | Err openErr => Err openErr
  | Ok reader =>
      Ok {| srcPath := name; srcFile := reader;
            fileInfo := zip.FileInfo archiveFile; destPath := name;
            sha1Sum := SHA1 (findInResources name filesToInclude);
            mode := Mode (findInResources name filesToInclude) |}
  end.

(** The call [ZipDirectoryResources] makes for a descriptor, or the
    error of opening or inspecting its file. *)
Definition directoryCall (filepath_Join : string -> string -> string)
  (os_Open : string -> result os.File) (sourceDir : string)
  (resource : Resource) : result call :=
  let fullPath := filepath_Join sourceDir (Filename resource) in
  match os_Open fullPath with
  | Err err => Err err
  | Ok srcFile =>
      match os.Stat srcFile with
      | Err err => Err err
      | Ok fileInfo =>
          Ok {| srcPath := fullPath; srcFile := os.Body srcFile;
                fileInfo := fileInfo; destPath := Filename resource;
                sha1Sum := SHA1 resource; mode := Mode resource |}
      end
  end.

(** Both loops: the calls in order, up to the first error. *)
Fixpoint addAll (calls : list (result call)) (writer : zip.Writer)
  : zip.Writer * option error :=
  match calls with
  | [] => (writer, None)
  | Err err :: _ => (writer, Some (SysError err))
  | Ok c :: rest =>
      match addCall c writer with
      | (writer', Some err) => (writer', Some err)
      | (writer', None) => addAll rest writer'
      end
  end.

(** The name of an entry made for [name]: a directory gets the slash it
    lacks. *)
Definition entryName (isDir : bool) (name : string) : string :=
  if isDir && negb (strings.HasSuffix name "/") then (name ++ "/")%string
  else name.

(** The header a call creates its entry with. *)
Definition headerOf (c : call) : zip.FileHeader :=
  {| zip.Name := entryName (os.IsDir (fileInfo c)) (destPath c);
     zip.Method := zip.Deflate;
     zip.UncompressedSize64 := os.Size (fileInfo c);
     zip.attrMode := mode c |}.

(** The digest of a content, as the code prints it. *)
Definition fingerprint (content : list byte) : string :=
  fmt.Sprintf_x (sha1.Sum content).

(** An entry as a call that returns no error leaves it: no content for a
    directory; for a file the whole content of the source, whose digest
    is the declared one. *)
Definition complete (c : call) (e : zip.Entry) : Prop :=
  zip.hdr e = headerOf c /\
  if os.IsDir (fileInfo c) then zip.body e = []
  else zip.body e = io.content (srcFile c)
       /\ io.failure (srcFile c) = None
       /\ sha1Sum c = fingerprint (zip.body e).

(** A sink that refuses nothing. *)
Definition accepting (f : zip.Sink) : Prop :=
  (forall entries fh, zip.refuseHeader f entries fh = None) /\
  (forall fh written p, zip.refuseWrite f fh written p = None).

(** The writer after a call has put its entry, with [content]. *)
Definition extended (w : zip.Writer) (c : call) (content : list byte)
  : zip.Writer :=
  {| zip.sink := zip.sink w;
     zip.dir := (zip.dir w
                 ++ [{| zip.hdr := headerOf c; zip.body := content |}])%list |}.

(** A call that reads its source without error, on a directory or on a
    file whose content has the declared digest. *)
Definition passes (c : call) : Prop :=
  if os.IsDir (fileInfo c) then True
  else io.failure (srcFile c) = None
       /\ sha1Sum c = fingerprint (io.content (srcFile c)).

(** The listing [ZipArchiveResources] iterates over: empty when the
    source does not open or does not validate. *)
Definition listing (source : result ykk.Archive) : list zip.File :=
  match source with
  | Err _ => []
  | Ok archive =>
      match newArchiveReader archive with
      | Err _ => []
      | Ok files => files
      end
  end.

(** What both packers do once the calls are fixed: the calls in order
    into a new writer over the temporary file. *)
Definition packCalls (zipFile : result ioutil.TempFile)
  (calls : list (result call)) : Packed :=
  match zipFile with
  | Err err =>
      {| archive := []; location := ""; failed := Some (SysError err) |}
  | Ok zipFile =>
      match addAll calls (zip.NewWriter (ioutil.file zipFile)) with
      | (writer', Some err) =>
          {| archive := zip.dir writer'; location := ""; failed := Some err |}
      | (writer', None) =>
          {| archive := zip.dir writer'; location := ioutil.Name zipFile;
             failed := None |}
      end
  end.

(** ** What the packers leave in the new archive *)

(** The entry [ZipDirectoryResources] writes for a descriptor: named and
    moded by the descriptor; a file carries the content of the file
    opened for it, whose digest is the declared one. *)
Definition packedFromDirectory (filepath_Join : string -> string -> string)
  (os_Open : string -> result os.File) (sourceDir : string)
  (resource : Resource) (e : zip.Entry) : Prop :=
  exists file info,
    os_Open (filepath_Join sourceDir (Filename resource)) = Ok file
    /\ os.Stat file = Ok info
    /\ zip.Name (zip.hdr e) = entryName (os.IsDir info) (Filename resource)
    /\ zip.attrMode (zip.hdr e) = Mode resource
    /\ if os.IsDir info then zip.body e = []
       else zip.body e = io.content (os.Body file)
            /\ fingerprint (zip.body e) = SHA1 resource.

(** The entry [ZipArchiveResources] writes for an entry of the source
    archive: named after it, moded by the descriptor looked up for its
    name; a file is named in the inclusion list and carries the content
    of the source entry, whose digest is the one declared there. *)
Definition packedFromArchive (filesToInclude : list Resource)
  (archiveFile : zip.File) (e : zip.Entry) : Prop :=
  let name := zip.Name (zip.Header archiveFile) in
  let resource := findInResources name filesToInclude in
  zip.Name (zip.hdr e) = entryName (os.IsDir (zip.FileInfo archiveFile)) name
  /\ zip.attrMode (zip.hdr e) = Mode resource
  /\ if os.IsDir (zip.FileInfo archiveFile) then zip.body e = []
     else In resource filesToInclude /\ Filename resource = name
          /\ exists reader,
              zip.Open archiveFile = Ok reader
              /\ zip.body e = io.content reader
              /\ fingerprint (zip.body e) = SHA1 resource.

(** The descriptor [GatherArchiveResources] makes for an entry of the
    listing: the default directory mode and no hash for a directory; the
    default file mode, the entry's size and the digest of the content it
    delivers for a file. *)
Definition scannedFromArchive (Separator : ascii) (f : zip.File)
  (r : Resource) : Prop :=
  Filename r = filepath.ToSlash Separator (zip.Name (zip.Header f))
  /\ if os.IsDir (zip.FileInfo f)
     then Mode r = os.octal 7 5 5 /\ SHA1 r = EmptyString /\ Size r = 0
     else Mode r = os.octal 7 4 4
          /\ Size r = zip.UncompressedSize64 (zip.Header f)
          /\ exists reader,
              zip.Open f = Ok reader
              /\ SHA1 r = fingerprint (io.content reader).

(** An entry that is a directory, or opens and reads to its end. *)
Definition archiveEntryReads (f : zip.File) : Prop :=
  os.IsDir (zip.FileInfo f) = true
  \/ exists reader, zip.Open f = Ok reader /\ io.failure reader = None.

(** An entry of the source archive that opens, and is a directory or a
    file read without error whose digest is the one looked up for it. *)
Definition archiveEntryPasses (filesToInclude : list Resource)
  (archiveFile : zip.File) : Prop :=
  exists c, archiveCall filesToInclude archiveFile = Ok c /\ passes c.

(** A descriptor whose file opens and answers [Stat], and is a directory
    or a file read without error whose digest is the declared one. *)
Definition descriptorPasses (filepath_Join : string -> string -> string)
  (os_Open : string -> result os.File) (sourceDir : string)
  (resource : Resource) : Prop :=
  exists c, directoryCall filepath_Join os_Open sourceDir resource = Ok c
            /\ passes c.

(** ** File trees: entries, names, readability *)

Module tree.

(** The entries below [n], in the order [Walk] meets them, each with the
    names from [n] down to it: the entries of a directory that lists its
    names, and what lies below each. *)
Fixpoint below (n : filepath.node) : list (list string * filepath.node) :=
  match n with
  | filepath.Node (Ok info) _ (Ok names) =>
      if os.IsDir info then
        flat_map
          (fun nc =>
             match nc with
             | (name, child) =>
                 ([name], child)
                 :: map (fun pc => (name :: fst pc, snd pc)) (below child)
             end)
          names
      else []
  | _ => []
  end.

(** What a directory contributes to [tree.below] for one of its names. *)
Definition block (nc : string * filepath.node)
  : list (list string * filepath.node) :=
  ([fst nc], snd nc)
  :: map (fun pc => (fst nc :: fst pc, snd pc)) (below (snd nc)).

Fixpoint contains (c : ascii) (s : string) : bool :=
  match s with
  | EmptyString => false
  | String c' rest => Ascii.eqb c' c || contains c rest
  end.

(** A name a directory can hold: not empty, not ["."], and free of the
    host's separator and of the slash. *)
Definition validName (Separator : ascii) (name : string) : bool :=
  negb (String.eqb name "") && negb (String.eqb name ".")
  && negb (contains Separator name) && negb (contains "/" name).

Fixpoint distinct (names : list string) : bool :=
  match names with
  | [] => true
  | name :: rest => negb (existsb (String.eqb name) rest) && distinct rest
  end.

(** Every directory of the tree holds valid names, each once. *)
Fixpoint wellFormed (Separator : ascii) (n : filepath.node) : bool :=
  match n with
  | filepath.Node _ _ (Ok names) =>
      forallb (validName Separator) (map fst names)
      && distinct (map fst names)
      && forallb (fun nc => match nc with
                            | (_, child) => wellFormed Separator child
                            end) names
  | filepath.Node _ _ (Err _) => true
  end.

(** Nothing in the tree fails: [Lstat] answers everywhere, every
    directory lists its names, every other entry opens and reads to its
    end. *)
Fixpoint readable (n : filepath.node) : bool :=
  match n with
  | filepath.Node (Ok info) opened names =>
      if os.IsDir info then
        match names with
        | Ok names =>
            forallb (fun nc => match nc with
                               | (_, child) => readable child
                               end) names
        | Err _ => false
        end
      else
        match opened with
        | Ok file =>
            match io.failure (os.Body file) with
            | None => true
            | Some _ => false
            end
        | Err _ => false
        end
  | filepath.Node (Err _) _ _ => false
  end.

(** The relative location of an entry, with forward slashes. *)
Definition slashed (path : list string) : string := strings.Join path "/".

(** A path of valid names. *)
Definition named (Separator : ascii) (path : list string) : Prop :=
  Forall (fun name => validName Separator name = true) path.

(** Induction over a tree and the entries of its directories. *)
Section Induction.

Variable P : filepath.node -> Prop.

Hypothesis step :
  forall lstat opened names,
    match names with
    | Ok names => Forall (fun nc => P (snd nc)) names
    | Err _ => True
    end ->
    P (filepath.Node lstat opened names).

Fixpoint node_ind (n : filepath.node) : P n :=
  match n with
  | filepath.Node lstat opened names =>
      step lstat opened names
        (match names
               return match names with
                      | Ok names => Forall (fun nc => P (snd nc)) names
                      | Err _ => True
                      end
         with
         | Ok names =>
             (fix each (l : list (string * filepath.node))
                : Forall (fun nc => P (snd nc)) l :=
                match l with
                | [] => Forall_nil _
                | (name, child) :: rest =>
                    Forall_cons (name, child) (node_ind child) (each rest)
                end) names
         | Err _ => I
         end)
  end.

End Induction.

End tree.

(** The descriptor [GatherDirectoryResources] makes for the entry at
    [path] when nothing fails. *)
Definition described (Separator : ascii) (fixMode : Z -> Z)
  (path : list string) (n : filepath.node) : Resource :=
  let filename :=
    filepath.ToSlash Separator
      (strings.Join path (String Separator EmptyString)) in
  match filepath.Lstat n, filepath.Open n with
  | Ok info, Ok file =>
      if os.IsDir info then
        {| Filename := filename; Mode := DefaultFolderPermissions;
           SHA1 := ""; Size := 0 |}
      else
        {| Filename := filename; Mode := fixMode (os.Mode info);
           SHA1 := fingerprint (io.content (os.Body file));
           Size := os.Size info |}
  | _, _ =>
      {| Filename := filename; Mode := DefaultFolderPermissions;
         SHA1 := ""; Size := 0 |}
  end.

(** The descriptors of [entries], each located below [path]. *)
Definition scanned (Separator : ascii) (fixMode : Z -> Z)
  (path : list string) (entries : list (list string * filepath.node))
  : list Resource :=
  map (fun e => described Separator fixMode (path ++ fst e)%list (snd e))
    entries.

(** The descriptor of the entry at [path] itself: none for the root. *)
Definition own (Separator : ascii) (fixMode : Z -> Z) (path : list string)
  (n : filepath.node) : list Resource :=
  match path with
  | [] => []
  | _ => [described Separator fixMode path n]
  end.

(** What a walk from the entry at [path] leaves of the descriptors [st]
    it started with: the descriptors of the first entries at and below
    [path] appended, all of them when it returns no error; the error is
    one of the system. *)
Definition walked (Separator : ascii) (fixMode : Z -> Z)
  (path : list string) (n : filepath.node)
  (st : list Resource) (out : list Resource * option error) : Prop :=
  exists pre rest,
    fst out = (st ++ pre)%list
    /\ (own Separator fixMode path n
        ++ scanned Separator fixMode path (tree.below n))%list
       = (pre ++ rest)%list
    /\ (snd out = None -> rest = [])
    /\ (forall e, snd out = Some e -> exists err, e = SysError err).

(** ** Scanning what was packed *)

(** The new archive, closed and opened again: a file of the temporary
    directory whose listing is what the packer wrote. *)
Definition reopened (entries : list zip.Entry) : result ykk.Archive :=
  Ok {| ykk.Stat :=
          Ok {| os.Size := Z.of_nat (List.length entries);
                os.Mode := os.octal 6 0 0 |};
        ykk.NewReader := fun _ => Ok (zip.reopen entries) |}.

(** The host holds the tree [root] at [sourceDir], as it was scanned, and
    the tree is made of directories and regular files: for each entry
    below the root, [os.Open] on its path gives the file the scan read,
    whose [Stat] is what [Lstat] answered, and the size of a file is the
    length of its content. *)
Definition holds (filepath_Join : string -> string -> string)
  (os_Open : string -> result os.File) (sourceDir : string)
  (root : filepath.node) : Prop :=
  Forall
    (fun e =>
       exists info file,
         filepath.Lstat (snd e) = Ok info
         /\ filepath.Open (snd e) = Ok file
         /\ os_Open (filepath_Join sourceDir (tree.slashed (fst e))) = Ok file
         /\ os.Stat file = Ok info
         /\ (os.IsDir info = false ->
             os.Size info
             = Z.of_nat (List.length (io.content (os.Body file)))))
    (tree.below root).

(** What links an entry of the scanned tree to the call the packer makes
    for its descriptor: the file the scan read is the file packed. *)
Definition packedAs (Separator : ascii) (fixMode : Z -> Z)
  (filepath_Join : string -> string -> string) (sourceDir : string)
  (e : list string * filepath.node) (c : call) : Prop :=
  exists info file,
    filepath.Lstat (snd e) = Ok info
    /\ filepath.Open (snd e) = Ok file
    /\ tree.named Separator (fst e) /\ fst e <> []
    /\ (os.IsDir info = false ->
        io.failure (os.Body file) = None
        /\ os.Size info = Z.of_nat (List.length (io.content (os.Body file))))
    /\ c = {| srcPath := filepath_Join sourceDir (tree.slashed (fst e));
              srcFile := os.Body file; fileInfo := info;
              destPath := tree.slashed (fst e);
              sha1Sum :=
                SHA1 (described Separator fixMode (fst e) (snd e));
              mode := Mode (described Separator fixMode (fst e) (snd e)) |}.

(** A descriptor of the archive scan against the descriptor of the
    directory scan it comes from: the same hash and size, and the same
    name, but for the slash a directory's name has gained. *)
Definition rescannedAs (r r' : Resource) : Prop :=
  SHA1 r' = SHA1 r /\ Size r' = Size r
  /\ (Filename r' = Filename r
      \/ (SHA1 r = EmptyString
          /\ Filename r' = (Filename r ++ "/")%string)).

(** An entry of an archive that a scan followed by a packing leaves as
    it is: its name is written with forward slashes and, for a directory,
    ends with one; it opens; and a file reads to its end and has the size
    its header declares. *)
Definition archiveEntryKept (Separator : ascii) (f : zip.File) : Prop :=
  filepath.ToSlash Separator (zip.Name (zip.Header f))
  = zip.Name (zip.Header f)
  /\ (os.IsDir (zip.FileInfo f) = true ->
      strings.HasSuffix (zip.Name (zip.Header f)) "/" = true)
  /\ exists reader,
      zip.Open f = Ok reader
      /\ (os.IsDir (zip.FileInfo f) = false ->
          io.failure reader = None
          /\ zip.UncompressedSize64 (zip.Header f)
             = Z.of_nat (List.length (io.content reader))).

(** ** A sample host *)

Module sample.

Definition lenient : zip.Sink :=
  {| zip.refuseHeader := fun _ _ => None;
     zip.refuseWrite := fun _ _ _ => None |}.

Definition zipFile : ioutil.TempFile :=
  {| ioutil.Name := "/tmp/cf-cli-042"; ioutil.file := lenient |}.

Definition reading (text : string) : io.Reader :=
  {| io.chunks := [list_byte_of_string text]; io.failure := None |}.

Definition sized (text : string) : Z := Z.of_nat (String.length text).

(** A regular file, opened. *)
Definition regular (perm : Z) (text : string) : os.File :=
  {| os.Stat := Ok {| os.Size := sized text; os.Mode := perm |};
     os.Body := reading text |}.

(** A directory, opened: reading it as a file fails. *)
Definition opendir (perm : Z) : os.File :=
  {| os.Stat := Ok {| os.Size := 4096; os.Mode := Z.lor os.ModeDir perm |};
     os.Body := {| io.chunks := [];
                   io.failure := Some (Errno "is a directory") |} |}.

Definition file (perm : Z) (text : string) : filepath.node :=
  filepath.Node (Ok {| os.Size := sized text; os.Mode := perm |})
    (Ok (regular perm text)) (Err (Errno "not a directory")).

Definition folder (perm : Z) (names : list (string * filepath.node))
  : filepath.node :=
  filepath.Node (Ok {| os.Size := 4096; os.Mode := Z.lor os.ModeDir perm |})
    (Ok (opendir perm)) (Ok names).

(** An entry whose file cannot be opened. *)
Definition locked (perm : Z) : filepath.node :=
  filepath.Node (Ok {| os.Size := 7; os.Mode := perm |})
    (Err (Errno "permission denied")) (Err (Errno "not a directory")).

(** The directory [app] with an empty directory [logs] and a file
    [main]. *)
Definition app : filepath.node :=
  folder (os.octal 7 5 5)
    [("logs"%string, folder (os.octal 7 5 5) []);
     ("main"%string, file (os.octal 6 4 4) "hello")].

Definition Join (dir name : string) : string := (dir ++ "/" ++ name)%string.

(** [os.Open] on the host that holds [app]. *)
Definition Open (path : string) : result os.File :=
  if String.eqb path "app/logs" then Ok (opendir (os.octal 7 5 5))
  else if String.eqb path "app/main" then Ok (regular (os.octal 6 4 4) "hello")
  else Err (Errno "no such file or directory").

(** Entries of an archive opened for reading. *)
Definition archived (name : string) (mode : Z) (text : string) : zip.File :=
  {| zip.Header := {| zip.Name := name; zip.Method := zip.Deflate;
                      zip.UncompressedSize64 := sized text;
                      zip.attrMode := mode |};
     zip.Open := Ok (reading text) |}.

Definition opened (files : list zip.File) : result ykk.Archive :=
  Ok {| ykk.Stat := Ok {| os.Size := 1024; os.Mode := os.octal 6 4 4 |};
        ykk.NewReader := fun _ => Ok files |}.

Definition main : Resource :=
  {| Filename := "main"; Mode := os.octal 6 4 4;
     SHA1 := "aaf4c61ddcc5e8a2dabede0f3b482cd9aea9434d"; Size := 5 |}.

Definition logs : Resource :=
  {| Filename := "logs"; Mode := os.octal 7 5 5; SHA1 := ""; Size := 0 |}.

(** A directory whose second entry cannot be opened. *)
Definition guarded : filepath.node :=
  folder (os.octal 7 5 5)
    [("a"%string, file (os.octal 6 4 4) "hello");
     ("b"%string, locked (os.octal 6 0 0));
     ("c"%string, file (os.octal 6 4 4) "")].

(** An archive with a directory [d/] of mode 0700 and the file [main]. *)
Definition d : zip.File :=
  archived "d/" (Z.lor os.ModeDir (os.octal 7 0 0)) "".

Definition source : result ykk.Archive :=
  opened [d; archived "main" (os.octal 6 4 4) "hello"].

(** The directory [d/] declared with mode 0755. *)
Definition declared_d : Resource :=
  {| Filename := "d/"; Mode := os.octal 7 5 5; SHA1 := ""; Size := 0 |}.

(** [main] declared with the digest of another content. *)
Definition stale : Resource :=
  {| Filename := "main"; Mode := os.octal 6 4 4;
     SHA1 := "da39a3ee5e6b4b0d3255bfef95601890afd80709"; Size := 0 |}.

(** [logs] declared with a digest, which a directory has not. *)
Definition hashed_logs : Resource :=
  {| Filename := "logs"; Mode := os.octal 7 5 5;
     SHA1 := "0000000000000000000000000000000000000000"; Size := 0 |}.

(** A symbolic link to a regular file: [Lstat] describes the link, whose
    size is the length of the path it holds; [os.Open] follows it. *)
Definition symlink (target : string) (perm : Z) (text : string)
  : filepath.node :=
  filepath.Node
    (Ok {| os.Size := sized target;
           os.Mode := Z.lor (2 ^ 27) (os.octal 7 7 7) |})
    (Ok (regular perm text)) (Err (Errno "not a directory")).

(** The directory [app] holding a link [current] to a file of five bytes
    at the path [v1], and [os.Open] on that host. *)
Definition linked : filepath.node :=
  folder (os.octal 7 5 5)
    [("current"%string, symlink "v1" (os.octal 6 4 4) "hello")].

Definition OpenLinked (path : string) : result os.File :=
  if String.eqb path "app/current"
  then Ok (regular (os.octal 6 4 4) "hello")
  else Err (Errno "no such file or directory").

End sample.

(** * Properties *)

(** ** The model at work *)

Example sha1_of_abc :
  fingerprint (list_byte_of_string "abc")
  = "a9993e364706816aba3e25717850c26c9cd0d89d"%string.
Proof. vm_compute. reflexivity. Qed.

Example sha1_of_nothing :
  fingerprint [] = "da39a3ee5e6b4b0d3255bfef95601890afd80709"%string.
Proof. vm_compute. reflexivity. Qed.

Example FileChangedError_message :
  FileChangedError_Error "app/main" = "SHA1 mismatch for:app/main"%string.
Proof. reflexivity. Qed.

Example scan_of_app :
  GatherDirectoryResources "/" (fun m => m) sample.app
  = ([sample.logs; sample.main], None).
Proof. vm_compute. reflexivity. Qed.

Example scan_of_app_on_windows :
  GatherDirectoryResources "\" (fun m => Z.lor m (os.octal 7 0 0))
    (sample.folder (os.octal 7 5 5)
       [("logs"%string,
         sample.folder (os.octal 7 5 5)
           [("today"%string, sample.file (os.octal 6 4 4) "")])])
  = ([sample.logs;
      {| Filename := "logs/today"; Mode := os.octal 7 4 4;
         SHA1 := "da39a3ee5e6b4b0d3255bfef95601890afd80709"; Size := 0 |}],
     None).
Proof. vm_compute. reflexivity. Qed.

Example pack_of_app :
  map (fun e => (zip.Name (zip.hdr e), zip.attrMode (zip.hdr e)))
    (archive (ZipDirectoryResources sample.Join sample.Open
                (Ok sample.zipFile) "app" [sample.logs; sample.main]))
  = [("logs/"%string, os.octal 7 5 5); ("main"%string, os.octal 6 4 4)].
Proof. vm_compute. reflexivity. Qed.

Example pack_of_missing_file :
  failed (ZipDirectoryResources sample.Join sample.Open (Ok sample.zipFile)
            "app"
            [{| Filename := "config.yml"; Mode := os.octal 6 4 4;
                SHA1 := "da39a3ee5e6b4b0d3255bfef95601890afd80709";
                Size := 0 |}])
  = Some (SysError (Errno "no such file or directory")).
Proof. vm_compute. reflexivity. Qed.

Example repack_of_unlisted_file :
  failed (ZipArchiveResources (Ok sample.zipFile) sample.source [])
  = Some (FileChangedError "main").
Proof. vm_compute. reflexivity. Qed.

(** ** Hashes and copies *)

Lemma be_bytes_length (w : nat) (x : Z) : List.length (sha1.be_bytes w x) = w.
Proof. induction w as [|w IH]; simpl; [reflexivity | now rewrite IH]. Qed.

Lemma digest_length (msg : list byte) : List.length (sha1.digest msg) = 20%nat.
Proof.
  unfold sha1.digest.
  destruct (sha1.blocks _ sha1.init (sha1.pad msg)) as [[[[h0 h1] h2] h3] h4].
  rewrite !length_app, !be_bytes_length. reflexivity.
Qed.

Lemma Sprintf_x_length (bs : list byte) :
  String.length (fmt.Sprintf_x bs) = (2 * List.length bs)%nat.
Proof. induction bs as [|b bs IH]; simpl; [reflexivity | rewrite IH; lia]. Qed.

Lemma sha1_hex_length (h : sha1.Hash) :
  String.length (fmt.Sprintf_x (sha1.Sum h)) = 40%nat.
Proof. unfold sha1.Sum. now rewrite Sprintf_x_length, digest_length. Qed.

Lemma sha1_hex_nonempty (h : sha1.Hash) :
  fmt.Sprintf_x (sha1.Sum h) <> EmptyString.
Proof.
  intros E. pose proof (sha1_hex_length h) as L. rewrite E in L. discriminate.
Qed.

Lemma copy_chunks_hash (cs : list (list byte)) (h : sha1.Hash) :
  io.copy_chunks h cs = ((h ++ List.concat cs)%list, None).
Proof.
  revert h. induction cs as [|c cs IH]; intros h; simpl.
  - now rewrite app_nil_r.
  - rewrite IH. unfold sha1.Write. now rewrite <- app_assoc.
Qed.

Lemma Copy_hash (src : io.Reader) :
  io.Copy sha1.New src = (io.content src, io.failure src).
Proof.
  unfold io.Copy. rewrite copy_chunks_hash. reflexivity.
Qed.

Lemma Write_multi (sum : sha1.Hash) (fw : zip.fileWriter) (c : list byte) :
  io.Write (sum, fw) c
  = match zip.refuseWrite (zip.sink (zip.zipw fw)) (zip.header fw)
            (zip.written fw) c with
    | Some err => ((sha1.Write sum c, fw), Some err)
    | None =>
        ((sha1.Write sum c,
          {| zip.zipw := zip.zipw fw; zip.header := zip.header fw;
             zip.written := (zip.written fw ++ c)%list |}), None)
    end.
Proof.
  cbv [io.Write io.MultiWriter io.HashWriter zip.fileWriter_Writer fst snd].
  now destruct (zip.refuseWrite _ _ _ _).
Qed.

Lemma copy_chunks_multi (cs : list (list byte)) :
  forall (sum : sha1.Hash) (fw : zip.fileWriter) sum' fw' e,
    io.copy_chunks (sum, fw) cs = ((sum', fw'), e) ->
    zip.zipw fw' = zip.zipw fw /\ zip.header fw' = zip.header fw /\
    exists p, zip.written fw' = (zip.written fw ++ p)%list /\
              (e = None -> p = List.concat cs
                           /\ sum' = (sum ++ List.concat cs)%list).
Proof.
  induction cs as [|c cs IH]; intros sum fw sum' fw' e; simpl.
  - intros [= <- <- <-]. repeat split. exists []. now rewrite !app_nil_r.
  - rewrite Write_multi. destruct (zip.refuseWrite _ _ _ _) as [err|] eqn:R.
    + intros [= <- <- <-]. repeat split.
      exists []. rewrite app_nil_r. split; [reflexivity | discriminate].
    + intros H. apply IH in H. simpl in H.
      destruct H as (Hz & Hh & p & Hw & Hok).
      repeat split; try assumption.
      exists (c ++ p)%list. split.
      * now rewrite Hw, <- app_assoc.
      * intros He. destruct (Hok He) as [-> ->].
        unfold sha1.Write. now rewrite <- app_assoc.
Qed.

Lemma addCall_cases (c : call) (w : zip.Writer) :
  match zip.refuseHeader (zip.sink w) (zip.dir w) (headerOf c) with
  | Some err => addCall c w = (w, Some (SysError err))
  | None =>
      exists content,
        if os.IsDir (fileInfo c)
        then content = [] /\ addCall c w = (extended w c content, None)
        else
          (addCall c w = (extended w c content, None)
           /\ content = io.content (srcFile c)
           /\ io.failure (srcFile c) = None
           /\ sha1Sum c = fingerprint content)
          \/ (addCall c w
              = (extended w c content, Some (FileChangedError (srcPath c)))
              /\ content = io.content (srcFile c)
              /\ io.failure (srcFile c) = None
              /\ sha1Sum c <> fingerprint content)
          \/ (exists err,
                 addCall c w = (extended w c content, Some (SysError err)))
  end.
Proof.
  unfold addCall, addFileToZipFromFileSystem, zip.FileInfoHeader,
    zip.CreateHeader, zip.SetMode, zip.SetMethod, zip.SetName.
  cbn [zip.Name zip.Method zip.UncompressedSize64 zip.attrMode].
  fold (entryName (os.IsDir (fileInfo c)) (destPath c)). fold (headerOf c).
  destruct (zip.refuseHeader _ _ _) as [err|]; [reflexivity|].
  destruct (os.IsDir (fileInfo c)) eqn:D; cbn [negb].
  - exists []. split; reflexivity.
  - unfold io.Copy.
    destruct (io.copy_chunks _ _) as [[sum' fw'] e] eqn:C.
    apply copy_chunks_multi in C. cbn in C.
    destruct C as (Hz & Hh & p & Hw & Hok).
    assert (F : zip.finish fw' = extended w c p).
    { unfold zip.finish, extended. now rewrite Hz, Hh, Hw. }
    exists p. destruct e as [err|].
    + right; right. exists err. now rewrite F.
    + destruct (Hok eq_refl) as [Hp ->]. cbn [app].
      destruct (io.failure (srcFile c)) as [err|] eqn:Fl.
      * right; right. exists err. now rewrite F.
      * rewrite F. unfold fingerprint. rewrite Hp.
        destruct (String.eqb_spec (sha1Sum c)
                    (fmt.Sprintf_x
                       (sha1.Sum (List.concat (io.chunks (srcFile c))))))
          as [E|N]; cbn [negb].
        -- left. repeat split; assumption.
        -- right; left. repeat split; assumption.
Qed.

Lemma extended_sink w c content : zip.sink (extended w c content) = zip.sink w.
Proof. reflexivity. Qed.

Lemma zipArchiveFiles_addAll (files : list zip.File)
  (filesToInclude : list Resource) :
  forall writer,
    zipArchiveFiles files filesToInclude writer
    = addAll (map (archiveCall filesToInclude) files) writer.
Proof.
  induction files as [|f files IH]; intros writer; [reflexivity|].
  cbn [zipArchiveFiles map addAll]. unfold archiveCall at 1.
  destruct (zip.Open f) as [reader|err]; [|reflexivity].
  unfold addCall. cbn [srcPath srcFile fileInfo destPath sha1Sum mode].
  destruct (addFileToZipFromFileSystem _ _ _ _ _ _ _) as [w' [e|]];
    [reflexivity | apply IH].
Qed.

Lemma zipDirectoryFiles_addAll (filepath_Join : string -> string -> string)
  (os_Open : string -> result os.File) (sourceDir : string)
  (filesToInclude : list Resource) :
  forall writer,
    zipDirectoryFiles filepath_Join os_Open sourceDir filesToInclude writer
    = addAll (map (directoryCall filepath_Join os_Open sourceDir)
                filesToInclude) writer.
Proof.
  induction filesToInclude as [|r rest IH]; intros writer; [reflexivity|].
  cbn [zipDirectoryFiles map addAll]. unfold directoryCall at 1.
  destruct (os_Open _) as [f|err]; [|reflexivity].
  destruct (os.Stat f) as [info|err]; [|reflexivity].
  unfold addCall. cbn [srcPath srcFile fileInfo destPath sha1Sum mode].
  destruct (addFileToZipFromFileSystem _ _ _ _ _ _ _) as [w' [e|]];
    [reflexivity | apply IH].
Qed.

(** What one call does, read off [addCall_cases]. *)
Lemma addCall_ok (c : call) (w w' : zip.Writer) :
  addCall c w = (w', None) ->
  exists ent, w' = {| zip.sink := zip.sink w;
                      zip.dir := (zip.dir w ++ [ent])%list |}
              /\ complete c ent.
Proof.
  intros H. pose proof (addCall_cases c w) as Cs.
  destruct (zip.refuseHeader _ _ _); [congruence|].
  destruct Cs as [content Cs]. unfold complete.
  exists {| zip.hdr := headerOf c; zip.body := content |}.
  revert Cs. destruct (os.IsDir (fileInfo c)); intros Cs; cbn.
  - destruct Cs as [-> E]. rewrite E in H. injection H as <-.
    split; [reflexivity | split; reflexivity].
  - destruct Cs as [(E & B & F & S)|[(E & _)|(err & E)]];
      rewrite E in H; try discriminate.
    injection H as <-. subst content. repeat split; assumption.
Qed.

Lemma addCall_changed (c : call) (w w' : zip.Writer) (n : string) :
  addCall c w = (w', Some (FileChangedError n)) ->
  n = srcPath c /\ os.IsDir (fileInfo c) = false /\
  io.failure (srcFile c) = None /\
  sha1Sum c <> fingerprint (io.content (srcFile c)) /\
  w' = extended w c (io.content (srcFile c)).
Proof.
  intros H. pose proof (addCall_cases c w) as Cs.
  destruct (zip.refuseHeader _ _ _); [congruence|].
  destruct Cs as [content Cs].
  revert Cs. destruct (os.IsDir (fileInfo c)); intros Cs.
  - destruct Cs as [_ E]. congruence.
  - destruct Cs as [(E & _)|[(E & B & F & S)|(err & E)]];
      rewrite E in H; try discriminate.
    injection H as <- <-. subst content. repeat split; assumption.
Qed.

Lemma addCall_dir (c : call) (w w' : zip.Writer) (e : option error) :
  addCall c w = (w', e) ->
  zip.sink w' = zip.sink w /\
  (zip.dir w' = zip.dir w
   \/ exists content,
       zip.dir w' = (zip.dir w ++ [{| zip.hdr := headerOf c;
                                      zip.body := content |}])%list).
Proof.
  intros H. pose proof (addCall_cases c w) as Cs.
  destruct (zip.refuseHeader _ _ _).
  - rewrite Cs in H. injection H as <- <-. split; [reflexivity | now left].
  - destruct Cs as [content Cs].
    assert (w' = extended w c content) as ->.
    { revert Cs. destruct (os.IsDir (fileInfo c)); intros Cs.
      - destruct Cs as [_ E]. congruence.
      - destruct Cs as [(E & _)|[(E & _)|(err & E)]]; congruence. }
    split; [reflexivity | right; now exists content].
Qed.

Lemma copy_chunks_accepting (cs : list (list byte)) :
  forall (sum : sha1.Hash) (fw : zip.fileWriter),
    accepting (zip.sink (zip.zipw fw)) ->
    exists fw', io.copy_chunks (sum, fw) cs
                = (((sum ++ List.concat cs)%list, fw'), None)
                /\ zip.zipw fw' = zip.zipw fw.
Proof.
  induction cs as [|c cs IH]; intros sum fw A; cbn [io.copy_chunks].
  - exists fw. now rewrite app_nil_r.
  - rewrite Write_multi. rewrite (proj2 A).
    destruct (IH (sha1.Write sum c)
                {| zip.zipw := zip.zipw fw; zip.header := zip.header fw;
                   zip.written := (zip.written fw ++ c)%list |} A)
      as (fw' & E & Z).
    exists fw'. rewrite E. unfold sha1.Write. cbn [List.concat].
    now rewrite <- app_assoc.
Qed.

Lemma addCall_accepting (c : call) (w : zip.Writer) :
  accepting (zip.sink w) ->
  os.IsDir (fileInfo c) = false ->
  io.failure (srcFile c) = None ->
  addCall c w
  = (extended w c (io.content (srcFile c)),
     if String.eqb (sha1Sum c) (fingerprint (io.content (srcFile c)))
     then None else Some (FileChangedError (srcPath c))).
Proof.
  intros A D F. pose proof (addCall_cases c w) as Cs.
  rewrite (proj1 A), D in Cs. destruct Cs as [content Cs].
  destruct Cs as [(E & B & _ & S)|[(E & B & _ & S)|(err & E)]].
  - subst content. rewrite E, <- S, String.eqb_refl. reflexivity.
  - subst content. rewrite E.
    destruct (String.eqb_spec (sha1Sum c)
                (fingerprint (io.content (srcFile c)))); congruence.
  - exfalso. revert E.
    unfold addCall, addFileToZipFromFileSystem, zip.FileInfoHeader,
      zip.CreateHeader.
    rewrite (proj1 A), D. cbn [negb]. unfold io.Copy.
    match goal with
    | |- context [io.copy_chunks (sha1.New, ?fw) ?cs] =>
        destruct (copy_chunks_accepting cs sha1.New fw A) as (fw' & E & _);
        rewrite E
    end.
    rewrite F.
    destruct (negb (sha1Sum c =? _)%string); intros X; inversion X.
Qed.

(** ** The loops *)

Lemma addAll_sink (calls : list (result call)) :
  forall w w' e, addAll calls w = (w', e) -> zip.sink w' = zip.sink w.
Proof.
  induction calls as [|[c|err] calls IH]; intros w w' e; cbn [addAll].
  - now intros [= <- _].
  - destruct (addCall c w) as [w1 [e1|]] eqn:A.
    + intros [= <- _]. now apply addCall_dir in A.
    + intros H. apply IH in H. apply addCall_dir in A. now rewrite H.
  - now intros [= <- _].
Qed.

(** Success: every call was made and left a complete entry. *)
Lemma addAll_success (calls : list (result call)) :
  forall w w',
    addAll calls w = (w', None) ->
    exists cs ents,
      calls = map Ok cs /\ zip.dir w' = (zip.dir w ++ ents)%list
      /\ Forall2 complete cs ents.
Proof.
  induction calls as [|[c|err] calls IH]; intros w w'; cbn [addAll].
  - intros [= <-]. exists [], [].
    repeat split; [now rewrite app_nil_r | constructor].
  - destruct (addCall c w) as [w1 [e1|]] eqn:A; [discriminate|].
    intros H. apply IH in H. destruct H as (cs & ents & -> & Hd & Hc).
    apply addCall_ok in A. destruct A as (ent & -> & Hent).
    exists (c :: cs), (ent :: ents). cbn in Hd. rewrite <- app_assoc in Hd.
    repeat split; [assumption | now constructor].
  - discriminate.
Qed.

(** Whatever the outcome, the entries written are those of the first
    calls, each under its header; without an error no call is left. *)
Lemma addAll_headers (calls : list (result call)) :
  forall w w' e,
    addAll calls w = (w', e) ->
    exists cs rest ents,
      calls = (map Ok cs ++ rest)%list
      /\ zip.dir w' = (zip.dir w ++ ents)%list
      /\ Forall2 (fun c ent => zip.hdr ent = headerOf c) cs ents
      /\ (e = None -> rest = []).
Proof.
  induction calls as [|[c|err] calls IH]; intros w w' e; cbn [addAll].
  - intros [= <- _]. exists [], [], [].
    repeat split; [now rewrite app_nil_r | constructor].
  - destruct (addCall c w) as [w1 [e1|]] eqn:A.
    + intros [= <- <-]. apply addCall_dir in A. destruct A as [_ [A|[b A]]].
      * exists [], (Ok c :: calls), [].
        repeat split;
          [now rewrite app_nil_r | constructor | discriminate].
      * exists [c], calls, [{| zip.hdr := headerOf c; zip.body := b |}].
        repeat split;
          [assumption | now repeat constructor | discriminate].
    + intros H. apply IH in H.
      destruct H as (cs & rest & ents & -> & Hd & Hh & Hr).
      apply addCall_ok in A. destruct A as (ent & -> & Hent & _).
      exists (c :: cs), rest, (ent :: ents). cbn in Hd.
      rewrite <- app_assoc in Hd.
      repeat split; [assumption | now constructor | assumption].
  - intros [= <- <-]. exists [], (Err err :: calls), [].
    repeat split; [now rewrite app_nil_r | constructor | discriminate].
Qed.

(** A [FileChangedError] names the source of a call on a file, all of
    whose content was written and whose digest is not the declared one;
    the calls before it left complete entries. *)
Lemma addAll_changed (calls : list (result call)) :
  forall w w' n,
    addAll calls w = (w', Some (FileChangedError n)) ->
    exists cs c rest ents,
      calls = (map Ok cs ++ Ok c :: rest)%list
      /\ Forall2 complete cs ents
      /\ zip.dir w'
         = (zip.dir w ++ ents
            ++ [{| zip.hdr := headerOf c;
                   zip.body := io.content (srcFile c) |}])%list
      /\ n = srcPath c /\ os.IsDir (fileInfo c) = false
      /\ io.failure (srcFile c) = None
      /\ sha1Sum c <> fingerprint (io.content (srcFile c)).
Proof.
  induction calls as [|[c|err] calls IH]; intros w w' n; cbn [addAll].
  - discriminate.
  - destruct (addCall c w) as [w1 [e1|]] eqn:A.
    + intros [= <- ->]. apply addCall_changed in A.
      destruct A as (-> & D & F & N & ->).
      exists [], c, calls, []. repeat split; try assumption. constructor.
    + intros H. apply IH in H.
      destruct H as (cs & c' & rest & ents & -> & Hc & Hd & Hn).
      apply addCall_ok in A. destruct A as (ent & -> & Hent).
      exists (c :: cs), c', rest, (ent :: ents). cbn in Hd.
      rewrite <- app_assoc in Hd.
      repeat split; try tauto. now constructor.
  - discriminate.
Qed.

(** With a sink that refuses nothing, calls that pass all succeed. *)
Lemma addAll_passes (cs : list call) :
  forall w, accepting (zip.sink w) -> Forall passes cs ->
            exists w', addAll (map Ok cs) w = (w', None)
                       /\ zip.sink w' = zip.sink w.
Proof.
  induction cs as [|c cs IH]; intros w A P; cbn [map addAll].
  - now exists w.
  - inversion P as [|? ? Pc Pcs]; subst.
    assert (exists w1, addCall c w = (w1, None) /\ zip.sink w1 = zip.sink w)
      as (w1 & E & S).
    { unfold passes in Pc. pose proof (addCall_cases c w) as Cs.
      rewrite (proj1 A) in Cs. destruct Cs as [content Cs].
      revert Pc Cs. destruct (os.IsDir (fileInfo c)) eqn:D; intros Pc Cs.
      - destruct Cs as [_ E]. eexists. split; [exact E | reflexivity].
      - destruct Pc as [F S]. rewrite (addCall_accepting c w A D F).
        rewrite <- S, String.eqb_refl. eexists. split; reflexivity. }
    rewrite E. rewrite <- S in A. destruct (IH w1 A Pcs) as (w' & E' & S').
    exists w'. split; [assumption | congruence].
Qed.

Lemma addAll_app (cs : list call) (rest : list (result call)) :
  forall w w1,
    addAll (map Ok cs) w = (w1, None) ->
    addAll (map Ok cs ++ rest) w = addAll rest w1.
Proof.
  induction cs as [|c cs IH]; intros w w1; cbn [map addAll app].
  - now intros [= <-].
  - destruct (addCall c w) as [w2 [e|]]; [discriminate | apply IH].
Qed.

(** The first file whose digest is not the declared one ends the loop
    with a [FileChangedError] naming its source. *)
Lemma addAll_mismatch (cs : list call) (c : call)
  (rest : list (result call)) (w : zip.Writer) :
  accepting (zip.sink w) -> Forall passes cs ->
  os.IsDir (fileInfo c) = false -> io.failure (srcFile c) = None ->
  sha1Sum c <> fingerprint (io.content (srcFile c)) ->
  exists w', addAll (map Ok cs ++ Ok c :: rest) w
             = (w', Some (FileChangedError (srcPath c))).
Proof.
  intros A P D F N. destruct (addAll_passes cs w A P) as (w1 & E & S).
  rewrite (addAll_app cs _ w w1 E). cbn [addAll].
  rewrite <- S in A. rewrite (addCall_accepting c w1 A D F).
  destruct (String.eqb_spec (sha1Sum c) (fingerprint (io.content (srcFile c))));
    [contradiction|]. eexists. reflexivity.
Qed.

(** ** Names *)

Lemma HasSuffix_refl (s : string) : strings.HasSuffix s s = true.
Proof.
  destruct s; cbn; [reflexivity|].
  now rewrite Ascii.eqb_refl, String.eqb_refl.
Qed.

Lemma HasSuffix_app (s t : string) : strings.HasSuffix (s ++ t) t = true.
Proof.
  induction s as [|c s IH]; cbn [String.append].
  - apply HasSuffix_refl.
  - cbn [strings.HasSuffix]. rewrite IH. now destruct (String.eqb _ _).
Qed.

Lemma entryName_dir (name : string) :
  strings.HasSuffix (entryName true name) "/" = true.
Proof.
  unfold entryName. cbn [andb].
  destruct (strings.HasSuffix name "/") eqn:E; cbn [negb];
    [assumption | apply HasSuffix_app].
Qed.

Lemma entryName_file (name : string) : entryName false name = name.
Proof. reflexivity. Qed.

Lemma headerOf_Name (c : call) :
  zip.Name (headerOf c) = entryName (os.IsDir (fileInfo c)) (destPath c).
Proof. reflexivity. Qed.

(** ** Lists of calls *)

Lemma map_Ok_Forall2 {A : Type} (f : A -> result call) (l : list A) :
  forall cs, map f l = map Ok cs -> Forall2 (fun a c => f a = Ok c) l cs.
Proof.
  induction l as [|a l IH]; intros [|c cs]; cbn; try discriminate.
  - constructor.
  - intros [= E1 E2]. constructor; [assumption | now apply IH].
Qed.

Lemma Forall2_compose {A B C : Type} (R : A -> B -> Prop) (S : B -> C -> Prop)
  (l1 : list A) :
  forall l2 l3, Forall2 R l1 l2 -> Forall2 S l2 l3 ->
                Forall2 (fun a c => exists b, R a b /\ S b c) l1 l3.
Proof.
  induction l1 as [|a l1 IH]; intros l2 l3 H12 H23.
  - inversion H12; subst. inversion H23; subst. constructor.
  - inversion H12; subst. inversion H23; subst.
    constructor; [eauto | eapply IH; eassumption].
Qed.

(** ** The packers, through their calls *)

Lemma ZipDirectoryResources_packCalls
  (filepath_Join : string -> string -> string)
  (os_Open : string -> result os.File) (zipFile : result ioutil.TempFile)
  (sourceDir : string) (filesToInclude : list Resource) :
  ZipDirectoryResources filepath_Join os_Open zipFile sourceDir filesToInclude
  = packCalls zipFile
      (map (directoryCall filepath_Join os_Open sourceDir) filesToInclude).
Proof.
  unfold ZipDirectoryResources, packCalls.
  destruct zipFile as [zf|err]; [|reflexivity].
  now rewrite zipDirectoryFiles_addAll.
Qed.

Lemma ZipArchiveResources_packCalls (zipFile : result ioutil.TempFile)
  (archive : ykk.Archive) (files : list zip.File)
  (filesToInclude : list Resource) :
  newArchiveReader archive = Ok files ->
  ZipArchiveResources zipFile (Ok archive) filesToInclude
  = packCalls zipFile (map (archiveCall filesToInclude) files).
Proof.
  intros R. unfold ZipArchiveResources, packCalls.
  destruct zipFile as [zf|err]; [|reflexivity].
  now rewrite R, zipArchiveFiles_addAll.
Qed.

(** Without a listing nothing is written and the call fails. *)
Lemma ZipArchiveResources_unlisted (zipFile : result ioutil.TempFile)
  (source : result ykk.Archive) (filesToInclude : list Resource) :
  (forall archive files, source = Ok archive ->
                         newArchiveReader archive <> Ok files) ->
  exists err,
    ZipArchiveResources zipFile source filesToInclude
    = {| archive := []; location := ""; failed := Some (SysError err) |}.
Proof.
  intros N. unfold ZipArchiveResources.
  destruct zipFile as [zf|err]; [|now exists err].
  destruct source as [a|err]; [|now exists err].
  destruct (newArchiveReader a) as [files|err] eqn:R; [|now exists err].
  now destruct (N a files eq_refl).
Qed.

Lemma packCalls_success (zipFile : result ioutil.TempFile)
  (calls : list (result call)) :
  failed (packCalls zipFile calls) = None ->
  exists zf cs,
    zipFile = Ok zf /\ calls = map Ok cs
    /\ location (packCalls zipFile calls) = ioutil.Name zf
    /\ Forall2 complete cs (archive (packCalls zipFile calls)).
Proof.
  unfold packCalls. destruct zipFile as [zf|err]; [|discriminate].
  destruct (addAll _ _) as [w' [e|]] eqn:A; [discriminate|]. intros _.
  apply addAll_success in A. destruct A as (cs & ents & -> & D & C).
  exists zf, cs. cbn in *. rewrite D. now repeat split.
Qed.

Lemma packCalls_written (zipFile : result ioutil.TempFile)
  (calls : list (result call)) :
  exists cs rest,
    calls = (map Ok cs ++ rest)%list
    /\ Forall2 (fun c e => zip.hdr e = headerOf c) cs
         (archive (packCalls zipFile calls))
    /\ (failed (packCalls zipFile calls) = None -> rest = []).
Proof.
  unfold packCalls. destruct zipFile as [zf|err].
  - destruct (addAll _ _) as [w' e] eqn:A.
    apply addAll_headers in A.
    destruct A as (cs & rest & ents & -> & D & H & R).
    exists cs, rest. cbn in D.
    destruct e; cbn; rewrite D; repeat split;
      solve [assumption | discriminate].
  - exists [], calls. repeat split; [constructor | discriminate].
Qed.

Lemma packCalls_changed (zipFile : result ioutil.TempFile)
  (calls : list (result call)) (n : string) :
  failed (packCalls zipFile calls) = Some (FileChangedError n) ->
  location (packCalls zipFile calls) = EmptyString /\
  exists c, In (Ok c) calls /\ n = srcPath c
            /\ os.IsDir (fileInfo c) = false
            /\ io.failure (srcFile c) = None
            /\ sha1Sum c <> fingerprint (io.content (srcFile c)).
Proof.
  unfold packCalls. destruct zipFile as [zf|err]; [|discriminate].
  destruct (addAll _ _) as [w' [e|]] eqn:A; [|discriminate].
  cbn. intros [= ->]. split; [reflexivity|].
  apply addAll_changed in A.
  destruct A as (cs & c & rest & ents & -> & _ & _ & Hn & D & F & N).
  exists c. repeat split; try assumption.
  apply in_or_app. right. now left.
Qed.

Lemma packCalls_mismatch (zf : ioutil.TempFile) (cs : list call) (c : call)
  (rest : list (result call)) :
  accepting (ioutil.file zf) -> Forall passes cs ->
  os.IsDir (fileInfo c) = false -> io.failure (srcFile c) = None ->
  sha1Sum c <> fingerprint (io.content (srcFile c)) ->
  failed (packCalls (Ok zf) (map Ok cs ++ Ok c :: rest))
  = Some (FileChangedError (srcPath c))
  /\ location (packCalls (Ok zf) (map Ok cs ++ Ok c :: rest)) = EmptyString.
Proof.
  intros A P D F N. unfold packCalls.
  destruct (addAll_mismatch cs c rest (zip.NewWriter (ioutil.file zf))
              A P D F N) as (w' & E).
  rewrite E. split; reflexivity.
Qed.

Lemma packCalls_passes (zf : ioutil.TempFile) (cs : list call) :
  accepting (ioutil.file zf) -> Forall passes cs ->
  failed (packCalls (Ok zf) (map Ok cs)) = None.
Proof.
  intros A P. unfold packCalls.
  destruct (addAll_passes cs (zip.NewWriter (ioutil.file zf)) A P)
    as (w' & E & _).
  now rewrite E.
Qed.

(** ** The lookup *)

Lemma findInResources_cases (path : string) (l : list Resource) :
  (exists before after,
      l = (before ++ findInResources path l :: after)%list
      /\ Filename (findInResources path l) = path
      /\ Forall (fun r => Filename r <> path) before)
  \/ (findInResources path l = zeroResource
      /\ Forall (fun r => Filename r <> path) l).
Proof.
  induction l as [|r l IH]; cbn [findInResources].
  - right. split; [reflexivity | constructor].
  - destruct (String.eqb_spec (Filename r) path) as [E|N].
    + left. exists [], l. repeat split; [assumption | constructor].
    + destruct IH as [(before & after & E & F & B)|[Z B]].
      * left. exists (r :: before), after. cbn [app].
        rewrite <- E. repeat split; [assumption | now constructor].
      * right. split; [assumption | now constructor].
Qed.

Lemma findInResources_hashed (path : string) (l : list Resource) :
  SHA1 (findInResources path l) <> EmptyString ->
  In (findInResources path l) l /\ Filename (findInResources path l) = path.
Proof.
  intros H. destruct (findInResources_cases path l)
    as [(before & after & E & F & _)|[Z _]].
  - split; [|assumption]. rewrite E at 2. apply in_or_app. right. now left.
  - rewrite Z in H. now destruct H.
Qed.

(** ** From calls to entries *)

Lemma complete_packedFromDirectory
  (filepath_Join : string -> string -> string)
  (os_Open : string -> result os.File) (sourceDir : string)
  (r : Resource) (c : call) (e : zip.Entry) :
  directoryCall filepath_Join os_Open sourceDir r = Ok c ->
  complete c e ->
  packedFromDirectory filepath_Join os_Open sourceDir r e.
Proof.
  unfold directoryCall, packedFromDirectory, complete. cbv zeta.
  destruct (os_Open _) as [f|err]; [|discriminate].
  destruct (os.Stat f) as [info|err] eqn:S; [|discriminate].
  intros [= <-] [H B]. exists f, info. rewrite H. cbn in B |- *.
  repeat (split; [solve [reflexivity | assumption]|]).
  revert B. destruct (os.IsDir info); [now intros|].
  intros (B & _ & D). split; [assumption | now rewrite <- D].
Qed.

Lemma complete_packedFromArchive (filesToInclude : list Resource)
  (f : zip.File) (c : call) (e : zip.Entry) :
  archiveCall filesToInclude f = Ok c ->
  complete c e ->
  packedFromArchive filesToInclude f e.
Proof.
  unfold archiveCall, packedFromArchive, complete. cbv zeta.
  destruct (zip.Open f) as [reader|err] eqn:O; [|discriminate].
  intros [= <-] [H B]. rewrite H. cbn in B |- *.
  repeat (split; [solve [reflexivity | assumption]|]).
  revert B. destruct (os.IsDir (zip.FileInfo f)); [now intros|].
  intros (B & _ & D).
  assert (N : SHA1 (findInResources (zip.Name (zip.Header f)) filesToInclude)
              <> EmptyString).
  { rewrite D. apply sha1_hex_nonempty. }
  destruct (findInResources_hashed _ _ N) as [I F].
  repeat split; try assumption.
  exists reader. repeat split; [assumption | now rewrite <- D].
Qed.

Lemma Forall2_calls {A : Type} (f : A -> result call)
  (P : A -> zip.Entry -> Prop) (Q : call -> zip.Entry -> Prop)
  (l : list A) (cs : list call) (ents : list zip.Entry) :
  (forall a c e, f a = Ok c -> Q c e -> P a e) ->
  map f l = map Ok cs -> Forall2 Q cs ents -> Forall2 P l ents.
Proof.
  intros PQ M H. apply map_Ok_Forall2 in M.
  pose proof (Forall2_compose _ _ _ _ _ M H) as K.
  eapply Forall2_impl; [|exact K].
  intros a e (c & Fa & Qc). eauto.
Qed.

Lemma listing_Ok (a : ykk.Archive) (files : list zip.File) :
  newArchiveReader a = Ok files -> listing (Ok a) = files.
Proof. intros R. unfold listing. now rewrite R. Qed.

Lemma listing_inhabited (source : result ykk.Archive) :
  listing source <> [] ->
  exists a, source = Ok a /\ newArchiveReader a = Ok (listing source).
Proof.
  unfold listing. destruct source as [a|err]; [|intros N; now elim N].
  destruct (newArchiveReader a) as [files|err] eqn:R;
    [|intros N; now elim N].
  intros _. now exists a.
Qed.

(** Either the source lists its entries, or the call writes nothing. *)
Lemma ZipArchiveResources_cases (zipFile : result ioutil.TempFile)
  (source : result ykk.Archive) (filesToInclude : list Resource) :
  (ZipArchiveResources zipFile source filesToInclude
   = packCalls zipFile (map (archiveCall filesToInclude) (listing source)))
  \/ (exists err,
        ZipArchiveResources zipFile source filesToInclude
        = {| archive := []; location := ""; failed := Some (SysError err) |}).
Proof.
  destruct source as [a|err].
  - destruct (newArchiveReader a) as [files|err] eqn:R.
    + left. rewrite (listing_Ok a files R).
      now apply ZipArchiveResources_packCalls.
    + right. apply ZipArchiveResources_unlisted. intros a' files [= <-].
      congruence.
  - right. apply ZipArchiveResources_unlisted. discriminate.
Qed.

Lemma passing_calls {A : Type} (f : A -> result call) (l : list A) :
  Forall (fun a => exists c, f a = Ok c /\ passes c) l ->
  exists cs, map f l = map Ok cs /\ Forall passes cs.
Proof.
  induction 1 as [|a l (c & E & P) _ (cs & M & Ps)].
  - exists []. split; [reflexivity | constructor].
  - exists (c :: cs). cbn [map]. rewrite E, M. split; [reflexivity|].
    now constructor.
Qed.

Lemma written_by {A : Type} (f : A -> result call) (l : list A)
  (zipFile : result ioutil.TempFile) :
  exists done rest,
    l = (done ++ rest)%list
    /\ Forall2 (fun a e => exists c, f a = Ok c /\ zip.hdr e = headerOf c)
         done (archive (packCalls zipFile (map f l)))
    /\ (failed (packCalls zipFile (map f l)) = None -> rest = []).
Proof.
  destruct (packCalls_written zipFile (map f l)) as (cs & rest & M & H & R).
  apply map_eq_app in M. destruct M as (done & rest' & -> & M1 & M2).
  exists done, rest'. repeat split.
  - apply map_Ok_Forall2 in M1.
    exact (Forall2_compose _ _ _ _ _ M1 H).
  - intros F. specialize (R F). rewrite R in M2.
    now apply map_eq_nil in M2.
Qed.

Lemma succeeded_by {A : Type} (f : A -> result call) (l : list A)
  (zipFile : result ioutil.TempFile) :
  failed (packCalls zipFile (map f l)) = None ->
  exists zf,
    zipFile = Ok zf
    /\ location (packCalls zipFile (map f l)) = ioutil.Name zf
    /\ Forall2 (fun a e => exists c, f a = Ok c /\ complete c e)
         l (archive (packCalls zipFile (map f l))).
Proof.
  intros F. apply packCalls_success in F.
  destruct F as (zf & cs & -> & M & L & C).
  exists zf. repeat split; [assumption|].
  apply map_Ok_Forall2 in M. exact (Forall2_compose _ _ _ _ _ M C).
Qed.

Lemma changed_by {A : Type} (f : A -> result call) (l : list A)
  (zipFile : result ioutil.TempFile) (n : string) :
  failed (packCalls zipFile (map f l)) = Some (FileChangedError n) ->
  location (packCalls zipFile (map f l)) = EmptyString /\
  exists a c, In a l /\ f a = Ok c /\ n = srcPath c
              /\ os.IsDir (fileInfo c) = false
              /\ io.failure (srcFile c) = None
              /\ sha1Sum c <> fingerprint (io.content (srcFile c)).
Proof.
  intros F. apply packCalls_changed in F.
  destruct F as (L & c & I & F). split; [assumption|].
  apply in_map_iff in I. destruct I as (a & E & I).
  exists a, c. now repeat split.
Qed.

(** ** Names and joined paths *)

Lemma validName_spec (Separator : ascii) (name : string) :
  tree.validName Separator name = true ->
  name <> EmptyString /\ name <> "."%string
  /\ tree.contains Separator name = false
  /\ tree.contains "/" name = false.
Proof.
  unfold tree.validName. rewrite !andb_true_iff, !negb_true_iff.
  intros [[[E D] S] L]. repeat split; try assumption.
  - now apply String.eqb_neq.
  - now apply String.eqb_neq.
Qed.

Lemma append_assoc (a b c : string) :
  ((a ++ b) ++ c)%string = (a ++ (b ++ c))%string.
Proof. induction a as [|x a IH]; cbn; [reflexivity | now rewrite IH]. Qed.

Lemma contains_app (c : ascii) (s t : string) :
  tree.contains c (s ++ t) = tree.contains c s || tree.contains c t.
Proof.
  induction s as [|c' s IH]; cbn; [reflexivity|].
  now rewrite IH, orb_assoc.
Qed.

Lemma Replace_app (s t : string) (old new : ascii) :
  strings.Replace (s ++ t) old new
  = (strings.Replace s old new ++ strings.Replace t old new)%string.
Proof. induction s as [|c s IH]; cbn; [reflexivity | now rewrite IH]. Qed.

Lemma Replace_absent (s : string) (old new : ascii) :
  tree.contains old s = false -> strings.Replace s old new = s.
Proof.
  induction s as [|c s IH]; cbn; [reflexivity|].
  rewrite orb_false_iff. intros [-> H]. now rewrite IH.
Qed.

Lemma Join_cons (name : string) (path : list string) (sep : string) :
  path <> [] ->
  strings.Join (name :: path) sep
  = (name ++ sep ++ strings.Join path sep)%string.
Proof. destruct path; [now intros [] | reflexivity]. Qed.

(** On valid names the host's separator gives way to the slash. *)
Lemma ToSlash_Join (Separator : ascii) (path : list string) :
  tree.named Separator path ->
  filepath.ToSlash Separator
    (strings.Join path (String Separator EmptyString))
  = tree.slashed path.
Proof.
  unfold filepath.ToSlash, tree.slashed.
  destruct (Ascii.eqb_spec Separator "/") as [->|N]; [reflexivity|].
  induction 1 as [|name path V _ IH]; [reflexivity|].
  destruct path as [|name' path].
  - cbn. apply Replace_absent. now apply validName_spec in V.
  - rewrite !Join_cons by discriminate.
    rewrite !Replace_app, IH. cbn [strings.Replace].
    rewrite Ascii.eqb_refl, Replace_absent; [reflexivity|].
    now apply validName_spec in V.
Qed.

Lemma Join_not_dot (Separator : ascii) (path : list string) (sep : string) :
  tree.named Separator path -> path <> [] -> sep <> EmptyString ->
  String.eqb (strings.Join path sep) "." = false.
Proof.
  intros V N S. destruct path as [|name path]; [now destruct N|].
  inversion V as [|? ? Vn Vp]; subst. apply validName_spec in Vn.
  destruct Vn as (Ne & Nd & _). apply String.eqb_neq.
  destruct path as [|name' path]; [exact Nd|].
  rewrite Join_cons by discriminate.
  destruct name as [|c name]; [now destruct Ne|].
  destruct sep as [|s sep]; [now destruct S|].
  cbn. intros [= _ E]. destruct name; discriminate E.
Qed.

Lemma slash_free_neq (a b t : string) :
  tree.contains "/" a = false -> a <> (b ++ String "/" t)%string.
Proof.
  revert b. induction a as [|c a IH]; intros [|c' b]; cbn; try discriminate.
  - rewrite orb_false_iff. intros [C _] [= -> _]. discriminate C.
  - rewrite orb_false_iff. intros [_ C] [= _ E]. now apply (IH b).
Qed.

Lemma slash_split (a b s t : string) :
  tree.contains "/" a = false -> tree.contains "/" b = false ->
  (a ++ String "/" s)%string = (b ++ String "/" t)%string ->
  a = b /\ s = t.
Proof.
  revert b. induction a as [|c a IH]; intros [|c' b]; cbn.
  - intros _ _ [= ->]. now split.
  - rewrite orb_false_iff. intros _ [C _] [= <- _]. discriminate C.
  - rewrite orb_false_iff. intros [C _] _ [= -> _]. discriminate C.
  - rewrite !orb_false_iff. intros [_ Ca] [_ Cb] [= -> E].
    destruct (IH b Ca Cb E) as [-> ->]. now split.
Qed.

(** Valid paths are told apart by their slashed form. *)
Lemma slashed_inj (Separator : ascii) (p : list string) :
  forall q, tree.named Separator p -> tree.named Separator q ->
            tree.slashed p = tree.slashed q -> p = q.
Proof.
  unfold tree.slashed.
  induction p as [|a p IH]; intros [|b q] Vp Vq E.
  - reflexivity.
  - exfalso. inversion Vq as [|? ? Vb _]; subst.
    apply validName_spec in Vb. destruct Vb as (Ne & _).
    destruct q; cbn in E; destruct b; try discriminate E; now destruct Ne.
  - exfalso. inversion Vp as [|? ? Va _]; subst.
    apply validName_spec in Va. destruct Va as (Ne & _).
    destruct p; cbn in E; destruct a; try discriminate E; now destruct Ne.
  - inversion Vp as [|? ? Va Vp']; inversion Vq as [|? ? Vb Vq']; subst.
    apply validName_spec in Va, Vb.
    destruct Va as (_ & _ & _ & Sa), Vb as (_ & _ & _ & Sb).
    destruct p as [|a' p], q as [|b' q].
    + cbn in E. now subst.
    + exfalso. rewrite (Join_cons b (b' :: q)) in E by discriminate.
      cbn [strings.Join] in E.
      revert E. apply slash_free_neq. exact Sa.
    + exfalso. rewrite (Join_cons a (a' :: p)) in E by discriminate.
      cbn [strings.Join] in E.
      symmetry in E. revert E. apply slash_free_neq. exact Sb.
    + rewrite !Join_cons in E by discriminate.
      destruct (slash_split _ _ _ _ Sa Sb E) as [-> E'].
      f_equal. now apply IH.
Qed.

(** A slashed valid path ends in a slash only when empty names allow
    it: it does not. *)
Lemma HasSuffix_slash (s : string) :
  strings.HasSuffix s "/" = true <->
  exists t, s = (t ++ "/")%string.
Proof.
  induction s as [|c s IH].
  - cbn. split; [discriminate | intros [[|c t] E]; discriminate E].
  - cbn [strings.HasSuffix].
    destruct (String.eqb_spec (String c s) "/") as [E|N].
    + split; [|reflexivity]. intros _. exists EmptyString. exact E.
    + rewrite IH. split.
      * intros [t ->]. now exists (String c t).
      * intros [[|c' t] E]; [now destruct N|].
        injection E as _ ->. now exists t.
Qed.

Lemma slash_free_suffix (s : string) :
  s <> EmptyString -> tree.contains "/" s = false ->
  forall prefix, strings.HasSuffix (prefix ++ s) "/" = false.
Proof.
  intros Ne C prefix. apply not_true_is_false. rewrite HasSuffix_slash.
  intros [t E]. revert prefix t E.
  induction s as [|c s IH]; [now destruct Ne|]. intros prefix t E.
  cbn in C. apply orb_false_iff in C. destruct C as [Cc Cs].
  destruct s as [|c' s].
  - assert (L : forall (p q : string) (x y : ascii),
               (p ++ String x "")%string = (q ++ String y "")%string -> x = y).
    { induction p as [|a p IHp]; intros [|b q] x y; cbn.
      - now intros [= ->].
      - intros [= _ H]. destruct q; discriminate H.
      - intros [= _ H]. destruct p; discriminate H.
      - intros [= _ H]. now apply (IHp q). }
    apply L in E. subst c. discriminate Cc.
  - apply (IH ltac:(discriminate) Cs (prefix ++ String c "")%string t).
    now rewrite append_assoc.
Qed.

(** ** The entries of a tree *)

Lemma below_dir (info : os.FileInfo) (opened : result os.File)
  (names : list (string * filepath.node)) :
  os.IsDir info = true ->
  tree.below (filepath.Node (Ok info) opened (Ok names))
  = flat_map tree.block names.
Proof.
  intros D. cbn [tree.below]. rewrite D.
  apply flat_map_ext. now intros [name child].
Qed.

Lemma below_leaf (n : filepath.node) (info : os.FileInfo) :
  filepath.Lstat n = Ok info -> os.IsDir info = false -> tree.below n = [].
Proof.
  destruct n as [l o d]. cbn. intros -> D.
  destruct d; [now rewrite D | reflexivity].
Qed.

Lemma distinct_NoDup (names : list string) :
  tree.distinct names = true -> NoDup names.
Proof.
  induction names as [|name names IH]; cbn; [constructor|].
  rewrite andb_true_iff, negb_true_iff. intros [E D].
  constructor; [|now apply IH].
  intros I. assert (X : existsb (String.eqb name) names = true).
  { apply existsb_exists. exists name. now rewrite String.eqb_refl. }
  congruence.
Qed.

Lemma wellFormed_names (Separator : ascii) (lstat : result os.FileInfo)
  (opened : result os.File) (names : list (string * filepath.node)) :
  tree.wellFormed Separator (filepath.Node lstat opened (Ok names)) = true ->
  NoDup (map fst names)
  /\ forall name child,
      In (name, child) names ->
      tree.validName Separator name = true
      /\ tree.wellFormed Separator child = true.
Proof.
  cbn [tree.wellFormed]. rewrite !andb_true_iff. intros [[V D] W].
  split; [now apply distinct_NoDup|]. intros name child I. split.
  - rewrite forallb_forall in V. apply V.
    apply in_map_iff. now exists (name, child).
  - rewrite forallb_forall in W. exact (W _ I).
Qed.

Lemma below_nonempty (n : filepath.node) :
  Forall (fun e => fst e <> []) (tree.below n).
Proof.
  destruct n as [[info|err] o [names|err']]; try constructor.
  cbn [tree.below]. destruct (os.IsDir info); [|constructor].
  apply Forall_flat_map, Forall_forall. intros [name child] _.
  constructor; [discriminate|]. apply Forall_map, Forall_forall.
  discriminate.
Qed.

Lemma below_named (Separator : ascii) (n : filepath.node) :
  tree.wellFormed Separator n = true ->
  Forall (fun e => tree.named Separator (fst e)) (tree.below n).
Proof.
  induction n as [l o d IH] using tree.node_ind. intros W.
  destruct l as [info|err]; [|constructor].
  destruct d as [names|err]; [|constructor].
  destruct (os.IsDir info) eqn:D;
    [|rewrite (below_leaf (filepath.Node (Ok info) o (Ok names)) info
                eq_refl D); constructor].
  rewrite (below_dir _ _ _ D).
  destruct (wellFormed_names _ _ _ _ W) as [_ Wn].
  apply Forall_flat_map, Forall_forall. intros [name child] I.
  destruct (Wn _ _ I) as [Vn Wc]. rewrite Forall_forall in IH.
  specialize (IH _ I Wc). unfold tree.block. cbn [fst snd].
  constructor; [now repeat constructor|].
  apply Forall_map. eapply Forall_impl; [|exact IH].
  intros e Ve. now constructor.
Qed.

Lemma block_heads (nc : string * filepath.node) (p : list string) :
  In p (map fst (tree.block nc)) -> exists q, p = fst nc :: q.
Proof.
  unfold tree.block. cbn [map fst]. intros [<-|I]; [now exists []|].
  rewrite map_map in I. apply in_map_iff in I.
  destruct I as (e & <- & _). now eexists.
Qed.

Lemma block_NoDup (nc : string * filepath.node) :
  NoDup (map fst (tree.below (snd nc))) -> NoDup (map fst (tree.block nc)).
Proof.
  intros N. unfold tree.block. cbn [map fst]. rewrite map_map. cbn [fst].
  constructor.
  - intros I. apply in_map_iff in I. destruct I as (e & E & I).
    injection E as E. pose proof (below_nonempty (snd nc)) as B.
    rewrite Forall_forall in B. now apply (B e I).
  - rewrite <- (map_map fst (cons (fst nc))).
    apply NoDup_map_NoDup_ForallPairs; [|assumption].
    now intros x y _ _ [= ->].
Qed.

Lemma blocks_NoDup (names : list (string * filepath.node)) :
  NoDup (map fst names) ->
  Forall (fun nc => NoDup (map fst (tree.below (snd nc)))) names ->
  NoDup (map fst (flat_map tree.block names)).
Proof.
  induction names as [|nc names IH]; cbn [flat_map map]; [constructor|].
  intros N F. apply NoDup_cons_iff in N. destruct N as [Nn N].
  inversion F as [|? ? Fc Fr]; subst.
  rewrite map_app. apply NoDup_app.
  - now apply block_NoDup.
  - now apply IH.
  - intros p I1 I2. apply block_heads in I1. destruct I1 as (q & ->).
    apply in_map_iff in I2. destruct I2 as (e & E & I2).
    apply in_flat_map in I2. destruct I2 as (nc' & I' & Ie).
    assert (H : In (fst e) (map fst (tree.block nc'))) by now apply in_map.
    apply block_heads in H. destruct H as (q' & H).
    rewrite E in H. injection H as H _. apply Nn. rewrite H.
    now apply in_map.
Qed.

Lemma below_NoDup (Separator : ascii) (n : filepath.node) :
  tree.wellFormed Separator n = true -> NoDup (map fst (tree.below n)).
Proof.
  induction n as [l o d IH] using tree.node_ind. intros W.
  destruct l as [info|err]; [|constructor].
  destruct d as [names|err]; [|constructor].
  destruct (os.IsDir info) eqn:D;
    [|rewrite (below_leaf (filepath.Node (Ok info) o (Ok names)) info
                eq_refl D); constructor].
  rewrite (below_dir _ _ _ D).
  destruct (wellFormed_names _ _ _ _ W) as [Nn Wn].
  apply blocks_NoDup; [assumption|].
  rewrite Forall_forall in IH |- *. intros [name child] I.
  apply (IH _ I). now destruct (Wn _ _ I).
Qed.

(** The slashed locations of the entries of a well-formed tree are
    pairwise distinct. *)
Lemma below_slashed_NoDup (Separator : ascii) (n : filepath.node) :
  tree.wellFormed Separator n = true ->
  NoDup (map (fun e => tree.slashed (fst e)) (tree.below n)).
Proof.
  intros W. rewrite <- (map_map fst tree.slashed).
  apply NoDup_map_NoDup_ForallPairs; [|now apply (below_NoDup Separator)].
  intros p q Ip Iq E.
  pose proof (below_named Separator n W) as V. rewrite Forall_forall in V.
  apply in_map_iff in Ip, Iq.
  destruct Ip as (e1 & <- & I1), Iq as (e2 & <- & I2).
  apply (slashed_inj Separator); auto.
Qed.

(** ** The directory scan *)

Section Scan.

Variable Separator : ascii.
Variable fixMode : Z -> Z.

Let walkFn := gatherWalkFn Separator fixMode.
Let describe := described Separator fixMode.

Lemma walk_eq {S : Type} (f : filepath.WalkFunc S) (path : list string)
  (n : filepath.node) (info : os.FileInfo) (st : S) :
  filepath.walk f path n info st
  = match f st path n info None with
    | (st1, Some err) => (st1, Some err)
    | (st1, None) =>
        if negb (os.IsDir info) then (st1, None)
        else
          match filepath.readDirNames n with
          | Err err => f st1 path n info (Some err)
          | Ok names =>
              filepath.walkNames
                (fun filename child => filepath.walk f filename child)
                f path names st1
          end
    end.
Proof. destruct n as [l o [names|err]]; reflexivity. Qed.

(** The callback on the root. *)
Lemma walkFn_root (n : filepath.node) (info : os.FileInfo)
  (resources : list Resource) :
  walkFn resources [] n info None = (resources, None).
Proof. reflexivity. Qed.

(** The callback on an entry below the root that can be read. *)
Lemma walkFn_entry (path : list string) (n : filepath.node)
  (info : os.FileInfo) (resources : list Resource) :
  path <> [] -> tree.named Separator path ->
  filepath.Lstat n = Ok info ->
  (os.IsDir info = false ->
   exists file, filepath.Open n = Ok file
                /\ io.failure (os.Body file) = None) ->
  walkFn resources path n info None
  = ((resources ++ [describe path n])%list, None).
Proof.
  intros Ne V L R. unfold walkFn, gatherWalkFn, filepath.Rel.
  destruct path as [|name path]; [now destruct Ne|].
  rewrite (Join_not_dot Separator) by (assumption || discriminate).
  unfold describe, described. rewrite L.
  destruct (os.IsDir info) eqn:D.
  - now destruct (filepath.Open n).
  - destruct (R eq_refl) as (file & O & F). rewrite O, Copy_hash, F.
    reflexivity.
Qed.

Lemma readable_Lstat (n : filepath.node) :
  tree.readable n = true -> exists info, filepath.Lstat n = Ok info.
Proof. destruct n as [[info|err] o d]; [now exists info | discriminate]. Qed.

Lemma readable_leaf (n : filepath.node) (info : os.FileInfo) :
  tree.readable n = true -> filepath.Lstat n = Ok info ->
  os.IsDir info = false ->
  exists file, filepath.Open n = Ok file /\ io.failure (os.Body file) = None.
Proof.
  destruct n as [l o d]. cbn [filepath.Lstat filepath.Open tree.readable].
  intros R -> D. rewrite D in R. destruct o as [file|err]; [|discriminate].
  exists file. split; [reflexivity|].
  now destruct (io.failure (os.Body file)).
Qed.

Lemma readable_dir (n : filepath.node) (info : os.FileInfo) :
  tree.readable n = true -> filepath.Lstat n = Ok info ->
  os.IsDir info = true ->
  exists names,
    filepath.readDirNames n = Ok names
    /\ forall name child, In (name, child) names ->
                          tree.readable child = true.
Proof.
  destruct n as [l o d].
  cbn [filepath.Lstat filepath.readDirNames tree.readable].
  intros R -> D. rewrite D in R. destruct d as [names|err]; [|discriminate].
  exists names. split; [reflexivity|]. intros name child I.
  rewrite forallb_forall in R. exact (R _ I).
Qed.

Lemma scanned_app (path : list string)
  (a b : list (list string * filepath.node)) :
  scanned Separator fixMode path (a ++ b)
  = (scanned Separator fixMode path a
     ++ scanned Separator fixMode path b)%list.
Proof. apply map_app. Qed.

Lemma scanned_block (path : list string) (name : string)
  (child : filepath.node) :
  scanned Separator fixMode path (tree.block (name, child))
  = describe (path ++ [name])%list child
    :: scanned Separator fixMode (path ++ [name]) (tree.below child).
Proof.
  unfold scanned, tree.block. cbn [map fst snd]. f_equal.
  rewrite map_map. apply map_ext. intros e. cbn [fst snd].
  now rewrite <- app_assoc.
Qed.

Lemma walkNames_readable (path : list string)
  (names : list (string * filepath.node)) :
  tree.named Separator path ->
  Forall
    (fun nc =>
       forall path info st,
         filepath.Lstat (snd nc) = Ok info ->
         tree.readable (snd nc) = true ->
         tree.wellFormed Separator (snd nc) = true ->
         tree.named Separator path ->
         filepath.walk walkFn path (snd nc) info st
         = ((st ++ own Separator fixMode path (snd nc)
             ++ scanned Separator fixMode path
                  (tree.below (snd nc)))%list, None)) names ->
  (forall name child,
      In (name, child) names ->
      tree.validName Separator name = true
      /\ tree.wellFormed Separator child = true
      /\ tree.readable child = true) ->
  forall st,
    filepath.walkNames
      (fun filename child => filepath.walk walkFn filename child)
      walkFn path names st
    = ((st ++ scanned Separator fixMode path
                (flat_map tree.block names))%list, None).
Proof.
  intros Vp. induction names as [|[name child] names IHn]; intros IH H st.
  - cbn. now rewrite app_nil_r.
  - inversion IH as [|? ? IHc IHr]; subst. cbn [snd] in IHc.
    destruct (H name child (or_introl eq_refl)) as (Vn & Wc & Rc).
    destruct (readable_Lstat child Rc) as (fileInfo & L).
    cbn [filepath.walkNames]. rewrite L.
    assert (Vp' : tree.named Separator (path ++ [name])).
    { apply Forall_app. split; [assumption | now repeat constructor]. }
    rewrite (IHc (path ++ [name])%list fileInfo st L Rc Wc Vp').
    rewrite IHn; [|assumption|intros n c I; apply H; now right].
    f_equal. rewrite <- !app_assoc. f_equal.
    cbn [flat_map]. rewrite scanned_app, scanned_block.
    assert (O : own Separator fixMode (path ++ [name]) child
                = [describe (path ++ [name])%list child]).
    { unfold own. now destruct path. }
    now rewrite O.
Qed.

Lemma walk_readable (n : filepath.node) :
  forall path info st,
    filepath.Lstat n = Ok info ->
    tree.readable n = true ->
    tree.wellFormed Separator n = true ->
    tree.named Separator path ->
    filepath.walk walkFn path n info st
    = ((st ++ own Separator fixMode path n
        ++ scanned Separator fixMode path (tree.below n))%list, None).
Proof.
  induction n as [l o d IH] using tree.node_ind.
  intros path info st L R W V. rewrite walk_eq.
  assert (E : walkFn st path (filepath.Node l o d) info None
              = ((st ++ own Separator fixMode path
                          (filepath.Node l o d))%list, None)).
  { destruct path as [|name path].
    - cbn [own]. now rewrite app_nil_r.
    - apply walkFn_entry; try assumption; [discriminate|].
      now apply readable_leaf. }
  rewrite E. destruct (os.IsDir info) eqn:D; cbn [negb].
  - destruct (readable_dir _ info R L D) as (names & Rd & Rn).
    rewrite Rd. cbn in Rd. subst d. cbn in L. subst l.
    rewrite (below_dir _ _ _ D).
    destruct (wellFormed_names _ _ _ _ W) as [_ Wn].
    rewrite (walkNames_readable path names V IH).
    + now rewrite <- app_assoc.
    + intros name child I. destruct (Wn _ _ I). repeat split; eauto.
  - rewrite (below_leaf _ info L D). cbn. now rewrite app_nil_r.
Qed.

Lemma GatherDirectoryResources_readable (root : filepath.node) :
  tree.wellFormed Separator root = true ->
  tree.readable root = true ->
  GatherDirectoryResources Separator fixMode root
  = (scanned Separator fixMode [] (tree.below root), None).
Proof.
  intros W R. unfold GatherDirectoryResources, filepath.Walk.
  destruct (readable_Lstat root R) as (info & L). rewrite L.
  apply (walk_readable root [] info [] L R W). constructor.
Qed.

Lemma scanned_Filename (root : filepath.node) :
  tree.wellFormed Separator root = true ->
  map Filename (scanned Separator fixMode [] (tree.below root))
  = map (fun e => tree.slashed (fst e)) (tree.below root).
Proof.
  intros W. unfold scanned. rewrite map_map. apply map_ext_in.
  intros e I. cbn [app].
  pose proof (below_named Separator root W) as V.
  rewrite Forall_forall in V. specialize (V e I).
  rewrite <- (ToSlash_Join Separator _ V).
  unfold describe, described. cbv zeta.
  destruct (filepath.Lstat (snd e)) as [info|err];
    [destruct (filepath.Open (snd e)); [destruct (os.IsDir info)|]|];
    reflexivity.
Qed.

End Scan.

(** ** Scanning what was packed *)

Lemma below_readable (n : filepath.node) :
  tree.readable n = true ->
  Forall (fun e => tree.readable (snd e) = true) (tree.below n).
Proof.
  induction n as [l o d IH] using tree.node_ind. intros R.
  destruct l as [info|err]; [|discriminate].
  destruct (os.IsDir info) eqn:D.
  - destruct (readable_dir _ info R eq_refl D) as (names & E & Rn).
    cbn in E. subst d. rewrite (below_dir _ _ _ D).
    apply Forall_flat_map, Forall_forall. intros [name child] I.
    rewrite Forall_forall in IH. specialize (IH _ I (Rn _ _ I)).
    unfold tree.block. cbn [fst snd]. constructor; [exact (Rn _ _ I)|].
    apply Forall_map. exact IH.
  - rewrite (below_leaf (filepath.Node (Ok info) o d) info eq_refl D).
    constructor.
Qed.

Lemma contains_slashed (Separator : ascii) (path : list string) :
  Separator <> "/"%char -> tree.named Separator path ->
  tree.contains Separator (tree.slashed path) = false.
Proof.
  intros N. unfold tree.slashed.
  induction 1 as [|name path V _ IH]; [reflexivity|].
  apply validName_spec in V. destruct V as (_ & _ & S & _).
  destruct path as [|name' path]; [exact S|].
  rewrite Join_cons by discriminate. rewrite !contains_app, S, IH.
  cbn [tree.contains orb]. rewrite !orb_false_r.
  apply Ascii.eqb_neq. congruence.
Qed.

Lemma ToSlash_slashed (Separator : ascii) (path : list string)
  (suffix : string) :
  tree.named Separator path ->
  suffix = EmptyString \/ suffix = "/"%string ->
  filepath.ToSlash Separator (tree.slashed path ++ suffix)
  = (tree.slashed path ++ suffix)%string.
Proof.
  intros V S. unfold filepath.ToSlash.
  destruct (Ascii.eqb_spec Separator "/") as [E|N]; [reflexivity|].
  apply Replace_absent. rewrite contains_app, contains_slashed by assumption.
  destruct S as [->| ->]; [reflexivity|].
  cbn [tree.contains orb]. rewrite !orb_false_r.
  apply Ascii.eqb_neq. congruence.
Qed.

Lemma append_empty (s : string) : (s ++ "")%string = s.
Proof. induction s as [|c s IH]; cbn; [reflexivity | now rewrite IH]. Qed.

Lemma HasSuffix_app_nonempty (s t : string) :
  t <> EmptyString ->
  strings.HasSuffix (s ++ t) "/" = strings.HasSuffix t "/".
Proof.
  intros N. induction s as [|c s IH]; [reflexivity|].
  cbn [String.append strings.HasSuffix]. rewrite IH.
  destruct (String.eqb_spec (String c (s ++ t)) "/") as [E|_];
    [|reflexivity].
  injection E as _ E. destruct s; [now destruct N | discriminate E].
Qed.

Lemma slashed_nonempty (Separator : ascii) (path : list string) :
  tree.named Separator path -> path <> [] ->
  tree.slashed path <> EmptyString.
Proof.
  intros V Ne. destruct path as [|name path]; [now destruct Ne|].
  inversion V as [|? ? Vn _]; subst. apply validName_spec in Vn.
  destruct Vn as (E & _). unfold tree.slashed.
  destruct path; [exact E|]. rewrite Join_cons by discriminate.
  destruct name; [now destruct E | discriminate].
Qed.

Lemma slashed_no_suffix (Separator : ascii) (path : list string) :
  tree.named Separator path -> path <> [] ->
  strings.HasSuffix (tree.slashed path) "/" = false.
Proof.
  induction 1 as [|name path V Vp IH]; intros Ne; [now destruct Ne|].
  pose proof V as V'. apply validName_spec in V'.
  destruct V' as (E & _ & _ & S).
  destruct path as [|name' path].
  - exact (slash_free_suffix name E S EmptyString).
  - unfold tree.slashed. rewrite Join_cons by discriminate.
    change (strings.Join (name' :: path) "/")
      with (tree.slashed (name' :: path)).
    pose proof (slashed_nonempty Separator (name' :: path) Vp
                  ltac:(discriminate)) as Nr.
    rewrite HasSuffix_app_nonempty.
    + rewrite (HasSuffix_app_nonempty "/" _ Nr). apply IH. discriminate.
    + cbn. discriminate.
Qed.

Lemma described_Filename (Separator : ascii) (fixMode : Z -> Z)
  (path : list string) (n : filepath.node) :
  tree.named Separator path ->
  Filename (described Separator fixMode path n) = tree.slashed path.
Proof.
  intros V. rewrite <- (ToSlash_Join Separator _ V).
  unfold described. cbv zeta.
  destruct (filepath.Lstat n) as [info|err];
    [destruct (filepath.Open n); [destruct (os.IsDir info)|]|];
    reflexivity.
Qed.

Lemma calls_of_entries {A : Type} (f : A -> result call)
  (Q : A -> call -> Prop) (l : list A) :
  (forall a, In a l -> exists c, f a = Ok c /\ passes c /\ Q a c) ->
  exists cs, map f l = map Ok cs /\ Forall passes cs /\ Forall2 Q l cs.
Proof.
  induction l as [|a l IH]; intros H.
  - exists []. repeat split; constructor.
  - destruct (H a (or_introl eq_refl)) as (c & E & P & Qc).
    destruct IH as (cs & M & Ps & Qs); [intros x I; apply H; now right|].
    exists (c :: cs). cbn [map]. rewrite E, M.
    repeat split; now constructor.
Qed.

Lemma map_Ok_inj (cs cs' : list call) :
  map (@Ok call) cs = map Ok cs' -> cs = cs'.
Proof.
  revert cs'. induction cs as [|c cs IH]; intros [|c' cs']; cbn;
    try discriminate; [reflexivity|].
  intros [= -> E]. f_equal. now apply IH.
Qed.

Lemma Forall2_map_l {A B C : Type} (f : A -> B) (R : B -> C -> Prop)
  (l : list A) :
  forall l', Forall2 R (map f l) l' <-> Forall2 (fun a c => R (f a) c) l l'.
Proof.
  induction l as [|a l IH]; intros l'; split; intros H;
    inversion H; subst; constructor; try assumption; now apply IH.
Qed.

Section RoundTrip.

Variable Separator : ascii.
Variable fixMode : Z -> Z.
Variable filepath_Join : string -> string -> string.
Variable os_Open : string -> result os.File.
Variable sourceDir : string.

Hypothesis fixMode_dir : forall m, Z.testbit (fixMode m) 31 = Z.testbit m 31.

Lemma entry_call (root : filepath.node) (e : list string * filepath.node) :
  tree.wellFormed Separator root = true ->
  tree.readable root = true ->
  holds filepath_Join os_Open sourceDir root ->
  In e (tree.below root) ->
  exists c,
    directoryCall filepath_Join os_Open sourceDir
      (described Separator fixMode ([] ++ fst e) (snd e)) = Ok c
    /\ passes c
    /\ packedAs Separator fixMode filepath_Join sourceDir e c.
Proof.
  intros W R H I. cbn [app].
  pose proof (below_named Separator root W) as V.
  pose proof (below_nonempty root) as Ne.
  pose proof (below_readable root R) as Re.
  unfold holds in H. rewrite Forall_forall in V, Ne, Re, H.
  specialize (V e I). specialize (Ne e I). specialize (Re e I).
  destruct (H e I) as (info & file & L & Op & O & S & Sz).
  assert (F : os.IsDir info = false -> io.failure (os.Body file) = None).
  { intros D. destruct (readable_leaf _ info Re L D) as (file' & Op' & F).
    congruence. }
  eexists. split; [|split].
  - unfold directoryCall. cbv zeta.
    rewrite (described_Filename Separator fixMode _ _ V), O, S. reflexivity.
  - unfold passes. cbn [fileInfo srcFile sha1Sum].
    destruct (os.IsDir info) eqn:D; [trivial|]. split; [now apply F|].
    unfold described. cbv zeta. now rewrite L, Op, D.
  - exists info, file. repeat split; try assumption; now auto.
Qed.

Lemma reopen_relist (entries : list zip.Entry) :
  zip.reopen entries = map zip.relist entries.
Proof. reflexivity. Qed.

Lemma rescanned_entry (e : list string * filepath.node) (c : call)
  (ent : zip.Entry) (r' : Resource) :
  packedAs Separator fixMode filepath_Join sourceDir e c ->
  complete c ent ->
  Filename r'
  = filepath.ToSlash Separator (zip.Name (zip.Header (zip.relist ent))) ->
  (if os.IsDir (zip.FileInfo (zip.relist ent))
   then Mode r' = os.octal 7 5 5 /\ SHA1 r' = EmptyString /\ Size r' = 0
   else Mode r' = os.octal 7 4 4
        /\ Size r' = zip.UncompressedSize64 (zip.Header (zip.relist ent))
        /\ exists reader,
            zip.Open (zip.relist ent) = Ok reader
            /\ SHA1 r' = fingerprint (io.content reader)) ->
  rescannedAs (described Separator fixMode (fst e) (snd e)) r'.
Proof.
  intros (info & file & L & Op & V & Ne & Fl & ->) [H B] Fn Sc.
  cbn [fileInfo srcFile sha1Sum] in B.
  assert (Nm : zip.Name (zip.hdr ent)
               = entryName (os.IsDir info) (tree.slashed (fst e))).
  { now rewrite H. }
  assert (Md : zip.attrMode (zip.hdr ent)
               = Mode (described Separator fixMode (fst e) (snd e))).
  { now rewrite H. }
  pose proof (slashed_no_suffix Separator _ V Ne) as Ns.
  pose proof (described_Filename Separator fixMode (fst e) (snd e) V) as Df.
  unfold rescannedAs. rewrite Df.
  revert Sc. unfold os.IsDir, zip.FileInfo, zip.Mode, zip.relist in *.
  cbn [zip.Header zip.Name zip.attrMode zip.UncompressedSize64 zip.Open
       os.Mode] in *.
  rewrite Nm in *. rewrite Md. unfold described in *. cbv zeta in *.
  rewrite L, Op in *. unfold os.IsDir in *.
  destruct (Z.testbit (os.Mode info) 31) eqn:D.
  - unfold entryName in *. rewrite Ns in *. cbn [negb andb] in *.
    rewrite HasSuffix_app, Z.lor_spec.
    replace (Z.testbit os.ModeDir 31) with true by reflexivity.
    rewrite orb_true_r. intros (_ & S1 & S2). cbn [SHA1 Size Mode].
    repeat split; try assumption. right. split; [reflexivity|].
    rewrite Fn. apply ToSlash_slashed; auto.
  - unfold entryName in *. cbn [negb andb] in *. rewrite Ns.
    cbn [Mode]. rewrite fixMode_dir, D.
    intros (_ & S2 & reader & [= <-] & S1). cbn [SHA1 Size Mode].
    destruct B as (B & _ & _). destruct (Fl eq_refl) as [_ Sz].
    unfold io.content in S1. cbn [io.chunks List.concat] in S1.
    rewrite app_nil_r in S1. rewrite B in S1, S2.
    repeat split; try congruence. left. rewrite Fn.
    rewrite <- (append_empty (tree.slashed (fst e))) at 1.
    rewrite ToSlash_slashed; auto. apply append_empty.
Qed.

End RoundTrip.

(** ** The lookup *)

(** C5: [findInResources] returns the first descriptor of the list whose
    [Filename] is the queried name, character for character, when there
    is one; when there is none it returns the zero descriptor (empty
    name and hash, mode and size zero), and no error either way. *)
Theorem findInResources_exact_or_zero :
  forall path filesToInclude,
    ((exists r, In r filesToInclude /\ Filename r = path) ->
     exists before after,
       filesToInclude
       = (before ++ findInResources path filesToInclude :: after)%list
       /\ Filename (findInResources path filesToInclude) = path
       /\ Forall (fun r => Filename r <> path) before)
    /\ ((forall r, In r filesToInclude -> Filename r <> path) ->
        findInResources path filesToInclude
        = {| Filename := ""; Mode := 0; SHA1 := ""; Size := 0 |}).
Proof.
  intros path l.
  destruct (findInResources_cases path l)
    as [(before & after & E & F & B)|[Z B]]; split.
  - intros _. now exists before, after.
  - intros N. exfalso. apply (N (findInResources path l)); [|assumption].
    rewrite E at 2. apply in_or_app. right. now left.
  - intros (r & I & F). rewrite Forall_forall in B. now destruct (B r I).
  - intros _. exact Z.
Qed.

Lemma findInResources_exact_or_zero_witness :
  (exists before after,
      [sample.logs; sample.main; sample.stale]
      = (before
         ++ findInResources "main" [sample.logs; sample.main; sample.stale]
         :: after)%list
      /\ Filename
           (findInResources "main" [sample.logs; sample.main; sample.stale])
         = "main"%string
      /\ Forall (fun r => Filename r <> "main"%string) before)
  /\ findInResources "Main" [sample.logs; sample.main; sample.stale]
     = {| Filename := ""; Mode := 0; SHA1 := ""; Size := 0 |}.
Proof.
  split.
  - apply (proj1 (findInResources_exact_or_zero "main"
                    [sample.logs; sample.main; sample.stale])).
    exists sample.main. split; [simpl; tauto | reflexivity].
  - apply (proj2 (findInResources_exact_or_zero "Main"
                    [sample.logs; sample.main; sample.stale])).
    intros r [<-|[<-|[<-|[]]]]; vm_compute; discriminate.
Defined.

(** ** The archive scan *)

Lemma gatherArchiveFiles_spec (Separator : ascii) (files : list zip.File) :
  forall resources,
    Forall archiveEntryReads files ->
    exists found,
      gatherArchiveFiles Separator files resources
      = ((resources ++ found)%list, None)
      /\ Forall2 (scannedFromArchive Separator) files found.
Proof.
  induction files as [|f files IH]; intros resources R;
    cbn [gatherArchiveFiles].
  - exists []. rewrite app_nil_r. split; [reflexivity | constructor].
  - inversion R as [|? ? Rf Rfs]; subst.
    destruct (os.IsDir (zip.FileInfo f)) eqn:D.
    + destruct (IH (resources
                    ++ [{| Filename := filepath.ToSlash Separator
                                         (zip.Name (zip.Header f));
                           Mode := DefaultFolderPermissions;
                           SHA1 := ""; Size := 0 |}])%list Rfs)
        as (found & E & H).
      eexists (_ :: found). rewrite E, <- app_assoc. split; [reflexivity|].
      constructor; [|assumption]. unfold scannedFromArchive.
      rewrite D. now repeat split.
    + destruct Rf as [Rf|(reader & O & F)]; [congruence|].
      rewrite O, Copy_hash, F.
      destruct (IH (resources
                    ++ [{| Filename := filepath.ToSlash Separator
                                         (zip.Name (zip.Header f));
                           Mode := DefaultArchiveFilePermissions;
                           SHA1 := fmt.Sprintf_x
                                     (sha1.Sum (io.content reader));
                           Size := os.Size (zip.FileInfo f) |}])%list Rfs)
        as (found & E & H).
      eexists (_ :: found). rewrite E, <- app_assoc. split; [reflexivity|].
      constructor; [|assumption]. unfold scannedFromArchive.
      rewrite D. repeat split. exists reader. now split.
Qed.

(** C7: when the archive opens, validates, and every file entry of its
    listing opens and reads without error, [GatherArchiveResources]
    returns no error and one descriptor for each entry, in order, under
    the entry's name with slashes: for a directory entry mode 0755, no
    hash and size zero; for a file entry mode 0744, the entry's size and
    the digest of the content read from it. *)
Theorem archive_scan_descriptors :
  forall Separator archive files,
    newArchiveReader archive = Ok files ->
    Forall archiveEntryReads files ->
    exists resources,
      GatherArchiveResources Separator (Ok archive) = (resources, None)
      /\ Forall2
           (fun f r =>
              Filename r
              = filepath.ToSlash Separator (zip.Name (zip.Header f))
              /\ if os.IsDir (zip.FileInfo f)
                 then Mode r = os.octal 7 5 5 /\ SHA1 r = EmptyString
                      /\ Size r = 0
                 else Mode r = os.octal 7 4 4
                      /\ Size r = zip.UncompressedSize64 (zip.Header f)
                      /\ exists reader,
                          zip.Open f = Ok reader
                          /\ SHA1 r = fingerprint (io.content reader))
           files resources.
Proof.
  intros sep a files R H. unfold GatherArchiveResources. rewrite R.
  destruct (gatherArchiveFiles_spec sep files [] H) as (found & E & F).
  exists found. now rewrite E.
Qed.

Lemma archive_scan_descriptors_witness :
  exists resources,
    GatherArchiveResources "/" sample.source = (resources, None)
    /\ Forall2 (scannedFromArchive "/") (listing sample.source) resources.
Proof.
  apply (archive_scan_descriptors "/"
           {| ykk.Stat := Ok {| os.Size := 1024;
                                os.Mode := os.octal 6 4 4 |};
              ykk.NewReader :=
                fun _ => Ok [sample.d;
                             sample.archived "main" (os.octal 6 4 4)
                               "hello"] |}
           [sample.d; sample.archived "main" (os.octal 6 4 4) "hello"]).
  - reflexivity.
  - constructor; [left; vm_compute; reflexivity|].
    constructor; [|constructor].
    right. eexists. split; reflexivity.
Defined.

(** C6: for a root whose directories hold valid names, each once, and in
    which nothing fails, [GatherDirectoryResources] returns no error and
    exactly one descriptor for each entry below the root, in the order of
    the walk and none for the root itself; the [Filename] of each is the
    names from the root down to the entry joined by slashes, and no two
    descriptors have the same [Filename]. *)
Theorem directory_scan_paths :
  forall Separator fixMode root,
    tree.wellFormed Separator root = true ->
    tree.readable root = true ->
    exists resources,
      GatherDirectoryResources Separator fixMode root = (resources, None)
      /\ map Filename resources
         = map (fun e => tree.slashed (fst e)) (tree.below root)
      /\ NoDup (map Filename resources).
Proof.
  intros sep fixMode root W R.
  exists (scanned sep fixMode [] (tree.below root)).
  split; [now apply GatherDirectoryResources_readable|].
  rewrite (scanned_Filename sep fixMode root W).
  split; [reflexivity | now apply (below_slashed_NoDup sep)].
Qed.

Lemma directory_scan_paths_witness :
  exists resources,
    GatherDirectoryResources "/" (fun m => m) sample.app = (resources, None)
    /\ map Filename resources
       = map (fun e => tree.slashed (fst e)) (tree.below sample.app)
    /\ NoDup (map Filename resources).
Proof.
  apply (directory_scan_paths "/" (fun m => m) sample.app);
    vm_compute; reflexivity.
Defined.

(** C4, where the code departs from it: the scan of a directory whose
    second entry cannot be opened returns the error of that entry, and
    with it the descriptor of the first entry, not an empty list. *)
Theorem directory_scan_partial :
  GatherDirectoryResources "/" (fun m => m) sample.guarded
  = ([{| Filename := "a"; Mode := os.octal 6 4 4;
         SHA1 := "aaf4c61ddcc5e8a2dabede0f3b482cd9aea9434d"; Size := 5 |}],
     Some (SysError (Errno "permission denied"))).
Proof. vm_compute. reflexivity. Qed.

(** ** The packers' post-condition *)

(** C1 (as amended): when [ZipDirectoryResources] returns no error, the
    new archive at the returned location holds exactly one entry for each
    descriptor of the inclusion list, in order, named and moded by the
    descriptor (a directory's name completed with a slash), a file's
    content being the content of the file opened for it, with the
    declared digest.  When [ZipArchiveResources] returns no error, the
    new archive holds exactly one entry for each entry of the source
    archive's listing, in order and under its name, moded by the
    descriptor looked up for it; each file among them is named in the
    inclusion list and its content has the digest declared there. *)
Theorem packers_postcondition :
  (forall filepath_Join os_Open zipFile sourceDir filesToInclude,
      failed (ZipDirectoryResources filepath_Join os_Open zipFile sourceDir
                filesToInclude) = None ->
      exists zf,
        zipFile = Ok zf
        /\ location (ZipDirectoryResources filepath_Join os_Open zipFile
                       sourceDir filesToInclude) = ioutil.Name zf
        /\ Forall2 (packedFromDirectory filepath_Join os_Open sourceDir)
             filesToInclude
             (archive (ZipDirectoryResources filepath_Join os_Open zipFile
                         sourceDir filesToInclude)))
  /\ (forall zipFile source filesToInclude,
         failed (ZipArchiveResources zipFile source filesToInclude) = None ->
         exists zf,
           zipFile = Ok zf
           /\ location (ZipArchiveResources zipFile source filesToInclude)
              = ioutil.Name zf
           /\ Forall2 (packedFromArchive filesToInclude) (listing source)
                (archive (ZipArchiveResources zipFile source filesToInclude))).
Proof.
  split.
  - intros J O zipFile sourceDir incl.
    rewrite ZipDirectoryResources_packCalls. intros F.
    destruct (succeeded_by _ _ _ F) as (zf & -> & L & H).
    exists zf. repeat split; [assumption|].
    eapply Forall2_impl; [|exact H].
    intros r e (c & E & C). eapply complete_packedFromDirectory; eassumption.
  - intros zipFile source incl.
    destruct (ZipArchiveResources_cases zipFile source incl) as [->|[err ->]];
      [|discriminate].
    intros F. destruct (succeeded_by _ _ _ F) as (zf & -> & L & H).
    exists zf. repeat split; [assumption|].
    eapply Forall2_impl; [|exact H].
    intros f e (c & E & C). eapply complete_packedFromArchive; eassumption.
Qed.

Lemma packers_postcondition_witness :
  Forall2 (packedFromDirectory sample.Join sample.Open "app")
    [sample.logs; sample.main]
    (archive (ZipDirectoryResources sample.Join sample.Open
                (Ok sample.zipFile) "app" [sample.logs; sample.main]))
  /\ Forall2 (packedFromArchive [sample.declared_d; sample.main])
       (listing sample.source)
       (archive (ZipArchiveResources (Ok sample.zipFile) sample.source
                   [sample.declared_d; sample.main])).
Proof.
  split.
  - destruct (proj1 packers_postcondition sample.Join sample.Open
                (Ok sample.zipFile) "app"%string [sample.logs; sample.main])
      as (zf & _ & _ & H); [vm_compute; reflexivity | exact H].
  - destruct (proj2 packers_postcondition (Ok sample.zipFile) sample.source
                [sample.declared_d; sample.main])
      as (zf & _ & _ & H); [vm_compute; reflexivity | exact H].
Defined.

(** C1, as stated, fails.  From an archive: the source holds the
    directory [d/] and the file [main], the inclusion list names [main]
    alone, and the new archive holds both entries.  From a directory:
    the descriptor of the directory [logs] declares a hash, the packing
    returns no error, and the entry written has no content at all. *)
Lemma packers_postcondition_counterexample :
  (failed (ZipArchiveResources (Ok sample.zipFile) sample.source
             [sample.main]) = None
   /\ map (fun e => zip.Name (zip.hdr e))
        (archive (ZipArchiveResources (Ok sample.zipFile) sample.source
                    [sample.main]))
      = ["d/"%string; "main"%string]
   /\ map Filename [sample.main] = ["main"%string])
  /\ (failed (ZipDirectoryResources sample.Join sample.Open
                (Ok sample.zipFile) "app" [sample.hashed_logs]) = None
      /\ map (fun e => (zip.Name (zip.hdr e), fingerprint (zip.body e)))
           (archive (ZipDirectoryResources sample.Join sample.Open
                       (Ok sample.zipFile) "app" [sample.hashed_logs]))
         = [("logs/"%string,
             "da39a3ee5e6b4b0d3255bfef95601890afd80709"%string)]
      /\ SHA1 sample.hashed_logs
         = "0000000000000000000000000000000000000000"%string).
Proof. vm_compute. repeat split. Qed.

(** ** Modes when repackaging an archive *)

Lemma archiveCall_mode (filesToInclude : list Resource) (f : zip.File)
  (c : call) :
  archiveCall filesToInclude f = Ok c ->
  mode c = Mode (findInResources (zip.Name (zip.Header f)) filesToInclude)
  /\ sha1Sum c
     = SHA1 (findInResources (zip.Name (zip.Header f)) filesToInclude)
  /\ destPath c = zip.Name (zip.Header f)
  /\ srcPath c = zip.Name (zip.Header f)
  /\ fileInfo c = zip.FileInfo f
  /\ zip.Open f = Ok (srcFile c).
Proof.
  unfold archiveCall. destruct (zip.Open f) as [reader|err]; [|discriminate].
  intros [= <-]. repeat split.
Qed.

Lemma directoryCall_fields (filepath_Join : string -> string -> string)
  (os_Open : string -> result os.File) (sourceDir : string) (r : Resource)
  (c : call) :
  directoryCall filepath_Join os_Open sourceDir r = Ok c ->
  exists file,
    os_Open (filepath_Join sourceDir (Filename r)) = Ok file
    /\ os.Stat file = Ok (fileInfo c)
    /\ srcFile c = os.Body file
    /\ srcPath c = filepath_Join sourceDir (Filename r)
    /\ destPath c = Filename r /\ sha1Sum c = SHA1 r /\ mode c = Mode r.
Proof.
  unfold directoryCall. cbv zeta.
  destruct (os_Open _) as [f|err]; [|discriminate].
  destruct (os.Stat f) as [info|err] eqn:S; [|discriminate].
  intros [= <-]. exists f. repeat split. exact S.
Qed.

(** C3 (as amended): every entry [ZipArchiveResources] writes, directory
    or file, is written with the mode of the descriptor that
    [findInResources] returns for the entry's name: the mode declared in
    the inclusion list, or the zero mode when the list does not name the
    entry.  The entries written are those of the first entries of the
    source listing, all of them when no error is returned. *)
Theorem archive_modes_from_descriptors :
  forall zipFile source filesToInclude,
  exists done rest,
    listing source = (done ++ rest)%list
    /\ Forall2
         (fun f e =>
            zip.attrMode (zip.hdr e)
            = Mode (findInResources (zip.Name (zip.Header f)) filesToInclude))
         done (archive (ZipArchiveResources zipFile source filesToInclude))
    /\ (failed (ZipArchiveResources zipFile source filesToInclude) = None
        -> rest = []).
Proof.
  intros zipFile source incl.
  destruct (ZipArchiveResources_cases zipFile source incl) as [->|[err ->]].
  - destruct (written_by (archiveCall incl) (listing source) zipFile)
      as (done & rest & L & H & R).
    exists done, rest. repeat split; try assumption.
    eapply Forall2_impl; [|exact H].
    intros f e (c & E & Hh). rewrite Hh.
    now destruct (archiveCall_mode _ _ _ E) as [<- _].
  - exists [], (listing source). repeat split; [constructor | discriminate].
Qed.

(** C3, as stated, fails: the directory [d/] has mode 0700 in the source
    archive and is declared with mode 0755; the new archive has it with
    mode 0755. *)
Lemma archive_modes_counterexample :
  exists e,
    archive (ZipArchiveResources (Ok sample.zipFile)
               (sample.opened [sample.d]) [sample.declared_d]) = [e]
    /\ os.IsDir (zip.FileInfo sample.d) = true
    /\ zip.Mode (zip.Header sample.d) = Z.lor os.ModeDir (os.octal 7 0 0)
    /\ zip.Mode (zip.hdr e) = Z.lor os.ModeDir (os.octal 7 5 5)
    /\ zip.Mode (zip.hdr e) <> zip.Mode (zip.Header sample.d).
Proof.
  eexists. split; [vm_compute; reflexivity|].
  vm_compute. repeat split. discriminate.
Qed.

(** ** Names and compression *)

(** C9: the header of every entry either packer creates asks for the
    deflate method; the entry made for a directory has a name that ends
    in a slash (the name given, with the slash added when it lacks one),
    and the entry made for a file has the name given.  The entries
    written are those of the first entries of the source listing, or of
    the first descriptors of the inclusion list. *)
Theorem entries_named_and_deflated :
  (forall zipFile source filesToInclude,
      exists done rest,
        listing source = (done ++ rest)%list
        /\ Forall2
             (fun f e =>
                zip.Method (zip.hdr e) = zip.Deflate
                /\ zip.Name (zip.hdr e)
                   = entryName (os.IsDir (zip.FileInfo f))
                       (zip.Name (zip.Header f))
                /\ if os.IsDir (zip.FileInfo f)
                   then strings.HasSuffix (zip.Name (zip.hdr e)) "/" = true
                   else zip.Name (zip.hdr e) = zip.Name (zip.Header f))
             done
             (archive (ZipArchiveResources zipFile source filesToInclude)))
  /\ (forall filepath_Join os_Open zipFile sourceDir filesToInclude,
         exists done rest,
           filesToInclude = (done ++ rest)%list
           /\ Forall2
                (fun r e =>
                   exists file info,
                     os_Open (filepath_Join sourceDir (Filename r)) = Ok file
                     /\ os.Stat file = Ok info
                     /\ zip.Method (zip.hdr e) = zip.Deflate
                     /\ zip.Name (zip.hdr e)
                        = entryName (os.IsDir info) (Filename r)
                     /\ if os.IsDir info
                        then strings.HasSuffix (zip.Name (zip.hdr e)) "/"
                             = true
                        else zip.Name (zip.hdr e) = Filename r)
                done
                (archive (ZipDirectoryResources filepath_Join os_Open zipFile
                            sourceDir filesToInclude))).
Proof.
  split.
  - intros zipFile source incl.
    destruct (ZipArchiveResources_cases zipFile source incl) as [->|[err ->]].
    + destruct (written_by (archiveCall incl) (listing source) zipFile)
        as (done & rest & L & H & _).
      exists done, rest. split; [assumption|].
      eapply Forall2_impl; [|exact H].
      intros f e (c & E & Hh). rewrite Hh.
      destruct (archiveCall_mode _ _ _ E) as (_ & _ & Dp & _ & Fi & _).
      rewrite headerOf_Name, Dp, Fi. repeat split.
      destruct (os.IsDir (zip.FileInfo f)); [apply entryName_dir | reflexivity].
    + exists [], (listing source). split; [reflexivity | constructor].
  - intros J O zipFile sourceDir incl.
    rewrite ZipDirectoryResources_packCalls.
    destruct (written_by (directoryCall J O sourceDir) incl zipFile)
      as (done & rest & L & H & _).
    exists done, rest. split; [assumption|].
    eapply Forall2_impl; [|exact H].
    intros r e (c & E & Hh). rewrite Hh.
    destruct (directoryCall_fields _ _ _ _ _ E)
      as (file & Op & St & _ & _ & Dp & _).
    exists file, (fileInfo c). rewrite headerOf_Name, Dp. repeat split;
      try assumption.
    destruct (os.IsDir (fileInfo c)); [apply entryName_dir | reflexivity].
Qed.

(** ** Verification while copying *)

(** C2: the one copy of a call on a file gives every chunk it reads to
    the hash and to the entry, so that a copy that ends without error
    has hashed exactly the bytes it has written, the content of the
    source, and the call compares their digest with the declared one as
    soon as the copy ends: the call returns no error only if the entry
    holds the whole content of the source and its digest is the declared
    one, and whenever the copy meets no refusal and no read error the
    call returns no error if the digests agree and [FileChangedError]
    with the source's path if they differ.  So a packer that returns no
    error has written only files whose digest is the declared one, and
    the first file whose digest differs, when nothing before it fails,
    makes the packer return [FileChangedError] naming that file, and no
    location. *)
Theorem hash_verified_while_copying :
  (forall (src : io.Reader) (sum sum' : sha1.Hash)
          (destFileWriter destFileWriter' : zip.fileWriter),
      io.Copy (sum, destFileWriter) src = ((sum', destFileWriter'), None) ->
      sum' = (sum ++ io.content src)%list
      /\ zip.written destFileWriter'
         = (zip.written destFileWriter ++ io.content src)%list)
  /\ (forall srcPath srcFile fileInfo destPath sha1Sum mode zipFile,
      os.IsDir fileInfo = false ->
      (forall zipFile',
          addFileToZipFromFileSystem srcPath srcFile fileInfo destPath
            sha1Sum mode zipFile = (zipFile', None) ->
          exists e,
            zip.dir zipFile' = (zip.dir zipFile ++ [e])%list
            /\ zip.body e = io.content srcFile
            /\ fingerprint (zip.body e) = sha1Sum)
      /\ (accepting (zip.sink zipFile) -> io.failure srcFile = None ->
          snd (addFileToZipFromFileSystem srcPath srcFile fileInfo destPath
                 sha1Sum mode zipFile)
          = if String.eqb sha1Sum (fingerprint (io.content srcFile))
            then None else Some (FileChangedError srcPath)))
  /\ (forall zipFile source filesToInclude,
         (failed (ZipArchiveResources zipFile source filesToInclude) = None ->
          Forall2
            (fun f e =>
               os.IsDir (zip.FileInfo f) = false ->
               fingerprint (zip.body e)
               = SHA1 (findInResources (zip.Name (zip.Header f))
                         filesToInclude))
            (listing source)
            (archive (ZipArchiveResources zipFile source filesToInclude)))
         /\ (forall zf before f reader after,
                zipFile = Ok zf -> accepting (ioutil.file zf) ->
                listing source = (before ++ f :: after)%list ->
                Forall (archiveEntryPasses filesToInclude) before ->
                os.IsDir (zip.FileInfo f) = false ->
                zip.Open f = Ok reader -> io.failure reader = None ->
                fingerprint (io.content reader)
                <> SHA1 (findInResources (zip.Name (zip.Header f))
                           filesToInclude) ->
                failed (ZipArchiveResources zipFile source filesToInclude)
                = Some (FileChangedError (zip.Name (zip.Header f)))
                /\ location (ZipArchiveResources zipFile source
                               filesToInclude) = EmptyString))
  /\ (forall filepath_Join os_Open zipFile sourceDir filesToInclude,
         (failed (ZipDirectoryResources filepath_Join os_Open zipFile
                    sourceDir filesToInclude) = None ->
          Forall2
            (fun r e =>
               forall file info,
                 os_Open (filepath_Join sourceDir (Filename r)) = Ok file ->
                 os.Stat file = Ok info -> os.IsDir info = false ->
                 zip.body e = io.content (os.Body file)
                 /\ fingerprint (zip.body e) = SHA1 r)
            filesToInclude
            (archive (ZipDirectoryResources filepath_Join os_Open zipFile
                        sourceDir filesToInclude)))
         /\ (forall zf before r file info after,
                zipFile = Ok zf -> accepting (ioutil.file zf) ->
                filesToInclude = (before ++ r :: after)%list ->
                Forall (descriptorPasses filepath_Join os_Open sourceDir)
                  before ->
                os_Open (filepath_Join sourceDir (Filename r)) = Ok file ->
                os.Stat file = Ok info -> os.IsDir info = false ->
                io.failure (os.Body file) = None ->
                fingerprint (io.content (os.Body file)) <> SHA1 r ->
                failed (ZipDirectoryResources filepath_Join os_Open zipFile
                          sourceDir filesToInclude)
                = Some (FileChangedError
                          (filepath_Join sourceDir (Filename r)))
                /\ location (ZipDirectoryResources filepath_Join os_Open
                               zipFile sourceDir filesToInclude)
                   = EmptyString)).
Proof.
  split; [|split; [|split]].
  - intros src sum sum' fw fw'. unfold io.Copy.
    destruct (io.copy_chunks _ _) as [[s1 f1] [e|]] eqn:C; [discriminate|].
    intros E. apply copy_chunks_multi in C.
    destruct C as (_ & _ & p & Hw & Hok). destruct (Hok eq_refl) as [-> ->].
    injection E as <- <- _. now split.
  - intros sp sf fi dp s m w D.
    pose (c := {| srcPath := sp; srcFile := sf; fileInfo := fi;
                  destPath := dp; sha1Sum := s; mode := m |}).
    change (addFileToZipFromFileSystem sp sf fi dp s m w) with (addCall c w).
    split.
    + intros w' H. apply addCall_ok in H. destruct H as (e & -> & _ & B).
      exists e. split; [reflexivity|]. cbn [fileInfo c] in B.
      rewrite D in B. destruct B as (B & _ & S). split; [exact B|].
      exact (eq_sym S).
    + intros A F. now rewrite (addCall_accepting c w A D F).
  - intros zipFile source incl. split.
    + destruct (ZipArchiveResources_cases zipFile source incl)
        as [->|[err ->]]; [|discriminate].
      intros F. destruct (succeeded_by _ _ _ F) as (zf & _ & _ & H).
      eapply Forall2_impl; [|exact H].
      intros f e (c & E & [_ C]) D.
      destruct (archiveCall_mode _ _ _ E) as (_ & <- & _ & _ & Fi & _).
      rewrite Fi, D in C. now destruct C as (_ & _ & ->).
    + intros zf before f reader after -> A L P D O F N.
      destruct (listing_inhabited source) as (a & -> & R).
      { rewrite L. now destruct before. }
      rewrite (ZipArchiveResources_packCalls _ _ _ _ R).
      rewrite L, map_app. cbn [map].
      destruct (passing_calls _ _ P) as (cs & -> & Ps).
      assert (archiveCall incl f
              = Ok {| srcPath := zip.Name (zip.Header f);
                      srcFile := reader; fileInfo := zip.FileInfo f;
                      destPath := zip.Name (zip.Header f);
                      sha1Sum := SHA1 (findInResources
                                         (zip.Name (zip.Header f)) incl);
                      mode := Mode (findInResources
                                      (zip.Name (zip.Header f)) incl) |})
        as ->.
      { unfold archiveCall. now rewrite O. }
      match goal with
      | |- context [(Ok ?c :: _)%list] =>
          apply (packCalls_mismatch zf cs c _ A Ps)
      end; cbn; try assumption.
      congruence.
  - intros J Op zipFile sourceDir incl.
    rewrite ZipDirectoryResources_packCalls. split.
    + intros F. destruct (succeeded_by _ _ _ F) as (zf & _ & _ & H).
      eapply Forall2_impl; [|exact H].
      intros r e (c & E & [_ C]) file info O S D.
      destruct (directoryCall_fields _ _ _ _ _ E)
        as (file' & O' & S' & B & _ & _ & Sh & _).
      rewrite O in O'. injection O' as <-. rewrite S in S'.
      injection S' as ->. rewrite D in C. destruct C as (C & _ & Sc).
      rewrite C, B. split; [reflexivity|]. rewrite <- Sh, Sc, C, B.
      reflexivity.
    + intros zf before r file info after -> A -> P O S D F N.
      rewrite map_app. cbn [map].
      destruct (passing_calls _ _ P) as (cs & -> & Ps).
      assert (directoryCall J Op sourceDir r
              = Ok {| srcPath := J sourceDir (Filename r);
                      srcFile := os.Body file; fileInfo := info;
                      destPath := Filename r; sha1Sum := SHA1 r;
                      mode := Mode r |}) as ->.
      { unfold directoryCall. cbv zeta. now rewrite O, S. }
      match goal with
      | |- context [(Ok ?c :: _)%list] =>
          apply (packCalls_mismatch zf cs c _ A Ps)
      end; cbn; try assumption.
      congruence.
Qed.

Lemma hash_verified_while_copying_witness :
  failed (ZipDirectoryResources sample.Join sample.Open (Ok sample.zipFile)
            "app" [sample.logs; sample.stale])
  = Some (FileChangedError "app/main")
  /\ location (ZipDirectoryResources sample.Join sample.Open
                 (Ok sample.zipFile) "app" [sample.logs; sample.stale])
     = EmptyString.
Proof.
  apply (proj2 (proj2 (proj2 (proj2 hash_verified_while_copying))
                  sample.Join sample.Open (Ok sample.zipFile) "app"%string
                  [sample.logs; sample.stale])
           sample.zipFile [sample.logs] sample.stale
           (sample.regular (os.octal 6 4 4) "hello")
           {| os.Size := 5; os.Mode := os.octal 6 4 4 |} []).
  - reflexivity.
  - split; intros; reflexivity.
  - reflexivity.
  - constructor; [|constructor].
    eexists. split; [vm_compute; reflexivity | vm_compute; exact I].
  - reflexivity.
  - reflexivity.
  - reflexivity.
  - reflexivity.
  - vm_compute. discriminate.
Defined.

(** ** Directories are not verified *)

(** C10: a call of [addFileToZipFromFileSystem] on a directory writes an
    entry without content, whatever digest is declared, and returns the
    same with any other digest, never a [FileChangedError]; so a packer
    that returns [FileChangedError] names the source of a file: an entry
    of the source archive, or the file opened for a descriptor, that is
    not a directory. *)
Theorem directories_never_verified :
  (forall srcPath srcFile fileInfo destPath sha1Sum sha1Sum' mode zipFile,
      os.IsDir fileInfo = true ->
      addFileToZipFromFileSystem srcPath srcFile fileInfo destPath sha1Sum
        mode zipFile
      = addFileToZipFromFileSystem srcPath srcFile fileInfo destPath sha1Sum'
          mode zipFile
      /\ (forall n,
             snd (addFileToZipFromFileSystem srcPath srcFile fileInfo
                    destPath sha1Sum mode zipFile)
             <> Some (FileChangedError n))
      /\ exists added,
          zip.dir (fst (addFileToZipFromFileSystem srcPath srcFile fileInfo
                          destPath sha1Sum mode zipFile))
          = (zip.dir zipFile ++ added)%list
          /\ Forall (fun e => zip.body e = []) added)
  /\ (forall zipFile source filesToInclude n,
         failed (ZipArchiveResources zipFile source filesToInclude)
         = Some (FileChangedError n) ->
         exists f,
           In f (listing source) /\ n = zip.Name (zip.Header f)
           /\ os.IsDir (zip.FileInfo f) = false)
  /\ (forall filepath_Join os_Open zipFile sourceDir filesToInclude n,
         failed (ZipDirectoryResources filepath_Join os_Open zipFile
                   sourceDir filesToInclude)
         = Some (FileChangedError n) ->
         exists r file info,
           In r filesToInclude
           /\ n = filepath_Join sourceDir (Filename r)
           /\ os_Open n = Ok file /\ os.Stat file = Ok info
           /\ os.IsDir info = false).
Proof.
  split; [|split].
  - intros sp sf fi dp s s' m w D.
    unfold addFileToZipFromFileSystem, zip.FileInfoHeader. rewrite D.
    cbn [negb andb]. destruct (zip.CreateHeader _ _) as [fw|err] eqn:C.
    + split; [reflexivity|]. split; [discriminate|].
      exists [{| zip.hdr := zip.header fw; zip.body := zip.written fw |}].
      unfold zip.CreateHeader in C.
      destruct (zip.refuseHeader _ _ _); [discriminate|].
      injection C as <-. split; [reflexivity|]. now constructor.
    + split; [reflexivity|]. split; [discriminate|].
      exists []. split; [now rewrite app_nil_r | constructor].
  - intros zipFile source incl n.
    destruct (ZipArchiveResources_cases zipFile source incl) as [->|[err ->]];
      [|discriminate].
    intros F. apply changed_by in F.
    destruct F as (_ & f & c & I & E & -> & D & _).
    destruct (archiveCall_mode _ _ _ E) as (_ & _ & _ & Sp & Fi & _).
    exists f. rewrite <- Fi. now repeat split.
  - intros J Op zipFile sourceDir incl n.
    rewrite ZipDirectoryResources_packCalls.
    intros F. apply changed_by in F.
    destruct F as (_ & r & c & I & E & -> & D & _).
    destruct (directoryCall_fields _ _ _ _ _ E)
      as (file & O & S & _ & Sp & _).
    exists r, file, (fileInfo c). rewrite Sp. now repeat split.
Qed.

Lemma directories_never_verified_witness :
  ZipDirectoryResources sample.Join sample.Open (Ok sample.zipFile) "app"
    [sample.hashed_logs; sample.main]
  = ZipDirectoryResources sample.Join sample.Open (Ok sample.zipFile) "app"
      [sample.logs; sample.main]
  /\ addFileToZipFromFileSystem "app/logs"
       (os.Body (sample.opendir (os.octal 7 5 5)))
       {| os.Size := 4096; os.Mode := Z.lor os.ModeDir (os.octal 7 5 5) |}
       "logs" (SHA1 sample.hashed_logs) (os.octal 7 5 5)
       (zip.NewWriter sample.lenient)
     = addFileToZipFromFileSystem "app/logs"
         (os.Body (sample.opendir (os.octal 7 5 5)))
         {| os.Size := 4096; os.Mode := Z.lor os.ModeDir (os.octal 7 5 5) |}
         "logs" EmptyString (os.octal 7 5 5) (zip.NewWriter sample.lenient).
Proof.
  split; [vm_compute; reflexivity|].
  apply (proj1 directories_never_verified). vm_compute. reflexivity.
Defined.

(** C8.  The round trip at a directory that holds a symbolic link.  The
    directory [app] holds [current], a link to a file of five bytes whose
    path has two.  [GatherDirectoryResources] describes [current] with the
    hash of the five bytes it reads through the link and with the size of
    the link, two, that [Lstat] reports; packing the directory with this
    descriptor returns no error; and [GatherArchiveResources] on the new
    archive describes [current] with the same hash and the size five: the
    sizes of the two scans differ. *)
Theorem scan_pack_scan_of_a_link :
  exists r r',
    GatherDirectoryResources "/" (fun m => m) sample.linked = ([r], None)
    /\ failed (ZipDirectoryResources sample.Join sample.OpenLinked
                 (Ok sample.zipFile) "app" [r]) = None
    /\ GatherArchiveResources "/"
         (reopened
            (archive (ZipDirectoryResources sample.Join sample.OpenLinked
                        (Ok sample.zipFile) "app" [r])))
       = ([r'], None)
    /\ Filename r' = Filename r /\ SHA1 r' = SHA1 r
    /\ SHA1 r = "aaf4c61ddcc5e8a2dabede0f3b482cd9aea9434d"%string
    /\ Size r = 2 /\ Size r' = 5.
Proof.
  do 2 eexists. split; [vm_compute; reflexivity|].
  split; [vm_compute; reflexivity|].
  split; [vm_compute; reflexivity|].
  vm_compute. repeat split.
Qed.

(** * Further properties of the package *)

(** ** The archive scan: every outcome *)

Lemma gatherArchiveFiles_outcomes (Separator : ascii)
  (files : list zip.File) :
  forall resources,
    (exists found,
        gatherArchiveFiles Separator files resources
        = ((resources ++ found)%list, None)
        /\ Forall archiveEntryReads files
        /\ Forall2 (scannedFromArchive Separator) files found)
    \/ (exists err,
          gatherArchiveFiles Separator files resources
          = ([], Some (SysError err))).
Proof.
  induction files as [|f files IH]; intros resources;
    cbn [gatherArchiveFiles].
  - left. exists []. rewrite app_nil_r.
    split; [reflexivity | split; constructor].
  - destruct (os.IsDir (zip.FileInfo f)) eqn:D.
    + match goal with
      | |- context [gatherArchiveFiles _ _ ?acc] =>
          destruct (IH acc) as [(found & E & R & H)|(err & E)]
      end.
      * left. eexists (_ :: found). rewrite E, <- app_assoc.
        split; [reflexivity|]. split.
        -- constructor; [now left | assumption].
        -- constructor; [|assumption]. unfold scannedFromArchive.
           rewrite D. now repeat split.
      * right. exists err. exact E.
    + destruct (zip.Open f) as [reader|err] eqn:O;
        [|right; now exists err].
      rewrite Copy_hash.
      destruct (io.failure reader) as [err|] eqn:F;
        [right; now exists err|].
      match goal with
      | |- context [gatherArchiveFiles _ _ ?acc] =>
          destruct (IH acc) as [(found & E & R & H)|(err & E)]
      end.
      * left. eexists (_ :: found). rewrite E, <- app_assoc.
        split; [reflexivity|]. split.
        -- constructor; [|assumption]. right. exists reader. now split.
        -- constructor; [|assumption]. unfold scannedFromArchive.
           rewrite D. repeat split. exists reader. now split.
      * right. exists err. exact E.
Qed.

(** X1.  [GatherArchiveResources] is all or nothing.  Either it returns
    no error, and then the archive opened, its listing validated, every
    entry of the listing is a directory or was opened and read to its end,
    and there is exactly one descriptor per entry, in order; or it returns
    an error of the system (never a [FileChangedError]) together with no
    descriptor at all, however many entries were read before the failure. *)
Theorem archive_scan_all_or_nothing :
  forall Separator archive,
    (exists a files resources,
        archive = Ok a /\ newArchiveReader a = Ok files
        /\ GatherArchiveResources Separator archive = (resources, None)
        /\ Forall archiveEntryReads files
        /\ Forall2 (scannedFromArchive Separator) files resources)
    \/ (exists err,
          GatherArchiveResources Separator archive
          = ([], Some (SysError err))).
Proof.
  intros Separator [a|err]; [|right; now exists err].
  unfold GatherArchiveResources.
  destruct (newArchiveReader a) as [files|err] eqn:N;
    [|right; now exists err].
  destruct (gatherArchiveFiles_outcomes Separator files [])
    as [(found & E & R & H)|(err & E)].
  - left. exists a, files, found. now repeat split.
  - right. now exists err.
Qed.

Lemma gatherArchiveFiles_app (Separator : ascii) (before : list zip.File) :
  forall after resources,
    Forall archiveEntryReads before ->
    exists found,
      gatherArchiveFiles Separator (before ++ after) resources
      = gatherArchiveFiles Separator after (resources ++ found)%list
      /\ Forall2 (scannedFromArchive Separator) before found.
Proof.
  induction before as [|f before IH]; intros after resources R.
  - exists []. rewrite app_nil_r. split; [reflexivity | constructor].
  - inversion R as [|? ? Rf Rfs]; subst.
    cbn [app gatherArchiveFiles].
    destruct (os.IsDir (zip.FileInfo f)) eqn:D.
    + match goal with
      | |- context [gatherArchiveFiles _ _ ?acc] =>
          destruct (IH after acc Rfs) as (found & E & H)
      end.
      eexists (_ :: found). rewrite E, <- app_assoc.
      split; [reflexivity|].
      constructor; [|assumption]. unfold scannedFromArchive.
      rewrite D. now repeat split.
    + destruct Rf as [Rf|(reader & O & F)]; [congruence|].
      rewrite O, Copy_hash, F.
      match goal with
      | |- context [gatherArchiveFiles _ _ ?acc] =>
          destruct (IH after acc Rfs) as (found & E & H)
      end.
      eexists (_ :: found). rewrite E, <- app_assoc.
      split; [reflexivity|].
      constructor; [|assumption]. unfold scannedFromArchive.
      rewrite D. repeat split. exists reader. now split.
Qed.

(** X2.  The error [GatherArchiveResources] returns is the first one met,
    in the order of the code: that of [archive.Stat], then that of
    [ykk.NewReader]; then, the entries before it being directories or
    read to their end, that of opening the first file entry that does not
    open, or of reading the first one whose content does not read to its
    end.  No descriptor comes with it. *)
Theorem archive_scan_first_failure :
  forall Separator a err,
    ykk.Stat a = Err err
    \/ (exists info, ykk.Stat a = Ok info
                     /\ ykk.NewReader a (os.Size info) = Err err)
    \/ (exists before f after,
           newArchiveReader a = Ok (before ++ f :: after)%list
           /\ Forall archiveEntryReads before
           /\ os.IsDir (zip.FileInfo f) = false
           /\ (zip.Open f = Err err
               \/ exists reader,
                   zip.Open f = Ok reader
                   /\ io.failure reader = Some err)) ->
    GatherArchiveResources Separator (Ok a) = ([], Some (SysError err)).
Proof.
  intros Separator a err
    [S|[(info & S & N)|(before & f & after & N & R & D & O)]];
    unfold GatherArchiveResources, newArchiveReader in *.
  - now rewrite S.
  - now rewrite S, N.
  - rewrite N.
    destruct (gatherArchiveFiles_app Separator before (f :: after) [] R)
      as (found & E & _).
    rewrite E. cbn [gatherArchiveFiles]. rewrite D.
    destruct O as [O|(reader & O & F)].
    + now rewrite O.
    + now rewrite O, Copy_hash, F.
Qed.

Lemma archive_scan_first_failure_witness :
  GatherArchiveResources "/"
    (Ok {| ykk.Stat := Ok {| os.Size := 1024; os.Mode := os.octal 6 4 4 |};
           ykk.NewReader :=
             fun _ =>
               Ok [sample.d;
                   sample.archived "main" (os.octal 6 4 4) "hello";
                   {| zip.Header := zip.Header
                                      (sample.archived "torn"
                                         (os.octal 6 4 4) "hello");
                      zip.Open :=
                        Ok {| io.chunks := [[x68; x65]%byte];
                              io.failure :=
                                Some (Errno "unexpected EOF") |} |};
                   sample.archived "z" (os.octal 6 4 4) ""] |})
  = ([], Some (SysError (Errno "unexpected EOF"))).
Proof.
  apply archive_scan_first_failure.
  right. right.
  exists [sample.d; sample.archived "main" (os.octal 6 4 4) "hello"].
  eexists. exists [sample.archived "z" (os.octal 6 4 4) ""].
  split; [reflexivity|].
  split.
  - constructor; [left; vm_compute; reflexivity|].
    constructor; [|constructor].
    right. eexists. split; reflexivity.
  - split; [vm_compute; reflexivity|].
    right. eexists. split; reflexivity.
Defined.

Lemma gatherArchiveFiles_directories (Separator : ascii)
  (files : list zip.File) :
  forall files' resources,
    Forall2
      (fun f f' =>
         zip.Header f' = zip.Header f
         /\ (os.IsDir (zip.FileInfo f) = false -> zip.Open f' = zip.Open f))
      files files' ->
    gatherArchiveFiles Separator files' resources
    = gatherArchiveFiles Separator files resources.
Proof.
  induction files as [|f files IH]; intros files' resources H;
    inversion H as [|? f' ? fs' [Hh Ho] Hs]; subst; [reflexivity|].
  cbn [gatherArchiveFiles].
  assert (I : zip.FileInfo f' = zip.FileInfo f)
    by (unfold zip.FileInfo; now rewrite Hh).
  rewrite I, Hh.
  destruct (os.IsDir (zip.FileInfo f)) eqn:D.
  - now apply IH.
  - rewrite (Ho eq_refl).
    destruct (zip.Open f) as [reader|]; [|reflexivity].
    destruct (io.Copy sha1.New reader) as [hash [e|]]; [reflexivity|].
    now apply IH.
Qed.

(** X3.  [GatherArchiveResources] never opens a directory entry: two
    archives whose listings carry the same headers, and whose file entries
    open alike, are scanned alike, whatever opening their directory
    entries would answer. *)
Theorem archive_scan_never_opens_directories :
  forall Separator a a' files files',
    newArchiveReader a = Ok files ->
    newArchiveReader a' = Ok files' ->
    Forall2
      (fun f f' =>
         zip.Header f' = zip.Header f
         /\ (os.IsDir (zip.FileInfo f) = false -> zip.Open f' = zip.Open f))
      files files' ->
    GatherArchiveResources Separator (Ok a')
    = GatherArchiveResources Separator (Ok a).
Proof.
  intros Separator a a' files files' N N' H.
  unfold GatherArchiveResources. rewrite N, N'.
  now apply gatherArchiveFiles_directories.
Qed.

Lemma archive_scan_never_opens_directories_witness :
  GatherArchiveResources "/"
    (sample.opened
       [{| zip.Header := zip.Header sample.d;
           zip.Open := Err (Errno "unexpected EOF") |};
        sample.archived "main" (os.octal 6 4 4) "hello"])
  = GatherArchiveResources "/" sample.source.
Proof.
  apply (archive_scan_never_opens_directories "/" _ _
           [sample.d; sample.archived "main" (os.octal 6 4 4) "hello"]
           [{| zip.Header := zip.Header sample.d;
               zip.Open := Err (Errno "unexpected EOF") |};
            sample.archived "main" (os.octal 6 4 4) "hello"]).
  - reflexivity.
  - reflexivity.
  - constructor.
    + split; [reflexivity|]. vm_compute. discriminate.
    + constructor; [|constructor]. split; reflexivity.
Defined.

(** ** The directory scan: every outcome *)

Section AnyScan.

Variable Separator : ascii.
Variable fixMode : Z -> Z.

Let walkFn := gatherWalkFn Separator fixMode.
Let describe := described Separator fixMode.

(** The callback on an entry below the root: its descriptor is appended,
    or a file that does not open or read to its end gives its error. *)
Lemma walkFn_outcome (path : list string) (n : filepath.node)
  (info : os.FileInfo) (resources : list Resource) :
  path <> [] -> tree.named Separator path ->
  filepath.Lstat n = Ok info ->
  walkFn resources path n info None
  = ((resources ++ [describe path n])%list, None)
  \/ (os.IsDir info = false
      /\ exists err,
          walkFn resources path n info None
          = (resources, Some (SysError err))).
Proof.
  intros Ne V L. unfold walkFn, gatherWalkFn, filepath.Rel.
  destruct path as [|name path]; [now destruct Ne|].
  rewrite (Join_not_dot Separator) by (assumption || discriminate).
  unfold describe, described. rewrite L.
  destruct (os.IsDir info) eqn:D.
  - left. now destruct (filepath.Open n).
  - destruct (filepath.Open n) as [file|err];
      [|right; split; [reflexivity | now exists err]].
    rewrite Copy_hash.
    destruct (io.failure (os.Body file)) as [err|];
      [right; split; [reflexivity | now exists err]|].
    now left.
Qed.

Lemma own_below (path : list string) (name : string) (n : filepath.node) :
  own Separator fixMode (path ++ [name]) n
  = [describe (path ++ [name])%list n].
Proof. unfold own. now destruct path. Qed.

Lemma walkNames_any (path : list string)
  (names : list (string * filepath.node)) :
  tree.named Separator path ->
  Forall
    (fun nc =>
       forall path info st,
         filepath.Lstat (snd nc) = Ok info ->
         tree.wellFormed Separator (snd nc) = true ->
         tree.named Separator path ->
         walked Separator fixMode path (snd nc) st
           (filepath.walk walkFn path (snd nc) info st)) names ->
  (forall name child,
      In (name, child) names ->
      tree.validName Separator name = true
      /\ tree.wellFormed Separator child = true) ->
  forall st,
    exists pre rest,
      fst (filepath.walkNames
             (fun filename child => filepath.walk walkFn filename child)
             walkFn path names st) = (st ++ pre)%list
      /\ scanned Separator fixMode path (flat_map tree.block names)
         = (pre ++ rest)%list
      /\ (snd (filepath.walkNames
                 (fun filename child => filepath.walk walkFn filename child)
                 walkFn path names st) = None -> rest = [])
      /\ (forall e,
             snd (filepath.walkNames
                    (fun filename child =>
                       filepath.walk walkFn filename child)
                    walkFn path names st) = Some e ->
             exists err, e = SysError err).
Proof.
  intros Vp. induction names as [|[name child] names IHn]; intros IH H st.
  - exists [], []. cbn. rewrite app_nil_r. repeat split; discriminate.
  - inversion IH as [|? ? IHc IHr]; subst. cbn [snd] in IHc.
    destruct (H name child (or_introl eq_refl)) as (Vn & Wc).
    assert (Vp' : tree.named Separator (path ++ [name])).
    { apply Forall_app. split; [assumption | now repeat constructor]. }
    cbn [filepath.walkNames flat_map].
    rewrite scanned_app, scanned_block.
    destruct (filepath.Lstat child) as [fileInfo|err] eqn:L.
    + destruct (IHc (path ++ [name])%list fileInfo st eq_refl Wc Vp')
        as (prec & restc & E & S & Hn & Hs).
      rewrite own_below in S. cbn [app] in S.
      destruct (filepath.walk walkFn (path ++ [name]) child fileInfo st)
        as [st' [x|]]; cbn [fst snd] in *.
      * exists prec,
          (restc ++ scanned Separator fixMode path
                      (flat_map tree.block names))%list.
        split; [assumption|]. split.
        -- fold describe. rewrite S. now rewrite app_assoc.
        -- split; [discriminate | assumption].
      * rewrite (Hn eq_refl), app_nil_r in S. subst st'.
        destruct (IHn IHr (fun n c I => H n c (or_intror I)) (st ++ prec)%list)
          as (pren & restn & En & Sn & Hnn & Hsn).
        exists (prec ++ pren)%list, restn.
        split; [now rewrite En, app_assoc|]. split.
        -- fold describe. rewrite S, Sn. now rewrite app_assoc.
        -- split; assumption.
    + exists []. eexists. cbn. rewrite app_nil_r.
      split; [reflexivity|]. split; [reflexivity|].
      split; [discriminate|].
      intros e X. inversion X. now exists err.
Qed.

Lemma walk_any (n : filepath.node) :
  forall path info st,
    filepath.Lstat n = Ok info ->
    tree.wellFormed Separator n = true ->
    tree.named Separator path ->
    walked Separator fixMode path n st (filepath.walk walkFn path n info st).
Proof.
  induction n as [l o d IH] using tree.node_ind.
  intros path info st L W V. unfold walked. rewrite walk_eq.
  assert (E : walkFn st path (filepath.Node l o d) info None
              = ((st ++ own Separator fixMode path
                          (filepath.Node l o d))%list, None)
              \/ (os.IsDir info = false
                  /\ exists err,
                      walkFn st path (filepath.Node l o d) info None
                      = (st, Some (SysError err)))).
  { destruct path as [|name path].
    - left. cbn [own]. now rewrite app_nil_r.
    - apply walkFn_outcome; try assumption. discriminate. }
  destruct E as [E|(D & err & E)]; rewrite E.
  - destruct (os.IsDir info) eqn:D; cbn [negb].
    + cbn in L. subst l. destruct d as [names|err]; cbn [filepath.readDirNames].
      * rewrite (below_dir _ _ _ D).
        destruct (wellFormed_names _ _ _ _ W) as [_ Wn].
        destruct (walkNames_any path names V IH Wn
                    (st ++ own Separator fixMode path
                             (filepath.Node (Ok info) o (Ok names)))%list)
          as (pre & rest & En & Sn & Hn & Hs).
        exists (own Separator fixMode path
                  (filepath.Node (Ok info) o (Ok names)) ++ pre)%list, rest.
        split; [now rewrite En, app_assoc|].
        split; [now rewrite Sn, app_assoc|]. split; assumption.
      * exists (own Separator fixMode path
                  (filepath.Node (Ok info) o (Err err))), [].
        cbn. rewrite !app_nil_r.
        split; [reflexivity|]. split; [reflexivity|].
        split; [discriminate|].
        intros e X. inversion X. now exists err.
    + rewrite (below_leaf _ info L D).
      exists (own Separator fixMode path (filepath.Node l o d)), [].
      cbn [fst snd]. rewrite !app_nil_r.
      repeat split. discriminate.
  - rewrite (below_leaf _ info L D).
    exists [], (own Separator fixMode path (filepath.Node l o d)).
    cbn [fst snd app]. rewrite !app_nil_r.
    split; [reflexivity|]. split; [reflexivity|].
    split; [discriminate|].
    intros e X. inversion X. now exists err.
Qed.

End AnyScan.

(** X4.  Whatever fails below a root whose directories hold valid names,
    each once, the descriptors [GatherDirectoryResources] returns are
    those of the first entries of the tree in the order of the walk, with
    the paths of these entries in forward slashes: the scan never skips
    an entry and goes on, and never describes the root.  When no error is
    returned they are the descriptors of all the entries; an error
    returned is one of the system, never a [FileChangedError]. *)
Theorem directory_scan_stops_at_first_failure :
  forall Separator fixMode root,
    tree.wellFormed Separator root = true ->
    exists rest,
      scanned Separator fixMode [] (tree.below root)
      = (fst (GatherDirectoryResources Separator fixMode root) ++ rest)%list
      /\ map (fun e => tree.slashed (fst e)) (tree.below root)
         = (map Filename
              (fst (GatherDirectoryResources Separator fixMode root))
            ++ map Filename rest)%list
      /\ (snd (GatherDirectoryResources Separator fixMode root) = None ->
          rest = [])
      /\ (forall e,
             snd (GatherDirectoryResources Separator fixMode root) = Some e ->
             exists err, e = SysError err).
Proof.
  intros Separator fixMode root W.
  assert (H : exists rest,
             scanned Separator fixMode [] (tree.below root)
             = (fst (GatherDirectoryResources Separator fixMode root)
                ++ rest)%list
             /\ (snd (GatherDirectoryResources Separator fixMode root) = None
                 -> rest = [])
             /\ (forall e,
                    snd (GatherDirectoryResources Separator fixMode root)
                    = Some e ->
                    exists err, e = SysError err)).
  { unfold GatherDirectoryResources, filepath.Walk.
    destruct (filepath.Lstat root) as [info|err] eqn:L.
    - destruct (walk_any Separator fixMode root [] info [] L W
                  (Forall_nil _)) as (pre & rest & E & S & Hn & Hs).
      exists rest. cbn [own app] in S, E. rewrite E.
      split; [assumption|]. split; assumption.
    - destruct root as [l o d]. cbn in L. subst l.
      exists []. cbn. split; [reflexivity|]. split; [reflexivity|].
      intros e X. inversion X. now exists err. }
  destruct H as (rest & S & Hn & Hs). exists rest.
  split; [assumption|]. split; [|split; assumption].
  now rewrite <- (scanned_Filename Separator fixMode root W), S, map_app.
Qed.

Lemma directory_scan_stops_at_first_failure_witness :
  exists rest,
    scanned "/" (fun m => m) [] (tree.below sample.guarded)
    = (fst (GatherDirectoryResources "/" (fun m => m) sample.guarded)
       ++ rest)%list
    /\ map (fun e => tree.slashed (fst e)) (tree.below sample.guarded)
       = (map Filename
            (fst (GatherDirectoryResources "/" (fun m => m) sample.guarded))
          ++ map Filename rest)%list
    /\ (snd (GatherDirectoryResources "/" (fun m => m) sample.guarded) = None
        -> rest = [])
    /\ (forall e,
           snd (GatherDirectoryResources "/" (fun m => m) sample.guarded)
           = Some e ->
           exists err, e = SysError err).
Proof.
  apply (directory_scan_stops_at_first_failure "/" (fun m => m)
           sample.guarded).
  vm_compute. reflexivity.
Defined.

(** ** The directory scan: the root, and what every descriptor looks like *)

(** X5.  [GatherDirectoryResources] asks [Lstat] about its root and never
    follows it: a root that is missing gives the error of [Lstat] and no
    descriptor; a root that is not a directory (a regular file, or a
    symbolic link, also one to a directory) gives no descriptor and no
    error, whatever opening it or listing it would answer. *)
Theorem directory_scan_root :
  forall Separator fixMode lstat opened readdir,
    match lstat with
    | Err err =>
        GatherDirectoryResources Separator fixMode
          (filepath.Node lstat opened readdir)
        = ([], Some (SysError err))
    | Ok info =>
        os.IsDir info = false ->
        GatherDirectoryResources Separator fixMode
          (filepath.Node lstat opened readdir)
        = ([], None)
    end.
Proof.
  intros Separator fixMode [info|err] opened readdir;
    unfold GatherDirectoryResources, filepath.Walk;
    cbn [filepath.Lstat]; [|reflexivity].
  intros D. rewrite walk_eq, (walkFn_root Separator fixMode), D.
  reflexivity.
Qed.

Lemma directory_scan_root_witness :
  GatherDirectoryResources "/" (fun m => m)
    (filepath.Node
       (Ok {| os.Size := 3; os.Mode := Z.lor (2 ^ 27) (os.octal 7 7 7) |})
       (Ok (sample.opendir (os.octal 7 5 5)))
       (Ok [("main"%string, sample.file (os.octal 6 4 4) "hello")]))
  = ([], None).
Proof.
  apply (directory_scan_root "/" (fun m => m)
           (Ok {| os.Size := 3;
                  os.Mode := Z.lor (2 ^ 27) (os.octal 7 7 7) |})).
  vm_compute. reflexivity.
Defined.

(** An invariant of the state a callback threads through a walk holds of
    what the walk returns. *)
Lemma walkNames_invariant {S : Type} (Inv : S -> Prop)
  (f : filepath.WalkFunc S) (path : list string)
  (names : list (string * filepath.node)) :
  (forall st path n info err,
      Inv st -> Inv (fst (f st path n info err))) ->
  Forall
    (fun nc =>
       forall path info st,
         Inv st -> Inv (fst (filepath.walk f path (snd nc) info st)))
    names ->
  forall st,
    Inv st ->
    Inv (fst (filepath.walkNames
                (fun filename child => filepath.walk f filename child)
                f path names st)).
Proof.
  intros Hf. induction names as [|[name child] names IHn]; intros IH st I;
    [assumption|].
  inversion IH as [|? ? IHc IHr]; subst. cbn [snd] in IHc.
  cbn [filepath.walkNames].
  destruct (filepath.Lstat child) as [fileInfo|err].
  - specialize (IHc (path ++ [name])%list fileInfo st I).
    destruct (filepath.walk f (path ++ [name]) child fileInfo st)
      as [st' [x|]]; cbn [fst] in *; [assumption|].
    now apply IHn.
  - specialize (Hf st (path ++ [name])%list child filepath.nilInfo
                  (Some err) I).
    destruct (f st (path ++ [name])%list child filepath.nilInfo (Some err))
      as [st' [x|]]; cbn [fst] in *; [assumption|].
    now apply IHn.
Qed.

Lemma walk_invariant {S : Type} (Inv : S -> Prop)
  (f : filepath.WalkFunc S) :
  (forall st path n info err,
      Inv st -> Inv (fst (f st path n info err))) ->
  forall n path info st,
    Inv st -> Inv (fst (filepath.walk f path n info st)).
Proof.
  intros Hf. induction n as [l o d IH] using tree.node_ind.
  intros path info st I. rewrite walk_eq.
  pose proof (Hf st path (filepath.Node l o d) info None I) as I1.
  destruct (f st path (filepath.Node l o d) info None) as [st1 [x|]];
    cbn [fst] in *; [assumption|].
  destruct (negb (os.IsDir info)); [assumption|].
  destruct d as [names|err]; cbn [filepath.readDirNames].
  - now apply walkNames_invariant.
  - now apply Hf.
Qed.

Lemma gatherWalkFn_appends (Separator : ascii) (fixMode : Z -> Z)
  (resources : list Resource) (path : list string) (n : filepath.node)
  (info : os.FileInfo) (err : option syserror) :
  fst (gatherWalkFn Separator fixMode resources path n info err) = resources
  \/ exists r,
      fst (gatherWalkFn Separator fixMode resources path n info err)
      = (resources ++ [r])%list
      /\ ((Mode r = os.octal 7 5 5 /\ SHA1 r = EmptyString /\ Size r = 0)
          \/ (Mode r = fixMode (os.Mode info)
              /\ String.length (SHA1 r) = 40%nat
              /\ Size r = os.Size info)).
Proof.
  unfold gatherWalkFn. destruct err as [err|]; [now left|].
  destruct (filepath.Rel Separator path) as [relPath [err|]]; [now left|].
  destruct (String.eqb relPath "."); [now left|].
  destruct (os.IsDir info).
  - right. eexists. split; [reflexivity|]. left. now repeat split.
  - destruct (filepath.Open n) as [file|err]; [|now left].
    rewrite Copy_hash.
    destruct (io.failure (os.Body file)); [now left|].
    right. eexists. split; [reflexivity|]. right.
    cbn [Mode SHA1 Size]. rewrite sha1_hex_length. now repeat split.
Qed.

(** X6.  What a descriptor of a scan looks like, whether the scan ends
    with an error or not.  Either it has the default directory mode 0755,
    no hash and size 0, or it carries a hash of forty characters: then its
    mode is 0744 when it comes from [GatherArchiveResources], and a value
    of [fixMode] when it comes from [GatherDirectoryResources].  So the
    empty hash marks the directories, and no file is described without
    its hash. *)
Theorem scan_descriptor_shape :
  forall Separator fixMode,
    (forall archive,
        Forall
          (fun r =>
             (Mode r = os.octal 7 5 5 /\ SHA1 r = EmptyString /\ Size r = 0)
             \/ (Mode r = os.octal 7 4 4
                 /\ String.length (SHA1 r) = 40%nat))
          (fst (GatherArchiveResources Separator archive)))
    /\ (forall root,
           Forall
             (fun r =>
                (Mode r = os.octal 7 5 5 /\ SHA1 r = EmptyString
                 /\ Size r = 0)
                \/ (String.length (SHA1 r) = 40%nat
                    /\ exists m, Mode r = fixMode m))
             (fst (GatherDirectoryResources Separator fixMode root))).
Proof.
  intros Separator fixMode. split.
  - intros [a|err]; unfold GatherArchiveResources; [|constructor].
    destruct (newArchiveReader a) as [files|err]; [|constructor].
    destruct (gatherArchiveFiles_outcomes Separator files [])
      as [(resources & E & _ & H)|(err & E)];
      rewrite E; cbn [fst app]; [|constructor].
    clear E. induction H as [|f r files resources Hr _ IH]; constructor;
      [|assumption].
    destruct Hr as (_ & Hr). destruct (os.IsDir (zip.FileInfo f)).
    + now left.
    + right. destruct Hr as (M & _ & reader & _ & S).
      split; [assumption|]. rewrite S. apply sha1_hex_length.
  - intros root.
    set (Inv := Forall
                  (fun r =>
                     (Mode r = os.octal 7 5 5 /\ SHA1 r = EmptyString
                      /\ Size r = 0)
                     \/ (String.length (SHA1 r) = 40%nat
                         /\ exists m, Mode r = fixMode m))).
    assert (Hf : forall st path n info err,
               Inv st ->
               Inv (fst (gatherWalkFn Separator fixMode st path n info err))).
    { intros st path n info err I.
      destruct (gatherWalkFn_appends Separator fixMode st path n info err)
        as [E|(r & E & H)]; rewrite E; [assumption|].
      unfold Inv. apply Forall_app. split; [assumption|].
      constructor; [|constructor].
      destruct H as [H|(M & L & _)]; [now left|].
      right. split; [assumption|]. now exists (os.Mode info). }
    unfold GatherDirectoryResources, filepath.Walk.
    destruct (filepath.Lstat root) as [info|err].
    + apply (walk_invariant Inv _ Hf). constructor.
    + apply Hf. constructor.
Qed.

(** ** The packers: when they succeed *)

Lemma complete_passes (c : call) (e : zip.Entry) : complete c e -> passes c.
Proof.
  unfold complete, passes. intros (_ & H).
  destruct (os.IsDir (fileInfo c)); [trivial|].
  destruct H as (B & F & S). rewrite B in S. now split.
Qed.

Lemma lenient_accepting : accepting sample.lenient.
Proof. split; intros; reflexivity. Qed.

Lemma packCalls_iff {A : Type} (f : A -> result call) (l : list A)
  (zf : ioutil.TempFile) :
  accepting (ioutil.file zf) ->
  failed (packCalls (Ok zf) (map f l)) = None
  <-> Forall (fun a => exists c, f a = Ok c /\ passes c) l.
Proof.
  intros A'. split.
  - intros F. destruct (succeeded_by f l (Ok zf) F) as (zf' & _ & _ & H).
    clear F. induction H as [|a e l' es (c & E & C) _ IH];
      [constructor|]. constructor; [|assumption].
    exists c. split; [assumption|]. now apply (complete_passes c e).
  - intros H. destruct (passing_calls f l H) as (cs & M & P).
    rewrite M. now apply packCalls_passes.
Qed.

(** X7.  Over a temporary file that accepts every write,
    [ZipDirectoryResources] returns no error exactly when every descriptor
    of the inclusion list passes: its file opens and answers [Stat], and
    is a directory, or a file that reads to its end with the declared
    hash.  Nothing else can make it fail, and nothing less lets it
    succeed: not the order of the list, not a name listed twice, not a
    size or a mode. *)
Theorem directory_pack_succeeds_iff :
  forall filepath_Join os_Open zf sourceDir filesToInclude,
    accepting (ioutil.file zf) ->
    failed (ZipDirectoryResources filepath_Join os_Open (Ok zf) sourceDir
              filesToInclude) = None
    <-> Forall (descriptorPasses filepath_Join os_Open sourceDir)
          filesToInclude.
Proof.
  intros filepath_Join os_Open zf sourceDir filesToInclude A.
  rewrite ZipDirectoryResources_packCalls.
  now apply packCalls_iff.
Qed.

Lemma directory_pack_succeeds_iff_witness :
  failed (ZipDirectoryResources sample.Join sample.Open (Ok sample.zipFile)
            "app" [sample.main; sample.logs; sample.main]) = None
  <-> Forall (descriptorPasses sample.Join sample.Open "app")
        [sample.main; sample.logs; sample.main].
Proof.
  apply (directory_pack_succeeds_iff sample.Join sample.Open sample.zipFile
           "app" [sample.main; sample.logs; sample.main]).
  split; intros; reflexivity.
Defined.

(** X8.  Over a temporary file that accepts every write,
    [ZipArchiveResources] on a source archive that opens and validates
    returns no error exactly when every entry of the source passes: it
    opens, and is a directory, or a file that reads to its end with the
    hash of the descriptor looked up for its name.  The inclusion list
    matters through these lookups only. *)
Theorem archive_pack_succeeds_iff :
  forall zf a files filesToInclude,
    accepting (ioutil.file zf) ->
    newArchiveReader a = Ok files ->
    failed (ZipArchiveResources (Ok zf) (Ok a) filesToInclude) = None
    <-> Forall (archiveEntryPasses filesToInclude) files.
Proof.
  intros zf a files filesToInclude A N.
  rewrite (ZipArchiveResources_packCalls _ _ _ _ N).
  now apply packCalls_iff.
Qed.

Lemma archive_pack_succeeds_iff_witness :
  failed (ZipArchiveResources (Ok sample.zipFile) sample.source
            [sample.main]) = None
  <-> Forall (archiveEntryPasses [sample.main])
        [sample.d; sample.archived "main" (os.octal 6 4 4) "hello"].
Proof.
  apply (archive_pack_succeeds_iff sample.zipFile
           {| ykk.Stat := Ok {| os.Size := 1024;
                                os.Mode := os.octal 6 4 4 |};
              ykk.NewReader :=
                fun _ => Ok [sample.d;
                             sample.archived "main" (os.octal 6 4 4)
                               "hello"] |}
           [sample.d; sample.archived "main" (os.octal 6 4 4) "hello"]
           [sample.main]).
  - split; intros; reflexivity.
  - reflexivity.
Defined.

(** ** The packers: what a failure leaves *)

Lemma map_Ok_split {A : Type} (f : A -> result call) (cs : list call) :
  forall l c rest,
    map f l = (map Ok cs ++ Ok c :: rest)%list ->
    exists done a after,
      l = (done ++ a :: after)%list
      /\ map f done = map Ok cs /\ f a = Ok c /\ map f after = rest.
Proof.
  induction cs as [|c0 cs IH]; intros [|a l] c rest E; try discriminate.
  - cbn in E. injection E as Ea Er.
    exists [], a, l. now repeat split.
  - cbn in E. injection E as Ea Er.
    destruct (IH l c rest Er) as (done & a' & after & -> & M & Fa & Ma).
    exists (a :: done), a', after. cbn [map app]. rewrite Ea, M.
    now repeat split.
Qed.

Lemma changed_leaves {A : Type} (f : A -> result call) (l : list A)
  (zipFile : result ioutil.TempFile) (n : string) :
  failed (packCalls zipFile (map f l)) = Some (FileChangedError n) ->
  exists done a rest cs c ents,
    l = (done ++ a :: rest)%list
    /\ map f done = map Ok cs /\ f a = Ok c
    /\ Forall2 complete cs ents
    /\ archive (packCalls zipFile (map f l))
       = (ents ++ [{| zip.hdr := headerOf c;
                      zip.body := io.content (srcFile c) |}])%list
    /\ n = srcPath c /\ os.IsDir (fileInfo c) = false
    /\ io.failure (srcFile c) = None
    /\ sha1Sum c <> fingerprint (io.content (srcFile c)).
Proof.
  unfold packCalls. destruct zipFile as [zf|err]; [|discriminate].
  destruct (addAll _ _) as [w' [e|]] eqn:E; [|discriminate].
  cbn [failed archive]. intros [= ->].
  apply addAll_changed in E.
  destruct E as (cs & c & rest & ents & M & C & Dw & Hn & D & F & N).
  destruct (map_Ok_split f cs l c rest M)
    as (done & a & after & -> & Md & Fa & _).
  exists done, a, after, cs, c, ents. cbn [zip.NewWriter zip.dir app] in Dw.
  now repeat split.
Qed.

(** X9.  What a [FileChangedError] leaves behind.  When a packer returns
    [FileChangedError], the error names the first descriptor
    ([ZipDirectoryResources]: by its full path) or the first entry of the
    source ([ZipArchiveResources]: by its name) that is a file read to
    its end with a hash other than the declared one; everything before it
    has been packed completely; the changed file itself has been written
    to the new archive in full, as its last entry, under the declared
    name and mode; and nothing after it has been touched. *)
Theorem changed_file_is_the_last_entry :
  (forall filepath_Join os_Open zipFile sourceDir filesToInclude n,
      failed (ZipDirectoryResources filepath_Join os_Open zipFile sourceDir
                filesToInclude) = Some (FileChangedError n) ->
      exists done r rest ents file info last,
        filesToInclude = (done ++ r :: rest)%list
        /\ Forall2 (packedFromDirectory filepath_Join os_Open sourceDir)
             done ents
        /\ os_Open (filepath_Join sourceDir (Filename r)) = Ok file
        /\ os.Stat file = Ok info /\ os.IsDir info = false
        /\ io.failure (os.Body file) = None
        /\ n = filepath_Join sourceDir (Filename r)
        /\ SHA1 r <> fingerprint (io.content (os.Body file))
        /\ archive (ZipDirectoryResources filepath_Join os_Open zipFile
                      sourceDir filesToInclude) = (ents ++ [last])%list
        /\ zip.Name (zip.hdr last) = Filename r
        /\ zip.attrMode (zip.hdr last) = Mode r
        /\ zip.body last = io.content (os.Body file))
  /\ (forall zipFile source filesToInclude n,
         failed (ZipArchiveResources zipFile source filesToInclude)
         = Some (FileChangedError n) ->
         exists done f rest ents reader last,
           listing source = (done ++ f :: rest)%list
           /\ Forall2 (packedFromArchive filesToInclude) done ents
           /\ zip.Open f = Ok reader
           /\ os.IsDir (zip.FileInfo f) = false
           /\ io.failure reader = None
           /\ n = zip.Name (zip.Header f)
           /\ SHA1 (findInResources n filesToInclude)
              <> fingerprint (io.content reader)
           /\ archive (ZipArchiveResources zipFile source filesToInclude)
              = (ents ++ [last])%list
           /\ zip.Name (zip.hdr last) = n
           /\ zip.attrMode (zip.hdr last)
              = Mode (findInResources n filesToInclude)
           /\ zip.body last = io.content reader).
Proof.
  split.
  - intros filepath_Join os_Open zipFile sourceDir incl n.
    rewrite ZipDirectoryResources_packCalls. intros F.
    destruct (changed_leaves _ _ _ _ F)
      as (done & r & rest & cs & c & ents & -> & M & Fr & C & Ar & Hn & D
          & Fl & N).
    destruct (directoryCall_fields _ _ _ _ _ Fr)
      as (file & O & S & Sf & Sp & Dp & Sh & Mo).
    exists done, r, rest, ents, file, (fileInfo c).
    eexists. rewrite Ar, <- Sf, <- Sh.
    repeat split; try eassumption; try congruence.
    + exact (Forall2_calls _ _ _ _ _ _
               (complete_packedFromDirectory filepath_Join os_Open sourceDir)
               M C).
    + cbn [zip.hdr]. rewrite headerOf_Name, D, Dp. apply entryName_file.
  - intros zipFile source incl n F.
    destruct (ZipArchiveResources_cases zipFile source incl) as [E|[err E]];
      rewrite E in *; [|discriminate].
    destruct (changed_leaves _ _ _ _ F)
      as (done & f & rest & cs & c & ents & L & M & Ff & C & Ar & Hn & D
          & Fl & N).
    destruct (archiveCall_mode _ _ _ Ff) as (Mo & Sh & Dp & Sp & Fi & O).
    exists done, f, rest, ents, (srcFile c).
    eexists. rewrite Ar. rewrite Hn, Sp, <- Sh, <- Mo, <- Fi.
    repeat split; try eassumption.
    + exact (Forall2_calls _ _ _ _ _ _
               (complete_packedFromArchive incl) M C).
    + cbn [zip.hdr]. rewrite headerOf_Name, D, Dp. apply entryName_file.
Qed.

Lemma changed_file_is_the_last_entry_witness :
  exists done r rest ents file info last,
    [sample.logs; sample.stale; sample.main] = (done ++ r :: rest)%list
    /\ Forall2 (packedFromDirectory sample.Join sample.Open "app") done ents
    /\ sample.Open (sample.Join "app" (Filename r)) = Ok file
    /\ os.Stat file = Ok info /\ os.IsDir info = false
    /\ io.failure (os.Body file) = None
    /\ "app/main"%string = sample.Join "app" (Filename r)
    /\ SHA1 r <> fingerprint (io.content (os.Body file))
    /\ archive (ZipDirectoryResources sample.Join sample.Open
                  (Ok sample.zipFile) "app"
                  [sample.logs; sample.stale; sample.main])
       = (ents ++ [last])%list
    /\ zip.Name (zip.hdr last) = Filename r
    /\ zip.attrMode (zip.hdr last) = Mode r
    /\ zip.body last = io.content (os.Body file).
Proof.
  apply (proj1 changed_file_is_the_last_entry sample.Join sample.Open
           (Ok sample.zipFile) "app"%string
           [sample.logs; sample.stale; sample.main] "app/main"%string).
  vm_compute. reflexivity.
Defined.

(** ** The packers: which error *)

Lemma packCalls_stops (zf : ioutil.TempFile) (cs : list call)
  (err : syserror) (rest : list (result call)) :
  accepting (ioutil.file zf) -> Forall passes cs ->
  failed (packCalls (Ok zf) (map Ok cs ++ Err err :: rest))
  = Some (SysError err)
  /\ location (packCalls (Ok zf) (map Ok cs ++ Err err :: rest))
     = EmptyString
  /\ Forall2 complete cs
       (archive (packCalls (Ok zf) (map Ok cs ++ Err err :: rest))).
Proof.
  intros A P. unfold packCalls.
  destruct (addAll_passes cs (zip.NewWriter (ioutil.file zf)) A P)
    as (w' & E & _).
  rewrite (addAll_app cs _ _ _ E). cbn [addAll failed location archive].
  repeat split.
  destruct (addAll_success _ _ _ E) as (cs' & ents & M & Dw & C).
  apply map_Ok_inj in M. subst cs'. now rewrite Dw.
Qed.

(** X10.  A descriptor whose file is gone.  Over a temporary file that
    accepts every write, when the descriptors before it pass and the file
    of a descriptor does not open, or opens and does not answer [Stat],
    [ZipDirectoryResources] returns that error of the system as it is
    (not a [FileChangedError], whatever hash was declared) and no
    location; the new archive holds the complete entries of the
    descriptors before it and nothing of the descriptors after it. *)
Theorem directory_pack_missing_file :
  forall filepath_Join os_Open zf sourceDir before r after err,
    accepting (ioutil.file zf) ->
    Forall (descriptorPasses filepath_Join os_Open sourceDir) before ->
    (os_Open (filepath_Join sourceDir (Filename r)) = Err err
     \/ exists file,
         os_Open (filepath_Join sourceDir (Filename r)) = Ok file
         /\ os.Stat file = Err err) ->
    failed (ZipDirectoryResources filepath_Join os_Open (Ok zf) sourceDir
              (before ++ r :: after)) = Some (SysError err)
    /\ location (ZipDirectoryResources filepath_Join os_Open (Ok zf)
                   sourceDir (before ++ r :: after)) = EmptyString
    /\ Forall2 (packedFromDirectory filepath_Join os_Open sourceDir) before
         (archive (ZipDirectoryResources filepath_Join os_Open (Ok zf)
                     sourceDir (before ++ r :: after))).
Proof.
  intros filepath_Join os_Open zf sourceDir before r after err A P O.
  rewrite ZipDirectoryResources_packCalls, map_app. cbn [map].
  destruct (passing_calls _ _ P) as (cs & M & Ps). rewrite M.
  assert (E : directoryCall filepath_Join os_Open sourceDir r = Err err).
  { unfold directoryCall. cbv zeta.
    destruct O as [O|(file & O & S)]; rewrite O; [reflexivity|].
    now rewrite S. }
  rewrite E.
  destruct (packCalls_stops zf cs err
              (map (directoryCall filepath_Join os_Open sourceDir) after)
              A Ps) as (F & L & C).
  repeat split; try assumption.
  exact (Forall2_calls _ _ _ _ _ _
           (complete_packedFromDirectory filepath_Join os_Open sourceDir)
           M C).
Qed.

Lemma directory_pack_missing_file_witness :
  failed (ZipDirectoryResources sample.Join sample.Open (Ok sample.zipFile)
            "app"
            ([sample.logs; sample.main]
             ++ {| Filename := "gone"; Mode := os.octal 6 4 4;
                   SHA1 := "aaf4c61ddcc5e8a2dabede0f3b482cd9aea9434d";
                   Size := 5 |} :: [sample.main]))
  = Some (SysError (Errno "no such file or directory"))
  /\ location (ZipDirectoryResources sample.Join sample.Open
                 (Ok sample.zipFile) "app"
                 ([sample.logs; sample.main]
                  ++ {| Filename := "gone"; Mode := os.octal 6 4 4;
                        SHA1 := "aaf4c61ddcc5e8a2dabede0f3b482cd9aea9434d";
                        Size := 5 |} :: [sample.main])) = EmptyString
  /\ Forall2 (packedFromDirectory sample.Join sample.Open "app")
       [sample.logs; sample.main]
       (archive (ZipDirectoryResources sample.Join sample.Open
                   (Ok sample.zipFile) "app"
                   ([sample.logs; sample.main]
                    ++ {| Filename := "gone"; Mode := os.octal 6 4 4;
                          SHA1 := "aaf4c61ddcc5e8a2dabede0f3b482cd9aea9434d";
                          Size := 5 |} :: [sample.main]))).
Proof.
  apply directory_pack_missing_file.
  - split; intros; reflexivity.
  - constructor; [|constructor; [|constructor]];
      eexists; (split; [reflexivity|]); vm_compute; auto.
  - left. reflexivity.
Defined.

Lemma findInResources_unlisted (path : string) (l : list Resource) :
  (forall r, In r l -> Filename r <> path) ->
  findInResources path l = zeroResource.
Proof.
  induction l as [|r l IH]; intros H; [reflexivity|].
  cbn [findInResources].
  destruct (String.eqb_spec (Filename r) path) as [E|_].
  - now destruct (H r (or_introl eq_refl)).
  - apply IH. intros r' I. apply H. now right.
Qed.

(** X11.  A file of the source archive that the inclusion list does not
    name is not skipped.  Over a temporary file that accepts every write,
    when the entries before it pass and the entry is a file that opens and
    reads to its end, [ZipArchiveResources] looks up the zero descriptor
    for it, whose hash is empty, and so returns [FileChangedError] for its
    name and no location, whatever the file holds. *)
Theorem archive_pack_unlisted_file :
  forall zf a before f after reader filesToInclude,
    accepting (ioutil.file zf) ->
    newArchiveReader a = Ok (before ++ f :: after)%list ->
    Forall (archiveEntryPasses filesToInclude) before ->
    os.IsDir (zip.FileInfo f) = false ->
    zip.Open f = Ok reader ->
    io.failure reader = None ->
    (forall r, In r filesToInclude ->
               Filename r <> zip.Name (zip.Header f)) ->
    failed (ZipArchiveResources (Ok zf) (Ok a) filesToInclude)
    = Some (FileChangedError (zip.Name (zip.Header f)))
    /\ location (ZipArchiveResources (Ok zf) (Ok a) filesToInclude)
       = EmptyString.
Proof.
  intros zf a before f after reader incl A N P D O F U.
  rewrite (ZipArchiveResources_packCalls _ _ _ _ N), map_app. cbn [map].
  destruct (passing_calls _ _ P) as (cs & M & Ps). rewrite M.
  assert (E : archiveCall incl f
              = Ok {| srcPath := zip.Name (zip.Header f); srcFile := reader;
                      fileInfo := zip.FileInfo f;
                      destPath := zip.Name (zip.Header f);
                      sha1Sum := SHA1 zeroResource;
                      mode := Mode zeroResource |}).
  { unfold archiveCall. cbv zeta.
    now rewrite O, (findInResources_unlisted _ _ U). }
  rewrite E.
  match goal with
  | |- context [(Ok ?c :: _)%list] =>
      apply (packCalls_mismatch zf cs c _ A Ps)
  end; try assumption.
  cbn [sha1Sum srcFile SHA1 zeroResource]. intros X. symmetry in X.
  revert X. apply sha1_hex_nonempty.
Qed.

Lemma archive_pack_unlisted_file_witness :
  failed (ZipArchiveResources (Ok sample.zipFile)
            (Ok {| ykk.Stat := Ok {| os.Size := 1024;
                                     os.Mode := os.octal 6 4 4 |};
                   ykk.NewReader :=
                     fun _ =>
                       Ok ([sample.d]
                           ++ sample.archived "main" (os.octal 6 4 4)
                                "hello"
                           :: [sample.archived "z" (os.octal 6 4 4) ""]) |})
            [sample.declared_d; sample.logs])
  = Some (FileChangedError "main")
  /\ location (ZipArchiveResources (Ok sample.zipFile)
                 (Ok {| ykk.Stat := Ok {| os.Size := 1024;
                                          os.Mode := os.octal 6 4 4 |};
                        ykk.NewReader :=
                          fun _ =>
                            Ok ([sample.d]
                                ++ sample.archived "main" (os.octal 6 4 4)
                                     "hello"
                                :: [sample.archived "z" (os.octal 6 4 4)
                                      ""]) |})
                 [sample.declared_d; sample.logs])
     = EmptyString.
Proof.
  apply (archive_pack_unlisted_file sample.zipFile _ [sample.d]
           (sample.archived "main" (os.octal 6 4 4) "hello")
           [sample.archived "z" (os.octal 6 4 4) ""]
           (sample.reading "hello") [sample.declared_d; sample.logs]).
  - split; intros; reflexivity.
  - reflexivity.
  - constructor; [|constructor].
    eexists. split; [reflexivity|]. vm_compute. exact I.
  - vm_compute. reflexivity.
  - reflexivity.
  - reflexivity.
  - intros r [<-|[<-|[]]]; discriminate.
Defined.

(** ** [addFileToZipFromFileSystem]: a source that fails while read *)

(** X12.  A read error comes before the hash check.  Into a writer whose
    file accepts every write, when the source is not a directory and
    reading it ends with an error, [addFileToZipFromFileSystem] returns
    that error as it is, whatever hash was declared: the hash is not
    compared and no [FileChangedError] is made.  The entry has been
    created all the same, under [destPath] and [mode], and holds the
    bytes delivered before the failure. *)
Theorem read_error_before_hash_check :
  forall srcPath srcFile fileInfo destPath sha1Sum mode zipFile err,
    accepting (zip.sink zipFile) ->
    os.IsDir fileInfo = false ->
    io.failure srcFile = Some err ->
    addFileToZipFromFileSystem srcPath srcFile fileInfo destPath sha1Sum
      mode zipFile
    = ({| zip.sink := zip.sink zipFile;
          zip.dir :=
            (zip.dir zipFile
             ++ [{| zip.hdr :=
                      {| zip.Name := destPath; zip.Method := zip.Deflate;
                         zip.UncompressedSize64 := os.Size fileInfo;
                         zip.attrMode := mode |};
                    zip.body := io.content srcFile |}])%list |},
       Some (SysError err)).
Proof.
  intros srcPath srcFile fileInfo destPath sha1Sum mode zipFile err A D F.
  unfold addFileToZipFromFileSystem, zip.FileInfoHeader, zip.CreateHeader.
  rewrite (proj1 A), D. cbn [negb andb]. unfold io.Copy.
  match goal with
  | |- context [io.copy_chunks (sha1.New, ?fw) ?cs] =>
      destruct (copy_chunks_accepting cs sha1.New fw A) as (fw' & E & Z);
      destruct (copy_chunks_multi cs sha1.New fw _ fw' None E)
        as (_ & H & p & W & P);
      rewrite E
  end.
  destruct (P eq_refl) as (-> & _). rewrite F.
  unfold zip.finish. rewrite Z, H, W. reflexivity.
Qed.

Lemma read_error_before_hash_check_witness :
  addFileToZipFromFileSystem "app/main"
    {| io.chunks := [[x68; x65]%byte; [x6c]%byte];
       io.failure := Some (Errno "input/output error") |}
    {| os.Size := 5; os.Mode := os.octal 6 4 4 |}
    "main" "aaf4c61ddcc5e8a2dabede0f3b482cd9aea9434d" (os.octal 7 0 0)
    (zip.NewWriter sample.lenient)
  = ({| zip.sink := sample.lenient;
        zip.dir :=
          [{| zip.hdr :=
                {| zip.Name := "main"; zip.Method := zip.Deflate;
                   zip.UncompressedSize64 := 5;
                   zip.attrMode := os.octal 7 0 0 |};
              zip.body := [x68; x65; x6c]%byte |}] |},
     Some (SysError (Errno "input/output error"))).
Proof.
  apply (read_error_before_hash_check "app/main"
           {| io.chunks := [[x68; x65]%byte; [x6c]%byte];
              io.failure := Some (Errno "input/output error") |}
           {| os.Size := 5; os.Mode := os.octal 6 4 4 |}
           "main" "aaf4c61ddcc5e8a2dabede0f3b482cd9aea9434d" (os.octal 7 0 0)
           (zip.NewWriter sample.lenient)).
  - split; intros; reflexivity.
  - vm_compute. reflexivity.
  - reflexivity.
Defined.

(** ** What the packers read of the inclusion list *)

Lemma findInResources_agree (path : string) (l : list Resource) :
  forall l',
    Forall2
      (fun r r' =>
         Filename r' = Filename r /\ Mode r' = Mode r /\ SHA1 r' = SHA1 r)
      l l' ->
    Mode (findInResources path l') = Mode (findInResources path l)
    /\ SHA1 (findInResources path l') = SHA1 (findInResources path l).
Proof.
  induction l as [|r l IH]; intros l' H;
    inversion H as [|? r' ? ? (Hf & Hm & Hs) Hr]; subst;
    [now split|].
  cbn [findInResources]. rewrite Hf.
  destruct (String.eqb (Filename r) path); [now split | now apply IH].
Qed.

(** X13.  Neither packer reads the size a descriptor declares: two
    inclusion lists that agree, descriptor by descriptor, on name, mode
    and hash give the same archive, the same location and the same error,
    with [ZipDirectoryResources] as with [ZipArchiveResources].  A size
    that no longer is the file's is not noticed; only the hash is. *)
Theorem packers_never_read_the_size :
  forall filepath_Join os_Open zipFile sourceDir source l l',
    Forall2
      (fun r r' =>
         Filename r' = Filename r /\ Mode r' = Mode r /\ SHA1 r' = SHA1 r)
      l l' ->
    ZipDirectoryResources filepath_Join os_Open zipFile sourceDir l'
    = ZipDirectoryResources filepath_Join os_Open zipFile sourceDir l
    /\ ZipArchiveResources zipFile source l'
       = ZipArchiveResources zipFile source l.
Proof.
  intros filepath_Join os_Open zipFile sourceDir source l l' H. split.
  - rewrite !ZipDirectoryResources_packCalls. f_equal.
    induction H as [|r r' l l' (Hf & Hm & Hs) _ IH]; [reflexivity|].
    cbn [map]. rewrite IH. f_equal.
    unfold directoryCall. now rewrite Hf, Hm, Hs.
  - destruct source as [a|err]; [|reflexivity].
    destruct (newArchiveReader a) as [files|err] eqn:N.
    + rewrite !(ZipArchiveResources_packCalls _ _ _ _ N). f_equal.
      apply map_ext. intros f. unfold archiveCall. cbv zeta.
      destruct (findInResources_agree (zip.Name (zip.Header f)) l l' H)
        as (Hm & Hs).
      now rewrite Hm, Hs.
    + unfold ZipArchiveResources. now rewrite N.
Qed.

Lemma packers_never_read_the_size_witness :
  ZipDirectoryResources sample.Join sample.Open (Ok sample.zipFile) "app"
    [sample.logs;
     {| Filename := "main"; Mode := os.octal 6 4 4;
        SHA1 := "aaf4c61ddcc5e8a2dabede0f3b482cd9aea9434d"; Size := 4096 |}]
  = ZipDirectoryResources sample.Join sample.Open (Ok sample.zipFile) "app"
      [sample.logs; sample.main]
  /\ ZipArchiveResources (Ok sample.zipFile) sample.source
       [sample.logs;
        {| Filename := "main"; Mode := os.octal 6 4 4;
           SHA1 := "aaf4c61ddcc5e8a2dabede0f3b482cd9aea9434d";
           Size := 4096 |}]
     = ZipArchiveResources (Ok sample.zipFile) sample.source
         [sample.logs; sample.main].
Proof.
  apply packers_never_read_the_size.
  constructor; [now repeat split|].
  constructor; [now repeat split | constructor].
Defined.

Lemma findInResources_filter (keep : Resource -> bool) (path : string)
  (l : list Resource) :
  (forall r, In r l -> Filename r = path -> keep r = true) ->
  findInResources path (filter keep l) = findInResources path l.
Proof.
  induction l as [|r l IH]; intros H; [reflexivity|].
  cbn [filter findInResources].
  assert (IH' : findInResources path (filter keep l)
                = findInResources path l)
    by (apply IH; intros r' I; apply H; now right).
  destruct (keep r) eqn:K.
  - cbn [findInResources]. now rewrite IH'.
  - destruct (String.eqb_spec (Filename r) path) as [E|_];
      [|assumption].
    rewrite (H r (or_introl eq_refl) E) in K. discriminate.
Qed.

(** X14.  [ZipArchiveResources] is driven by the source archive, not by
    the inclusion list: descriptors that name no entry of the source are
    never looked at.  Whatever selection of the inclusion list is made,
    as long as it keeps every descriptor named like an entry of the
    source, packing with the selection gives the same archive, location
    and error as packing with the whole list. *)
Theorem archive_pack_ignores_unnamed :
  forall keep zipFile source filesToInclude,
    (forall r f,
        In r filesToInclude -> In f (listing source) ->
        Filename r = zip.Name (zip.Header f) -> keep r = true) ->
    ZipArchiveResources zipFile source (filter keep filesToInclude)
    = ZipArchiveResources zipFile source filesToInclude.
Proof.
  intros keep zipFile source incl H.
  destruct source as [a|err]; [|reflexivity].
  destruct (newArchiveReader a) as [files|err] eqn:N.
  - rewrite !(ZipArchiveResources_packCalls _ _ _ _ N). f_equal.
    apply map_ext_in. intros f I. unfold archiveCall. cbv zeta.
    rewrite findInResources_filter; [reflexivity|].
    intros r Ir E. apply (H r f Ir); [|assumption].
    now rewrite (listing_Ok _ _ N).
  - unfold ZipArchiveResources. now rewrite N.
Qed.

Lemma archive_pack_ignores_unnamed_witness :
  ZipArchiveResources (Ok sample.zipFile) sample.source
    (filter (fun r => negb (String.eqb (Filename r) "logs"))
       [sample.logs; sample.declared_d; sample.main])
  = ZipArchiveResources (Ok sample.zipFile) sample.source
      [sample.logs; sample.declared_d; sample.main].
Proof.
  apply archive_pack_ignores_unnamed.
  intros r f [<-|[<-|[<-|[]]]] [<-|[<-|[]]]; intros E;
    try reflexivity; discriminate E.
Defined.

(** ** Scanning an archive, repacking it, scanning again *)

Lemma scannedFromArchive_unique (Separator : ascii) (f : zip.File)
  (r r' : Resource) :
  scannedFromArchive Separator f r -> scannedFromArchive Separator f r' ->
  r = r'.
Proof.
  destruct r as [n m s z], r' as [n' m' s' z'].
  unfold scannedFromArchive. cbn [Filename Mode SHA1 Size].
  intros (F & H) (F' & H'). destruct (os.IsDir (zip.FileInfo f)).
  - destruct H as (? & ? & ?), H' as (? & ? & ?). congruence.
  - destruct H as (? & ? & reader & O & ?),
      H' as (? & ? & reader' & O' & ?).
    assert (reader' = reader) by congruence. congruence.
Qed.

Lemma Forall2_unique {A B : Type} (R : A -> B -> Prop) :
  (forall a b b', R a b -> R a b' -> b = b') ->
  forall l l1 l2, Forall2 R l l1 -> Forall2 R l l2 -> l1 = l2.
Proof.
  intros U l l1 l2 H. revert l2.
  induction H as [|a b l l1 Hab _ IH]; intros l2 H2;
    inversion H2; subst; [reflexivity|].
  f_equal; [eapply U; eassumption | now apply IH].
Qed.

Lemma Forall2_In_impl {A B : Type} (R S : A -> B -> Prop) (l : list A) :
  forall l',
    (forall a b, In a l -> R a b -> S a b) ->
    Forall2 R l l' -> Forall2 S l l'.
Proof.
  intros l' H F. induction F as [|a b l l' Hab _ IH]; constructor.
  - apply H; [now left | assumption].
  - apply IH. intros a' b' I. apply H. now right.
Qed.

Lemma Forall2_left {A B : Type} (R : A -> B -> Prop) (P : A -> Prop)
  (l : list A) :
  forall l',
    (forall a b, In a l -> R a b -> P a) -> Forall2 R l l' -> Forall P l.
Proof.
  intros l' H F. induction F as [|a b l l' Hab _ IH]; constructor.
  - apply (H a b); [now left | assumption].
  - apply IH. intros a' b' I. apply H. now right.
Qed.

Lemma Forall2_zip {A B C : Type} (R : A -> B -> Prop) (S : A -> C -> Prop)
  (T : C -> B -> Prop) (l : list A) :
  forall l1 l2,
    (forall a b c, In a l -> R a b -> S a c -> T c b) ->
    Forall2 R l l1 -> Forall2 S l l2 -> Forall2 T l2 l1.
Proof.
  intros l1 l2 H F. revert l2.
  induction F as [|a b l l1 Hab _ IH]; intros l2 G;
    inversion G; subst; constructor.
  - apply (H a); [now left | assumption | assumption].
  - apply IH; [|assumption]. intros a' b' c' I. apply H. now right.
Qed.

Lemma Forall2_and {A B : Type} (R S : A -> B -> Prop) (l : list A) :
  forall l',
    Forall2 R l l' -> Forall2 S l l' ->
    Forall2 (fun a b => R a b /\ S a b) l l'.
Proof.
  intros l' F. induction F as [|a b l l' Hab _ IH]; intros G;
    inversion G; subst; constructor; [now split | now apply IH].
Qed.

(** In a list of descriptors made one per key, the keys being distinct,
    the lookup of a key finds the descriptor made for it. *)
Lemma lookup_own {A : Type} (key : A -> string) (l : list A) :
  forall L,
    Forall2 (fun a r => Filename r = key a) l L ->
    NoDup (map key l) ->
    Forall2 (fun a r => findInResources (key a) L = r) l L.
Proof.
  intros L F. induction F as [|a r l L Har _ IH]; intros N;
    constructor; inversion N as [|? ? Nin Nl]; subst.
  - cbn [findInResources]. now rewrite Har, String.eqb_refl.
  - apply (Forall2_In_impl (fun a r => findInResources (key a) L = r));
      [|now apply IH].
    intros a' r' I E. cbn [findInResources].
    destruct (String.eqb_spec (Filename r) (key a')) as [X|_];
      [|assumption].
    exfalso. apply Nin. rewrite <- Har, X. now apply in_map.
Qed.

Lemma IsDir_slash (h : zip.FileHeader) (size : Z) :
  strings.HasSuffix (zip.Name h) "/" = true ->
  os.IsDir {| os.Size := size; os.Mode := zip.Mode h |} = true.
Proof.
  intros H. unfold os.IsDir, zip.Mode. cbn [os.Mode]. rewrite H.
  rewrite Z.lor_spec.
  replace (Z.testbit os.ModeDir 31) with true by reflexivity.
  apply orb_true_r.
Qed.

Lemma file_no_slash (f : zip.File) :
  os.IsDir (zip.FileInfo f) = false ->
  strings.HasSuffix (zip.Name (zip.Header f)) "/" = false.
Proof.
  intros D.
  destruct (strings.HasSuffix (zip.Name (zip.Header f)) "/") eqn:H;
    [|reflexivity].
  unfold zip.FileInfo in D. rewrite (IsDir_slash _ _ H) in D.
  discriminate.
Qed.

(** The entry packed for a kept entry of the source, read back, is
    described as the source entry was. *)
Lemma kept_entry (Separator : ascii) (L : list Resource) (f : zip.File)
  (r : Resource) (c : call) (e : zip.Entry) :
  archiveEntryKept Separator f ->
  scannedFromArchive Separator f r ->
  findInResources (zip.Name (zip.Header f)) L = r ->
  archiveCall L f = Ok c ->
  complete c e ->
  scannedFromArchive Separator (zip.relist e) r.
Proof.
  intros (Ts & Sl & reader & O & Fl) (Fn & Sc) Lk Ca (H & B).
  destruct (archiveCall_mode _ _ _ Ca) as (Mo & Sh & Dp & Sp & Fi & Oc).
  rewrite Lk in Mo, Sh. rewrite Fi in B.
  assert (Er : srcFile c = reader) by congruence.
  assert (Nm : zip.Name (zip.hdr e)
               = entryName (os.IsDir (zip.FileInfo f))
                   (zip.Name (zip.Header f)))
    by (now rewrite H, headerOf_Name, Fi, Dp).
  assert (Md : zip.attrMode (zip.hdr e) = Mode r)
    by (now rewrite H).
  unfold scannedFromArchive.
  destruct (os.IsDir (zip.FileInfo f)) eqn:D.
  - assert (Nn : zip.Name (zip.hdr e) = zip.Name (zip.Header f)).
    { rewrite Nm. unfold entryName. now rewrite (Sl eq_refl). }
    assert (Dn : os.IsDir (zip.FileInfo (zip.relist e)) = true).
    { unfold zip.FileInfo. apply IsDir_slash.
      cbn [zip.relist zip.Header zip.Name]. rewrite Nn. now apply Sl. }
    rewrite Dn. cbn [zip.relist zip.Header zip.Name]. rewrite Nn.
    now split.
  - assert (Nn : zip.Name (zip.hdr e) = zip.Name (zip.Header f))
      by (now rewrite Nm).
    destruct Sc as (M & Sz & reader' & O' & S).
    assert (Dn : os.IsDir (zip.FileInfo (zip.relist e)) = false).
    { unfold zip.FileInfo, os.IsDir, zip.Mode.
      cbn [zip.relist zip.Header zip.Name zip.attrMode os.Mode].
      rewrite Nn, (file_no_slash f D), Md, M. reflexivity. }
    rewrite Dn. cbn [zip.relist zip.Header zip.Name zip.Open
                     zip.UncompressedSize64].
    rewrite Nn. split; [assumption|]. split; [assumption|].
    destruct B as (B & _ & _). destruct (Fl eq_refl) as (_ & Sf).
    assert (reader' = reader) by congruence. subst reader'.
    rewrite B, Er. split; [congruence|].
    eexists. split; [reflexivity|].
    unfold io.content at 1. cbn [io.chunks List.concat].
    now rewrite app_nil_r.
Qed.

(** X15.  Scanning an archive, packing it with the descriptors of that
    scan and scanning the result gives the same descriptors again.  For
    an archive whose entries have distinct names written with forward
    slashes (directories with a final one), that open, and whose files
    read to their end with the size declared, over a temporary file that
    accepts every write: [GatherArchiveResources] returns a list with
    which [ZipArchiveResources] succeeds, and [GatherArchiveResources] on
    the new archive returns exactly that list, names, modes, hashes and
    sizes. *)
Theorem archive_scan_pack_scan :
  forall Separator zf a files,
    accepting (ioutil.file zf) ->
    newArchiveReader a = Ok files ->
    NoDup (map (fun f => zip.Name (zip.Header f)) files) ->
    Forall (archiveEntryKept Separator) files ->
    exists resources,
      GatherArchiveResources Separator (Ok a) = (resources, None)
      /\ failed (ZipArchiveResources (Ok zf) (Ok a) resources) = None
      /\ location (ZipArchiveResources (Ok zf) (Ok a) resources)
         = ioutil.Name zf
      /\ GatherArchiveResources Separator
           (reopened
              (archive (ZipArchiveResources (Ok zf) (Ok a) resources)))
         = (resources, None).
Proof.
  intros sep zf a files A N Nd K.
  assert (Reads : Forall archiveEntryReads files).
  { eapply Forall_impl; [|exact K].
    intros f (_ & _ & reader & O & Fl). unfold archiveEntryReads.
    destruct (os.IsDir (zip.FileInfo f)); [now left|].
    right. exists reader. split; [assumption|]. now apply Fl. }
  destruct (gatherArchiveFiles_spec sep files [] Reads) as (L & G & Sc).
  cbn [app] in G. exists L.
  split; [unfold GatherArchiveResources; now rewrite N|].
  rewrite Forall_forall in K.
  assert (Pass : forall f r,
             In f files ->
             scannedFromArchive sep f r
             /\ findInResources (zip.Name (zip.Header f)) L = r ->
             archiveEntryPasses L f).
  { intros f r I ((Fn & Sf) & Lf).
    destruct (K _ I) as (_ & _ & reader & O & Fl).
    unfold archiveEntryPasses, archiveCall. cbv zeta. rewrite O.
    eexists. split; [reflexivity|]. unfold passes.
    cbn [fileInfo srcFile sha1Sum].
    destruct (os.IsDir (zip.FileInfo f)); [trivial|].
    destruct Sf as (_ & _ & reader' & O' & S).
    assert (reader' = reader) by congruence. subst reader'.
    split; [now apply Fl|]. now rewrite Lf. }
  assert (Back : forall f r e,
             In f files ->
             scannedFromArchive sep f r
             /\ findInResources (zip.Name (zip.Header f)) L = r ->
             (exists c, archiveCall L f = Ok c /\ complete c e) ->
             scannedFromArchive sep (zip.relist e) r).
  { intros f r e I (Hs & Lf) (c & Ca & Cc).
    now apply (kept_entry sep L f r c e (K _ I)). }
  assert (Lk : Forall2
                 (fun f r =>
                    findInResources (zip.Name (zip.Header f)) L = r)
                 files L).
  { apply (lookup_own (fun f => zip.Name (zip.Header f))); [|assumption].
    apply (Forall2_In_impl (scannedFromArchive sep)); [|assumption].
    intros f r I (Fn & _). rewrite Fn. now apply K. }
  assert (Both : Forall2
                   (fun f r =>
                      scannedFromArchive sep f r
                      /\ findInResources (zip.Name (zip.Header f)) L = r)
                   files L).
  { now apply Forall2_and. }
  assert (Ps : Forall (archiveEntryPasses L) files).
  { apply (Forall2_left _ _ _ _ Pass Both). }
  rewrite (ZipArchiveResources_packCalls _ _ _ _ N).
  destruct (passing_calls _ _ Ps) as (cs & M & Pcs).
  pose proof (packCalls_passes zf cs A Pcs) as Fd. rewrite <- M in Fd.
  destruct (succeeded_by _ _ _ Fd) as (zf' & [= <-] & Loc & C).
  split; [assumption|]. split; [assumption|].
  set (ents := archive (packCalls (Ok zf) (map (archiveCall L) files))) in *.
  destruct (gatherArchiveFiles_spec sep (zip.reopen ents) [])
    as (found & G' & Sc').
  { rewrite reopen_relist. apply Forall_map, Forall_forall.
    intros ent _. right. eexists. split; reflexivity. }
  cbn [app] in G'.
  assert (E : found = L).
  { rewrite reopen_relist in Sc'.
    apply (proj1 (Forall2_map_l zip.relist (scannedFromArchive sep)
                    ents found)) in Sc'.
    apply (Forall2_unique
             (fun e r => scannedFromArchive sep (zip.relist e) r)
             (fun e r r' => scannedFromArchive_unique sep (zip.relist e) r r')
             ents); [assumption|].
    apply (Forall2_zip _ _ _ files L ents Back Both C). }
  subst found. unfold GatherArchiveResources, reopened, newArchiveReader.
  cbn [ykk.Stat ykk.NewReader]. exact G'.
Qed.

Lemma archive_scan_pack_scan_witness :
  exists resources,
    GatherArchiveResources "/" sample.source = (resources, None)
    /\ failed (ZipArchiveResources (Ok sample.zipFile) sample.source
                 resources) = None
    /\ location (ZipArchiveResources (Ok sample.zipFile) sample.source
                   resources) = ioutil.Name sample.zipFile
    /\ GatherArchiveResources "/"
         (reopened
            (archive (ZipArchiveResources (Ok sample.zipFile) sample.source
                        resources)))
       = (resources, None).
Proof.
  apply (archive_scan_pack_scan "/" sample.zipFile
           {| ykk.Stat := Ok {| os.Size := 1024;
                                os.Mode := os.octal 6 4 4 |};
              ykk.NewReader :=
                fun _ => Ok [sample.d;
                             sample.archived "main" (os.octal 6 4 4)
                               "hello"] |}
           [sample.d; sample.archived "main" (os.octal 6 4 4) "hello"]).
  - split; intros; reflexivity.
  - reflexivity.
  - constructor; [intros [H|[]]; discriminate H|].
    constructor; [intros []|constructor].
  - constructor; [|constructor; [|constructor]].
    + split; [reflexivity|]. split; [reflexivity|].
      eexists. split; [reflexivity|]. vm_compute. discriminate.
    + split; [reflexivity|]. split; [vm_compute; discriminate|].
      eexists. split; [reflexivity|]. intros _. split; reflexivity.
Defined.

(** ** Packing a selection *)

(** X16.  What packs as a whole packs in part.  Over a temporary file
    that accepts every write, when [ZipDirectoryResources] returns no
    error for an inclusion list, it returns none, and the location of the
    temporary file, for every list made of descriptors of that list: a
    selection of them, in any order, a descriptor more than once. *)
Theorem directory_pack_of_selection :
  forall filepath_Join os_Open zf sourceDir filesToInclude selection,
    accepting (ioutil.file zf) ->
    failed (ZipDirectoryResources filepath_Join os_Open (Ok zf) sourceDir
              filesToInclude) = None ->
    (forall r, In r selection -> In r filesToInclude) ->
    failed (ZipDirectoryResources filepath_Join os_Open (Ok zf) sourceDir
              selection) = None
    /\ location (ZipDirectoryResources filepath_Join os_Open (Ok zf)
                   sourceDir selection) = ioutil.Name zf.
Proof.
  intros filepath_Join os_Open zf sourceDir incl selection A F S.
  rewrite ZipDirectoryResources_packCalls in *.
  apply (packCalls_iff _ _ _ A) in F. rewrite Forall_forall in F.
  assert (F' : failed
                 (packCalls (Ok zf)
                    (map (directoryCall filepath_Join os_Open sourceDir)
                       selection)) = None).
  { apply (packCalls_iff _ _ _ A), Forall_forall.
    intros r I. apply F, S, I. }
  split; [assumption|].
  destruct (succeeded_by _ _ _ F') as (zf' & [= <-] & Loc & _).
  exact Loc.
Qed.

Lemma directory_pack_of_selection_witness :
  failed (ZipDirectoryResources sample.Join sample.Open (Ok sample.zipFile)
            "app" [sample.main; sample.main]) = None
  /\ location (ZipDirectoryResources sample.Join sample.Open
                 (Ok sample.zipFile) "app" [sample.main; sample.main])
     = ioutil.Name sample.zipFile.
Proof.
  apply (directory_pack_of_selection sample.Join sample.Open sample.zipFile
           "app" [sample.logs; sample.main] [sample.main; sample.main]).
  - split; intros; reflexivity.
  - vm_compute. reflexivity.
  - intros r [<-|[<-|[]]]; right; left; reflexivity.
Defined.

(** ** [actorToCCResources] and the message of [FileChangedError] *)

Lemma append_all {A B : Type} (f : A -> B) (l : list A) :
  forall acc : list B,
    fold_left (fun s a => append s (f a)) l (Some acc)
    = Some (acc ++ map f l)%list.
Proof.
  induction l as [|a l IH]; intros acc; cbn [fold_left map].
  - now rewrite app_nil_r.
  - unfold append at 2. cbn [elements]. rewrite IH, <- app_assoc.
    reflexivity.
Qed.

(** X17.  [actorToCCResources] never returns a nil slice, not for an
    empty list and not for a nil one, and what it returns holds the
    descriptors it was given, converted, one for one and in order. *)
Theorem actorToCCResources_never_nil :
  forall resources,
    actorToCCResources resources <> None
    /\ elements (actorToCCResources resources)
       = map toCCResource (elements resources).
Proof.
  intros resources. unfold actorToCCResources, make.
  rewrite append_all. split; [discriminate | reflexivity].
Qed.

(** X18.  The message of a [FileChangedError] is ["SHA1 mismatch for:"]
    followed at once by the file name, with nothing in between and
    nothing after: the message tells the name, two errors with the same
    message are about the same name. *)
Theorem FileChangedError_names_the_file :
  forall Filename Filename',
    String.length (FileChangedError_Error Filename)
    = (18 + String.length Filename)%nat
    /\ String.substring 18 (String.length Filename)
         (FileChangedError_Error Filename) = Filename
    /\ (FileChangedError_Error Filename = FileChangedError_Error Filename'
        -> Filename = Filename').
Proof.
  intros n n'. unfold FileChangedError_Error.
  assert (S : forall s, String.substring 0 (String.length s) s = s).
  { induction s as [|c s IH]; cbn; [reflexivity | now rewrite IH]. }
  split; [reflexivity|]. split.
  - cbn. apply S.
  - intros E. cbn in E. now repeat injection E as E.
Qed.

(** ** [addFileToZipFromFileSystem]: what it does to the writer *)

(** X19.  [addFileToZipFromFileSystem] only ever appends.  Whatever it
    is given and whatever it returns, the entries the writer held stay as
    they were, in place, and at most one entry comes after them: none
    when the header is refused, which is an error; otherwise one, named
    [destPath] (with a final slash for a directory), deflated, with the
    mode asked for.  When no error is returned the new entry is empty for
    a directory and holds the whole content of the source for a file. *)
Theorem addFileToZipFromFileSystem_appends :
  forall srcPath srcFile fileInfo destPath sha1Sum mode zipFile,
  exists zipFile' err,
    addFileToZipFromFileSystem srcPath srcFile fileInfo destPath sha1Sum
      mode zipFile = (zipFile', err)
    /\ zip.sink zipFile' = zip.sink zipFile
    /\ ((zip.dir zipFile' = zip.dir zipFile /\ err <> None)
        \/ exists content,
            zip.dir zipFile'
            = (zip.dir zipFile
               ++ [{| zip.hdr :=
                        {| zip.Name :=
                             entryName (os.IsDir fileInfo) destPath;
                           zip.Method := zip.Deflate;
                           zip.UncompressedSize64 := os.Size fileInfo;
                           zip.attrMode := mode |};
                      zip.body := content |}])%list
            /\ (err = None ->
                content = if os.IsDir fileInfo then []
                          else io.content srcFile)).
Proof.
  intros sp sf fi dp ss md w.
  set (c := {| srcPath := sp; srcFile := sf; fileInfo := fi;
               destPath := dp; sha1Sum := ss; mode := md |}).
  change (addFileToZipFromFileSystem sp sf fi dp ss md w)
    with (addCall c w).
  change {| zip.Name := entryName (os.IsDir fi) dp;
            zip.Method := zip.Deflate;
            zip.UncompressedSize64 := os.Size fi;
            zip.attrMode := md |} with (headerOf c).
  pose proof (addCall_cases c w) as Cs.
  destruct (zip.refuseHeader (zip.sink w) (zip.dir w) (headerOf c))
    as [err|].
  - exists w, (Some (SysError err)). split; [assumption|].
    split; [reflexivity|]. left. split; [reflexivity | discriminate].
  - destruct Cs as [content Cs]. change (fileInfo c) with fi in Cs.
    change (srcFile c) with sf in Cs.
    destruct (os.IsDir fi).
    + destruct Cs as (-> & E). exists (extended w c []), None.
      split; [assumption|]. split; [reflexivity|]. right.
      exists []. split; reflexivity.
    + destruct Cs as [(E & B & _)|[(E & B & _)|(err & E)]];
        eexists; eexists; (split; [exact E|]);
        (split; [reflexivity|]); right; exists content;
        (split; [reflexivity|]); intros X;
        [assumption | discriminate X | discriminate X].
Qed.

(** ** Scanning a directory, packing it, scanning the archive *)

(** X20.  Scanning a directory, packing it, scanning the archive.  Let
    the root hold valid names, each once in its directory, and only
    directories and regular files (the size [Lstat] reports for a file is
    the length of its content), nothing in it failing; let the host hold
    it unchanged at [sourceDir], the temporary file refuse nothing, and
    [fixMode] leave the directory bit of a mode as it is.  Then
    [GatherDirectoryResources] returns its descriptors,
    [ZipDirectoryResources] with them returns no error, and
    [GatherArchiveResources] on the new archive returns no error and one
    descriptor for each descriptor of the directory scan, in order, with
    the same hash and the same size; a file has the same name too, a
    directory the same name followed by a slash. *)
Theorem scan_pack_scan :
  forall Separator fixMode filepath_Join os_Open zf sourceDir root,
    tree.wellFormed Separator root = true ->
    tree.readable root = true ->
    holds filepath_Join os_Open sourceDir root ->
    accepting (ioutil.file zf) ->
    (forall m, Z.testbit (fixMode m) 31 = Z.testbit m 31) ->
    exists resources rescanned,
      GatherDirectoryResources Separator fixMode root = (resources, None)
      /\ failed (ZipDirectoryResources filepath_Join os_Open (Ok zf)
                   sourceDir resources) = None
      /\ GatherArchiveResources Separator
           (reopened
              (archive (ZipDirectoryResources filepath_Join os_Open (Ok zf)
                          sourceDir resources)))
         = (rescanned, None)
      /\ Forall2 rescannedAs resources rescanned.
Proof.
  intros sep fixMode J O zf dir root W R H A Fm.
  set (l := tree.below root).
  exists (scanned sep fixMode [] l).
  destruct (calls_of_entries
              (fun e => directoryCall J O dir
                          (described sep fixMode ([] ++ fst e) (snd e)))
              (packedAs sep fixMode J dir) l) as (cs & M & Ps & Qs).
  { intros e I. now apply entry_call with (root := root). }
  assert (Calls : map (directoryCall J O dir) (scanned sep fixMode [] l)
                  = map Ok cs).
  { unfold scanned. rewrite map_map. exact M. }
  rewrite ZipDirectoryResources_packCalls, Calls.
  pose proof (packCalls_passes zf cs A Ps) as Fd.
  destruct (packCalls_success _ _ Fd) as (zf' & cs' & _ & M' & _ & C).
  apply map_Ok_inj in M'. subst cs'.
  set (ents := archive (packCalls (Ok zf) (map Ok cs))) in *.
  destruct (gatherArchiveFiles_spec sep (zip.reopen ents) [])
    as (found & G & Sc).
  { rewrite reopen_relist. apply Forall_map, Forall_forall.
    intros ent _. right. eexists. split; reflexivity. }
  unfold scannedFromArchive in Sc.
  exists found. split; [now apply GatherDirectoryResources_readable|].
  split; [exact Fd|]. split; [exact G|].
  unfold scanned. apply Forall2_map_l. cbn [app].
  rewrite reopen_relist in Sc. apply Forall2_map_l in Sc.
  pose proof (Forall2_compose _ _ _ _ _ Qs C) as QC.
  pose proof (Forall2_compose _ _ _ _ _ QC Sc) as All.
  eapply Forall2_impl; [|exact All].
  intros e r' (ent & (c & Q & Cc) & Fn & S).
  eapply (rescanned_entry sep fixMode J dir Fm); eassumption.
Qed.

Lemma scan_pack_scan_witness :
  exists resources rescanned,
    GatherDirectoryResources "/" (fun m => m) sample.app = (resources, None)
    /\ failed (ZipDirectoryResources sample.Join sample.Open
                 (Ok sample.zipFile) "app" resources) = None
    /\ GatherArchiveResources "/"
         (reopened
            (archive (ZipDirectoryResources sample.Join sample.Open
                        (Ok sample.zipFile) "app" resources)))
       = (rescanned, None)
    /\ Forall2 rescannedAs resources rescanned.
Proof.
  apply (scan_pack_scan "/" (fun m => m) sample.Join sample.Open
           sample.zipFile "app"%string sample.app).
  - vm_compute. reflexivity.
  - vm_compute. reflexivity.
  - repeat constructor; do 2 eexists;
      (split; [reflexivity|]); (split; [reflexivity|]);
      (split; [vm_compute; reflexivity|]); (split; [reflexivity|]);
      vm_compute; congruence.
  - split; intros; reflexivity.
  - reflexivity.
Defined.
